(** * calc/common.ts: token model, formula automaton, RPN evaluator, codec

    A shallow embedding of the calculator core of [src/calc/common.ts].

    - JavaScript objects of the seven token classes become one inductive
      type [Token]; a method that mutates [this] returns the new token next
      to its result.
    - The array [Formula.tokens] is a [list Token] in array order: the
      last element of the list is the last token of the formula.
    - A JavaScript [number] is a binary64 float ([PrimFloat.float]).
    - A call that can throw, or a loop without a syntactic bound, returns
      a [result]. *)

From Stdlib Require Import List String Ascii Bool Arith ZArith Lia.
From Stdlib Require Import Permutation Sorted.
From Stdlib Require Import Floats.
Import ListNotations.

Local Open Scope string_scope.
Local Open Scope list_scope.

(** ** Outcomes of calls *)

Inductive error : Type :=
| Thrown (msg : string)   (* a JavaScript [throw new Error(msg)] *)
| TypeMismatch            (* an argument outside the declared TypeScript type *)
| OutOfFuel.              (* the loop bound of the model was exhausted *)

Inductive result (A : Type) : Type :=
| Ok (a : A)
| Err (e : error).

Arguments Ok {A} a.
Arguments Err {A} e.

Definition bind {A B : Type} (c : result A) (k : A -> result B) : result B :=
  match c with
  | Ok a => k a
  | Err e => Err e
  end.

Notation "x <- c ;; k" := (bind c (fun x => k))
  (at level 61, c at next level, right associativity).

(** ** Enumerations (lines 1-47) *)

Module AppendResult.
Inductive t : Type :=
| replaced            (* the current token has been replaced in place *)
| failed              (* append failed and must be rejected *)
| createAfter         (* token not modified, a fresh token is created *)
| insertAnsAndCreate  (* insert the Ans token and create a fresh token *)
| deleteAndCreate     (* delete the current token, replace with the fresh one *)
| createBefore        (* create a fresh token before the current one *)
| backspace.          (* delete the current token *)

Definition eqb (a b : t) : bool :=
  match a, b with
  | replaced, replaced | failed, failed | createAfter, createAfter
  | insertAnsAndCreate, insertAnsAndCreate
  | deleteAndCreate, deleteAndCreate | createBefore, createBefore
  | backspace, backspace => true
  | _, _ => false
  end.
End AppendResult.

(** [type Digit = '0' | ... | '9' | '.'] : the decimal point is a [Digit]. *)
Inductive Digit : Type :=
| D0 | D1 | D2 | D3 | D4 | D5 | D6 | D7 | D8 | D9 | Dot.

Definition Digit_to_string (d : Digit) : string :=
  match d with
  | D0 => "0" | D1 => "1" | D2 => "2" | D3 => "3" | D4 => "4"
  | D5 => "5" | D6 => "6" | D7 => "7" | D8 => "8" | D9 => "9"
  | Dot => "."
  end.

Definition Digit_is_dot (d : Digit) : bool :=
  match d with Dot => true | _ => false end.

Module Precedence.
Inductive t : Type := eq | open | add | mul | pow | unary | symbol.

(** The numeric value of the [const enum] member. *)
Definition to_nat (p : t) : nat :=
  match p with
  | eq => 0 | open => 1 | add => 2 | mul => 3 | pow => 4
  | unary => 5 | symbol => 6
  end.

Definition geb (p q : t) : bool := Nat.leb (to_nat q) (to_nat p).
Definition ltb (p q : t) : bool := Nat.ltb (to_nat p) (to_nat q).
End Precedence.

Module BinOp.
Inductive t : Type := add | sub | mul | div | pow | ee.

Definition to_string (op : t) : string :=
  match op with
  | add => "+" | sub => "−" | mul => "×" | div => "÷"
  | pow => "^" | ee => "E"
  end.

Definition of_string (s : string) : option t :=
  if String.eqb s "+" then Some add
  else if String.eqb s "−" then Some sub
  else if String.eqb s "×" then Some mul
  else if String.eqb s "÷" then Some div
  else if String.eqb s "^" then Some pow
  else if String.eqb s "E" then Some ee
  else None.
End BinOp.

Module UnOp.
Inductive t : Type := reciprocal | sqrt | neg.

Definition to_string (op : t) : string :=
  match op with
  | reciprocal => "1/𝘹" | sqrt => "√" | neg => "±"
  end.

Definition of_string (s : string) : option t :=
  if String.eqb s "1/𝘹" then Some reciprocal
  else if String.eqb s "√" then Some sqrt
  else if String.eqb s "±" then Some neg
  else None.

Definition eqb (a b : t) : bool :=
  match a, b with
  | reciprocal, reciprocal | sqrt, sqrt | neg, neg => true
  | _, _ => false
  end.
End UnOp.

Module SymOp.
Inductive t : Type := ans.

Definition to_string (op : t) : string :=
  match op with ans => "Ans" end.

Definition of_string (s : string) : option t :=
  if String.eqb s "Ans" then Some ans else None.
End SymOp.

(** ** Tokens (lines 49-586) *)

#[warnings="-register-all"]
Inductive Token : Type :=
| NumberToken (negative : bool) (number : string)
| BinaryToken (op : BinOp.t)
| UnaryToken (op : UnOp.t)
| GroupToken (tokens : list Token)
| SymbolToken (op : SymOp.t)
| OpenToken
| EqToken.

(** [new NumberToken(init)] *)
Definition NumberToken_new (init : Digit) : Token :=
  NumberToken false (if Digit_is_dot init then "0." else Digit_to_string init).

(** [/\./.test(s)] *)
Fixpoint test_dot (s : string) : bool :=
  match s with
  | EmptyString => false
  | String c r => if Ascii.eqb c "."%char then true else test_dot r
  end.

(** *** The append contract

    Each method returns the [AppendResult] and the token after the call
    (the receiver, mutated or not). *)

Definition NumberToken_appendDigit (negative : bool) (number : string)
    (digit : Digit) : AppendResult.t * Token :=
  if Digit_is_dot digit then
    if test_dot number then
      (AppendResult.failed, NumberToken negative number)
    else
      (AppendResult.replaced,
       NumberToken negative (number ++ Digit_to_string digit))
  else
    let number1 := if String.eqb number "0" then EmptyString else number in
    (AppendResult.replaced,
     NumberToken negative (number1 ++ Digit_to_string digit)).

Definition NumberToken_appendUnary (negative : bool) (number : string)
    (op : UnOp.t) : AppendResult.t * Token :=
  if UnOp.eqb op UnOp.neg then
    (AppendResult.replaced, NumberToken (negb negative) number)
  else
    (AppendResult.createAfter, NumberToken negative number).

Definition UnaryToken_appendUnary (this_op op : UnOp.t) : AppendResult.t :=
  if UnOp.eqb op this_op then
    match op with
    | UnOp.neg | UnOp.reciprocal => AppendResult.backspace
    | UnOp.sqrt => AppendResult.createAfter
    end
  else AppendResult.createAfter.

Definition Token_appendDigit (digit : Digit) (t : Token)
    : AppendResult.t * Token :=
  match t with
  | NumberToken negative number => NumberToken_appendDigit negative number digit
  | BinaryToken _ => (AppendResult.createAfter, t)
  | UnaryToken _ => (AppendResult.failed, t)
  | GroupToken _ => (AppendResult.failed, t)
  | SymbolToken _ => (AppendResult.deleteAndCreate, t)
  | OpenToken => (AppendResult.createAfter, t)
  | EqToken => (AppendResult.createAfter, t)
  end.

Definition Token_appendBinary (op : BinOp.t) (t : Token)
    : AppendResult.t * Token :=
  match t with
  | NumberToken _ _ => (AppendResult.createAfter, t)
  | BinaryToken _ => (AppendResult.replaced, BinaryToken op)
  | UnaryToken _ => (AppendResult.createAfter, t)
  | GroupToken _ => (AppendResult.createAfter, t)
  | SymbolToken _ => (AppendResult.createAfter, t)
  | OpenToken => (AppendResult.failed, t)
  | EqToken => (AppendResult.insertAnsAndCreate, t)
  end.

Definition Token_appendUnary (op : UnOp.t) (t : Token)
    : AppendResult.t * Token :=
  match t with
  | NumberToken negative number => NumberToken_appendUnary negative number op
  | BinaryToken _ => (AppendResult.failed, t)
  | UnaryToken this_op => (UnaryToken_appendUnary this_op op, t)
  | GroupToken _ => (AppendResult.createAfter, t)
  | SymbolToken _ => (AppendResult.createAfter, t)
  | OpenToken => (AppendResult.failed, t)
  | EqToken => (AppendResult.insertAnsAndCreate, t)
  end.

Definition Token_appendSymbol (t : Token) : AppendResult.t * Token :=
  match t with
  | NumberToken _ _ => (AppendResult.deleteAndCreate, t)
  | BinaryToken _ => (AppendResult.createAfter, t)
  | UnaryToken _ => (AppendResult.failed, t)
  | GroupToken _ => (AppendResult.failed, t)
  | SymbolToken _ => (AppendResult.deleteAndCreate, t)
  | OpenToken => (AppendResult.createAfter, t)
  | EqToken => (AppendResult.createAfter, t)
  end.

Definition Token_appendOpen (t : Token) : AppendResult.t * Token :=
  match t with
  | NumberToken _ _ => (AppendResult.createBefore, t)
  | BinaryToken _ => (AppendResult.createAfter, t)
  | UnaryToken _ => (AppendResult.failed, t)
  | GroupToken _ => (AppendResult.failed, t)
  | SymbolToken _ => (AppendResult.createBefore, t)
  | OpenToken => (AppendResult.createAfter, t)
  | EqToken => (AppendResult.createAfter, t)
  end.

Definition Token_appendClose (t : Token) : AppendResult.t * Token :=
  match t with
  | NumberToken _ _ => (AppendResult.createAfter, t)
  | BinaryToken _ => (AppendResult.failed, t)
  | UnaryToken _ => (AppendResult.createAfter, t)
  | GroupToken _ => (AppendResult.createAfter, t)
  | SymbolToken _ => (AppendResult.createAfter, t)
  | OpenToken => (AppendResult.failed, t)
  | EqToken => (AppendResult.failed, t)
  end.

(** [NumberToken.backspace]: [true] asks the caller to drop the token. *)
Definition NumberToken_backspace (negative : bool) (number : string)
    : bool * Token :=
  if Nat.ltb 1 (String.length number) then
    (false,
     NumberToken negative (substring 0 (String.length number - 1) number))
  else
    (true, NumberToken negative number).

Definition precedence (t : Token) : Precedence.t :=
  match t with
  | NumberToken _ _ => Precedence.symbol
  | BinaryToken op =>
      match op with
      | BinOp.add | BinOp.sub => Precedence.add
      | BinOp.mul | BinOp.div => Precedence.mul
      | BinOp.pow | BinOp.ee => Precedence.pow
      end
  | UnaryToken _ => Precedence.unary
  | GroupToken _ => Precedence.symbol
  | SymbolToken _ => Precedence.symbol
  | OpenToken => Precedence.open
  | EqToken => Precedence.eq
  end.

(** ** Numbers

    [value] is what a JavaScript expression of this program can yield: a
    [number], or [undefined] (reading past the end of an array). *)

Inductive value : Type :=
| Undefined
| Num (f : float).

(** [ToNumber]: [undefined] converts to [NaN]. *)
Definition ToNumber (v : value) : float :=
  match v with
  | Undefined => nan
  | Num f => f
  end.

(** The two functions of the host's [Math] object that the program calls.
    ECMAScript leaves their results implementation-approximated, so they
    are taken as given. *)
Record MathObject : Type := {
  Math_pow : float -> float -> float;
  Math_sqrt : float -> float
}.

(** *** [parseFloat]

    The host function, on strings held as UTF-8 bytes: skip leading white
    space, read the longest prefix that is a [StrDecimalLiteral], round its
    decimal value to the nearest binary64 (ties to even). *)

Definition code (c : ascii) : nat := nat_of_ascii c.

Definition is_digit (c : ascii) : bool :=
  Nat.leb 48 (code c) && Nat.leb (code c) 57.

Definition is_white1 (c : ascii) : bool :=
  let n := code c in
  Nat.eqb n 9 || Nat.eqb n 10 || Nat.eqb n 11 || Nat.eqb n 12
  || Nat.eqb n 13 || Nat.eqb n 32.

(** U+00A0 *)
Definition is_white2 (c1 c2 : ascii) : bool :=
  Nat.eqb (code c1) 194 && Nat.eqb (code c2) 160.

(** U+1680, U+2000..U+200A, U+2028, U+2029, U+202F, U+205F, U+3000, U+FEFF *)
Definition is_white3 (c1 c2 c3 : ascii) : bool :=
  let a := code c1 in
  let b := code c2 in
  let c := code c3 in
  (Nat.eqb a 225 && Nat.eqb b 154 && Nat.eqb c 128)
  || (Nat.eqb a 226 && Nat.eqb b 128
      && ((Nat.leb 128 c && Nat.leb c 138)
          || Nat.eqb c 168 || Nat.eqb c 169 || Nat.eqb c 175))
  || (Nat.eqb a 226 && Nat.eqb b 129 && Nat.eqb c 159)
  || (Nat.eqb a 227 && Nat.eqb b 128 && Nat.eqb c 128)
  || (Nat.eqb a 239 && Nat.eqb b 187 && Nat.eqb c 191).

Fixpoint trim_start (s : string) : string :=
  match s with
  | EmptyString => s
  | String c1 r1 =>
      if is_white1 c1 then trim_start r1
      else
        match r1 with
        | EmptyString => s
        | String c2 r2 =>
            if is_white2 c1 c2 then trim_start r2
            else
              match r2 with
              | EmptyString => s
              | String c3 r3 =>
                  if is_white3 c1 c2 c3 then trim_start r3 else s
              end
        end
  end.

(** [DecimalDigits]: the digits read so far as an integer, how many were
    read, and the rest of the string. *)
Fixpoint read_digits (s : string) (acc : Z) (n : nat) : Z * nat * string :=
  match s with
  | EmptyString => (acc, n, s)
  | String c r =>
      if is_digit c
      then read_digits r (10 * acc + (Z.of_nat (code c) - 48))%Z (S n)
      else (acc, n, s)
  end.

(** [ExponentPart], when present and well formed; otherwise exponent 0. *)
Definition read_exponent (s : string) : Z :=
  match s with
  | String c r =>
      if Ascii.eqb c "e"%char || Ascii.eqb c "E"%char then
        let '(neg, r1) :=
          match r with
          | String sg r' =>
              if Ascii.eqb sg "-"%char then (true, r')
              else if Ascii.eqb sg "+"%char then (false, r')
              else (false, r)
          | EmptyString => (false, r)
          end in
        let '(e, n, _) := read_digits r1 0%Z 0 in
        match n with
        | O => 0%Z
        | S _ => if neg then (- e)%Z else e
        end
      else 0%Z
  | EmptyString => 0%Z
  end.

(** The binary64 nearest to [m * 10 ^ e], for [m >= 0]. *)
Definition decimal_to_float (neg : bool) (m e : Z) : float :=
  SF2Prim
    match m with
    | Zpos p =>
        match e with
        | Zneg q =>
            SFdiv prec emax (S754_finite neg p 0)
              (S754_finite false (Pos.pow 10 q) 0)
        | _ => binary_normalize prec emax
                 (if neg then - (m * 10 ^ e) else m * 10 ^ e)%Z 0 neg
        end
    | _ => S754_zero neg
    end.

Fixpoint starts_with (p s : string) : bool :=
  match p, s with
  | EmptyString, _ => true
  | String a p', String b s' => Ascii.eqb a b && starts_with p' s'
  | String _ _, EmptyString => false
  end.

(** [StrUnsignedDecimalLiteral] *)
Definition parse_unsigned (neg : bool) (s : string) : float :=
  if starts_with "Infinity" s then
    (if neg then neg_infinity else infinity)
  else
    let '(m1, n1, r1) := read_digits s 0%Z 0 in
    match r1 with
    | String "."%char r =>
        let '(m2, n2, r2) := read_digits r m1 0 in
        match n1, n2 with
        | O, O => nan
        | _, _ =>
            decimal_to_float neg m2 (read_exponent r2 - Z.of_nat n2)
        end
    | _ =>
        match n1 with
        | O => nan
        | S _ => decimal_to_float neg m1 (read_exponent r1)
        end
    end.

Definition parseFloat (s : string) : float :=
  match trim_start s with
  | String "-"%char r => parse_unsigned true r
  | String "+"%char r => parse_unsigned false r
  | t => parse_unsigned false t
  end.

(** ** Environment (lines 787-797) *)

Record CalcHistory : Type := {
  formula : list Token;
  ans : float
}.

Record Environment : Type := {
  historyIndices : list Z;
  history : list CalcHistory;
  partialAns : float
}.

(** ** RPN conversion (lines 322-349)

    [toRPN] only looks at [token.precedence()], so it is written over any
    element type with a precedence. The operator stack [ops] is kept top
    first: [ops.pop()] takes the head, [ops.push(x)] conses, and
    [ops.reverse()] read front to back is the list itself. *)

Section ToRPN.
Context {A : Type} (prec : A -> Precedence.t).

(** [while ((op = ops.pop())) { ... }] *)
Fixpoint popOps (p : Precedence.t) (ops result : list A)
    : list A * list A :=
  match ops with
  | [] => ([], result)
  | op :: ops' =>
      if Precedence.geb (prec op) p
      then popOps p ops' (result ++ [op])
      else (ops, result)
  end.

Fixpoint toRPN_loop (tokens result ops : list A) : list A :=
  match tokens with
  | [] => result ++ ops
  | token :: rest =>
      match prec token with
      | Precedence.symbol | Precedence.unary =>
          toRPN_loop rest (result ++ [token]) ops
      | p =>
          let '(ops', result') := popOps p ops result in
          toRPN_loop rest result' (token :: ops')
      end
  end.

Definition toRPN (tokens : list A) : list A := toRPN_loop tokens [] [].
End ToRPN.

(** ** Evaluation *)

(** The array [numbers] of [GroupToken.evaluate]. Writing
    [numbers[numbers.length - 1]] on an empty array sets the property
    ["-1"], which is not an element; [minus1] holds it. *)
Record Numbers : Type := {
  items : list value;
  minus1 : value
}.

Definition Numbers_push (n : Numbers) (v : value) : Numbers :=
  {| items := items n ++ [v]; minus1 := minus1 n |}.

(** [numbers[numbers.length - 1]] *)
Definition Numbers_top (n : Numbers) : value :=
  match items n with
  | [] => minus1 n
  | _ :: _ => last (items n) Undefined
  end.

(** [numbers[numbers.length - 1] = v] *)
Definition Numbers_set_top (n : Numbers) (v : value) : Numbers :=
  match items n with
  | [] => {| items := []; minus1 := v |}
  | _ :: _ => {| items := removelast (items n) ++ [v]; minus1 := minus1 n |}
  end.

(** [numbers.splice(numbers.length - 2, 2)]: the removed elements and the
    array left. A negative start counts from the end, clamped at 0. *)
Definition Numbers_splice2 (n : Numbers) : list value * Numbers :=
  let k := List.length (items n) - 2 in
  (skipn k (items n), {| items := firstn k (items n); minus1 := minus1 n |}).

Section Evaluate.
Variable Math : MathObject.
Variable env : Environment.

Local Open Scope float_scope.

Definition arg (args : list value) (i : nat) : float :=
  ToNumber (nth i args Undefined).

Definition NumberToken_evaluate (negative : bool) (number : string) : float :=
  let n := parseFloat number in
  if negative then - n else n.

Definition BinaryToken_evaluate (op : BinOp.t) (args : list value) : float :=
  let left := arg args 0 in
  let right := arg args 1 in
  match op with
  | BinOp.add => left + right
  | BinOp.sub => left - right
  | BinOp.mul => left * right
  | BinOp.div => left / right
  | BinOp.pow => Math_pow Math left right
  | BinOp.ee => left * Math_pow Math 10 right
  end.

Definition UnaryToken_evaluate (op : UnOp.t) (args : list value) : float :=
  let x := arg args 0 in
  match op with
  | UnOp.reciprocal => 1 / x
  | UnOp.sqrt => Math_sqrt Math x
  | UnOp.neg => - x
  end.

Definition SymbolToken_evaluate (op : SymOp.t) : float :=
  match op with
  | SymOp.ans =>
      match history env with
      | [] => 0
      | h :: hs => ans (last hs h)
      end
  end.

(** One turn of the loop of [GroupToken.evaluate], for a token of
    precedence [p] whose [evaluate] method is [ev]. *)
Definition reduce_step (numbers : Numbers)
    (token : Precedence.t * (list value -> result value))
    : result Numbers :=
  let '(p, ev) := token in
  match p with
  | Precedence.symbol =>
      v <- ev [] ;;
      Ok (Numbers_push numbers v)
  | Precedence.unary =>
      v <- ev [Numbers_top numbers] ;;
      Ok (Numbers_set_top numbers v)
  | _ =>
      let '(args, numbers') := Numbers_splice2 numbers in
      v <- ev args ;;
      Ok (Numbers_push numbers' v)
  end.

Fixpoint reduce (numbers : Numbers)
    (rpn : list (Precedence.t * (list value -> result value)))
    : result Numbers :=
  match rpn with
  | [] => Ok numbers
  | token :: rest =>
      numbers' <- reduce_step numbers token ;;
      reduce numbers' rest
  end.

(** [token.evaluate(env, ...args)]. In a Group each contained token is
    paired with its own [precedence()] and [evaluate] method, and
    [toRPN] reorders the pairs. *)
Fixpoint evaluate (t : Token) (args : list value) {struct t}
    : result value :=
  match t with
  | NumberToken negative number =>
      Ok (Num (NumberToken_evaluate negative number))
  | BinaryToken op => Ok (Num (BinaryToken_evaluate op args))
  | UnaryToken op => Ok (Num (UnaryToken_evaluate op args))
  | GroupToken tokens =>
      numbers <- reduce {| items := []; minus1 := Undefined |}
                   (toRPN fst
                      (map (fun token => (precedence token, evaluate token))
                         tokens)) ;;
      Ok (nth 0 (items numbers) Undefined)
  | SymbolToken op => Ok (Num (SymbolToken_evaluate op))
  | OpenToken => Err (Thrown "should never evaluate OpenToken")
  | EqToken => Err (Thrown "should never evaluate EqToken")
  end.
End Evaluate.

(** ** Rendering: [renderInto(result)] returns the array after the pushes *)

(** [<span class="cls">] *)
Definition span (cls : string) : string :=
  let quote := String (ascii_of_nat 34) EmptyString in
  ("<span class=" ++ quote ++ cls ++ quote ++ ">")%string.

(** [<span class="cls">text</span>] as one array element *)
Definition span1 (cls text : string) : string :=
  (span cls ++ text ++ "</span>")%string.

Fixpoint renderInto (t : Token) (result : list string) : list string :=
  match t with
  | NumberToken negative number =>
      result ++ [span "number"; if negative then "-" else EmptyString;
                 number; "</span>"]
  | BinaryToken op =>
      result ++ [span "operator"; BinOp.to_string op; "</span>"]
  | UnaryToken op =>
      result ++ [span "operator"; UnOp.to_string op; "</span>"]
  | GroupToken tokens =>
      fold_left (fun acc token => renderInto token acc) tokens
        (result ++ [span1 "parenthesis" "("])
      ++ [span1 "parenthesis" ")"]
  | SymbolToken op =>
      result ++ [span "symbol"; SymOp.to_string op; "</span>"]
  | OpenToken => result ++ [span1 "parenthesis" "("]
  | EqToken => result ++ [span1 "eq" "="]
  end.

(** ** Serialization (lines 588-621)

    [Json] is the persisted form: what [JSON.stringify] keeps of the value
    built by [serializeToken]. The pair [[tag, payload]] is a two-element
    array. *)

#[warnings="-register-all"]
Inductive Json : Type :=
| JNull
| JBool (b : bool)
| JString (s : string)
| JArray (l : list Json).

Definition serializeTag (t : Token) : string :=
  match t with
  | NumberToken _ _ => "n"
  | BinaryToken _ => "b"
  | UnaryToken _ => "u"
  | GroupToken _ => "g"
  | SymbolToken _ => "s"
  | OpenToken => "o"
  | EqToken => "e"
  end.

Fixpoint serialize (t : Token) : Json :=
  match t with
  | NumberToken negative number => JArray [JBool negative; JString number]
  | BinaryToken op => JString (BinOp.to_string op)
  | UnaryToken op => JString (UnOp.to_string op)
  | GroupToken tokens =>
      JArray (map (fun token =>
                     JArray [JString (serializeTag token); serialize token])
                tokens)
  | SymbolToken op => JString (SymOp.to_string op)
  | OpenToken => JNull
  | EqToken => JNull
  end.

Definition serializeToken (token : Token) : Json :=
  JArray [JString (serializeTag token); serialize token].

(** [array.map(f)] for an [f] that can throw: left to right, stopping at
    the first failure. *)
Definition mapM {A B : Type} (f : A -> result B) : list A -> result (list B) :=
  fix go (l : list A) : result (list B) :=
    match l with
    | [] => Ok []
    | x :: r => y <- f x ;; ys <- go r ;; Ok (y :: ys)
    end.

(** [deserializeToken(json)], for [json : [string, any]]. The [switch] on
    the tag builds the initial token and [deserialize(json[1])] fills it;
    a payload that is not of the field's declared type is a
    [TypeMismatch]. *)
Fixpoint deserializeToken (json : Json) : result Token :=
  match json with
  | JArray (JString tag :: rest) =>
      if String.eqb tag "n" then
        match rest with
        | JArray (JBool negative :: JString number :: _) :: _ =>
            Ok (NumberToken negative number)
        | _ => Err TypeMismatch
        end
      else if String.eqb tag "b" then
        match rest with
        | JString s :: _ =>
            match BinOp.of_string s with
            | Some op => Ok (BinaryToken op)
            | None => Err TypeMismatch
            end
        | _ => Err TypeMismatch
        end
      else if String.eqb tag "u" then
        match rest with
        | JString s :: _ =>
            match UnOp.of_string s with
            | Some op => Ok (UnaryToken op)
            | None => Err TypeMismatch
            end
        | _ => Err TypeMismatch
        end
      else if String.eqb tag "g" then
        match rest with
        | JArray l :: _ =>
            tokens <- mapM deserializeToken l ;;
            Ok (GroupToken tokens)
        | _ => Err TypeMismatch
        end
      else if String.eqb tag "s" then
        match rest with
        | JString s :: _ =>
            match SymOp.of_string s with
            | Some op => Ok (SymbolToken op)
            | None => Err TypeMismatch
            end
        | _ => Err TypeMismatch
        end
      else if String.eqb tag "o" then Ok OpenToken
      else if String.eqb tag "e" then Ok EqToken
      else Err (Thrown "cannot serialize token")
  | _ => Err TypeMismatch
  end.

(** [clone()] *)
Fixpoint clone (t : Token) : Token :=
  match t with
  | NumberToken negative number => NumberToken negative number
  | BinaryToken op => BinaryToken op
  | UnaryToken op => UnaryToken op
  | GroupToken tokens => GroupToken (map clone tokens)
  | SymbolToken op => SymbolToken op
  | OpenToken => OpenToken
  | EqToken => EqToken
  end.

(** ** The formula automaton (lines 623-785) *)

(** [array.pop()]: the array without its last element, and that element. *)
Fixpoint pop {A : Type} (l : list A) : option (list A * A) :=
  match l with
  | [] => None
  | x :: r =>
      match pop r with
      | None => Some ([], x)
      | Some (r', y) => Some (x :: r', y)
      end
  end.

Definition isOpenToken (t : Token) : bool :=
  match t with OpenToken => true | _ => false end.

Definition isEqToken (t : Token) : bool :=
  match t with EqToken => true | _ => false end.

Module Formula.

Definition handleAppendResult (appendResult : AppendResult.t)
    (newToken : Token) (tokens : list Token) : list Token :=
  match appendResult with
  | AppendResult.createAfter => tokens ++ [newToken]
  | AppendResult.insertAnsAndCreate =>
      tokens ++ [SymbolToken SymOp.ans; newToken]
  | AppendResult.deleteAndCreate =>
      match pop tokens with
      | Some (rest, _) => rest ++ [newToken]
      | None => []  (* sets the property "-1" of an empty array *)
      end
  | AppendResult.createBefore =>
      match pop tokens with
      | Some (rest, lastToken) => rest ++ [newToken; lastToken]
      | None => [newToken]
      end
  | AppendResult.backspace => removelast tokens
  | AppendResult.replaced | AppendResult.failed => tokens
  end.

(** [action] may mutate the last token: the array returned holds the
    token as [action] left it. *)
Definition appendToLastToken (defaultResult : AppendResult.t)
    (action : Token -> AppendResult.t * Token) (tokens : list Token)
    : AppendResult.t * list Token :=
  match pop tokens with
  | None => (defaultResult, tokens)
  | Some (rest, token) =>
      let '(result, token') := action token in
      if isEqToken token
         && negb (AppendResult.eqb result AppendResult.failed)
      then (result, [])
      else (result, rest ++ [token'])
  end.

Definition appendDigit (digit : Digit) (tokens : list Token) : list Token :=
  let '(appendResult, tokens1) :=
    appendToLastToken AppendResult.createAfter
      (Token_appendDigit digit) tokens in
  handleAppendResult appendResult (NumberToken_new digit) tokens1.

Definition appendBinary (op : BinOp.t) (tokens : list Token) : list Token :=
  let '(appendResult, tokens1) :=
    appendToLastToken AppendResult.insertAnsAndCreate
      (Token_appendBinary op) tokens in
  handleAppendResult appendResult (BinaryToken op) tokens1.

Definition appendUnary (op : UnOp.t) (tokens : list Token) : list Token :=
  let '(appendResult, tokens1) :=
    appendToLastToken AppendResult.insertAnsAndCreate
      (Token_appendUnary op) tokens in
  handleAppendResult appendResult (UnaryToken op) tokens1.

Definition appendSymbol (op : SymOp.t) (tokens : list Token) : list Token :=
  let '(appendResult, tokens1) :=
    appendToLastToken AppendResult.createAfter Token_appendSymbol tokens in
  handleAppendResult appendResult (SymbolToken op) tokens1.

Definition appendOpen (tokens : list Token) : list Token :=
  let '(appendResult, tokens1) :=
    appendToLastToken AppendResult.createAfter Token_appendOpen tokens in
  handleAppendResult appendResult OpenToken tokens1.

(** [for (let i = n - 1; i >= 0; i--) if (tokens[i] instanceof OpenToken)]:
    the index the loop stops at. *)
Fixpoint findOpen (tokens : list Token) (n : nat) : option nat :=
  match n with
  | O => None
  | S i =>
      match nth_error tokens i with
      | Some OpenToken => Some i
      | _ => findOpen tokens i
      end
  end.

(** Returns the boolean of the method and the array after the call. *)
Definition appendClose (tokens : list Token) : result (bool * list Token) :=
  let '(appendResult, tokens1) :=
    appendToLastToken AppendResult.failed Token_appendClose tokens in
  match appendResult with
  | AppendResult.failed => Ok (false, tokens1)
  | AppendResult.createAfter =>
      match findOpen tokens1 (List.length tokens1) with
      | Some i =>
          let groupToken := GroupToken (skipn (i + 1) tokens1) in
          Ok (true, firstn i tokens1 ++ [groupToken])
      | None => Ok (false, tokens1)
      end
  | _ => Err (Thrown "unknown action for appending `)`")
  end.

Definition backspace (tokens : list Token) : list Token :=
  match pop tokens with
  | None => tokens
  | Some (rest, token) =>
      match token with
      | NumberToken negative number =>
          let '(drop, token') := NumberToken_backspace negative number in
          if drop then rest else rest ++ [token']
      | GroupToken inner => rest ++ OpenToken :: inner
      | _ => rest
      end
  end.

Definition renderInto (tokens : list Token) (result : list string)
    : list string :=
  fold_left (fun acc token => renderInto token acc) tokens result.

(** The inner [while (start > 0)] of [partial]: [(true, start)] when it
    leaves by [break outside], [(false, 0)] when it runs to [start = 0]. *)
Fixpoint partial_inner (tokens : list Token) (prec : Precedence.t)
    (start : nat) : result (bool * nat) :=
  match start with
  | O => Ok (false, O)
  | S start' =>
      match nth_error tokens start' with
      | None => Err (Thrown "TypeError")
      | Some token =>
          if Precedence.ltb (precedence token) prec
          then Ok (true, start)
          else partial_inner tokens prec start'
      end
  end.

(** The loop [outside: while (start >= 0)] of [partial]; [fuel] bounds
    the number of turns. Returns [start] and [end] at the exit. *)
Fixpoint partial_loop (fuel : nat) (tokens : list Token) (start end_ : Z)
    : result (Z * Z) :=
  if (start <? 0)%Z then Ok (start, end_)
  else
    match fuel with
    | O => Err OutOfFuel
    | S fuel' =>
        match nth_error tokens (Z.to_nat start) with
        | None => Err (Thrown "TypeError")
        | Some token =>
            let prec := precedence token in
            match prec with
            | Precedence.symbol => Ok (start, end_)
            | Precedence.eq => Ok (0, end_ - 1)%Z
            | Precedence.unary =>
                partial_loop fuel' tokens (start - 1)%Z end_
            | Precedence.open =>
                partial_loop fuel' tokens (start - 1)%Z (end_ - 1)%Z
            | _ =>
                r <- partial_inner tokens prec (Z.to_nat start) ;;
                let '(broke, start') := r in
                if broke : bool then Ok (Z.of_nat start', end_ - 1)%Z
                else partial_loop fuel' tokens (Z.of_nat start') (end_ - 1)%Z
            end
        end
    end.

(** [start] and [end] before the final [slice], after [start] has been
    clamped at 0: the window. *)
Definition partial_window (fuel : nat) (tokens : list Token)
    : result (Z * Z) :=
  let end_ := Z.of_nat (List.length tokens) in
  r <- partial_loop fuel tokens (end_ - 1)%Z end_ ;;
  let '(start, end1) := r in
  Ok (if (start <? 0)%Z then 0%Z else start, end1).

Definition partial_fuel (fuel : nat) (tokens : list Token)
    : result (list Token) :=
  r <- partial_window fuel tokens ;;
  let '(start, end_) := r in
  if (start >=? end_)%Z then Ok [NumberToken_new D0]
  else
    Ok (firstn (Z.to_nat end_ - Z.to_nat start)
          (skipn (Z.to_nat start) tokens)).

(** Every turn of the loop that does not leave it lowers [start], unless
    the loop does not end: [length tokens + 1] turns are enough. *)
Definition partial (tokens : list Token) : result (list Token) :=
  partial_fuel (S (List.length tokens)) tokens.

(** [while (this.appendClose()) { }] *)
Fixpoint closeAll (fuel : nat) (tokens : list Token)
    : result (list Token) :=
  match fuel with
  | O => Err OutOfFuel
  | S fuel' =>
      r <- appendClose tokens ;;
      let '(closed, tokens') := r in
      if closed : bool then closeAll fuel' tokens' else Ok tokens'
  end.

(** Each successful [appendClose] shortens the array, so
    [length tokens + 1] calls are enough. *)
Definition appendEq (tokens : list Token) : result (list Token) :=
  let '(appendResult, tokens1) :=
    appendToLastToken AppendResult.failed Token_appendClose tokens in
  if negb (AppendResult.eqb appendResult AppendResult.createAfter)
  then Ok tokens1
  else
    tokens2 <- closeAll (S (List.length tokens1)) tokens1 ;;
    Ok (tokens2 ++ [EqToken]).

Definition isComplete (tokens : list Token) : bool :=
  Nat.ltb 0 (List.length tokens)
  && match pop tokens with
     | Some (_, EqToken) => true
     | _ => false
     end.

End Formula.

(** ** Editing sessions

    The buttons of the calculator that edit the formula (lines 921-950),
    and the formula after a sequence of presses starting from the empty
    formula of [new Formula()]. *)

Inductive Action : Type :=
| PressDigit (digit : Digit)
| PressBinary (op : BinOp.t)
| PressUnary (op : UnOp.t)
| PressSymbol (op : SymOp.t)
| PressOpen
| PressClose
| PressBackspace
| PressEq.

Definition press (a : Action) (tokens : list Token) : result (list Token) :=
  match a with
  | PressDigit digit => Ok (Formula.appendDigit digit tokens)
  | PressBinary op => Ok (Formula.appendBinary op tokens)
  | PressUnary op => Ok (Formula.appendUnary op tokens)
  | PressSymbol op => Ok (Formula.appendSymbol op tokens)
  | PressOpen => Ok (Formula.appendOpen tokens)
  | PressClose =>
      r <- Formula.appendClose tokens ;;
      Ok (snd r)
  | PressBackspace => Ok (Formula.backspace tokens)
  | PressEq => Formula.appendEq tokens
  end.

Fixpoint session (actions : list Action) (tokens : list Token)
    : result (list Token) :=
  match actions with
  | [] => Ok tokens
  | a :: rest =>
      tokens' <- press a tokens ;;
      session rest tokens'
  end.

(** The number of Equals markers in a token, at any depth. *)
Fixpoint countEq (t : Token) : nat :=
  match t with
  | EqToken => 1
  | GroupToken tokens => list_sum (map countEq tokens)
  | _ => 0
  end.

Definition countEqs (tokens : list Token) : nat :=
  list_sum (map countEq tokens).

(** The directive the last token gives to a closing parenthesis. *)
Definition closeDirective (tokens : list Token) : AppendResult.t :=
  fst (Formula.appendToLastToken AppendResult.failed Token_appendClose tokens).

(** The directives on which [handleAppendResult] puts the fresh token
    into the array. *)
Definition creates (r : AppendResult.t) : bool :=
  match r with
  | AppendResult.createAfter | AppendResult.insertAnsAndCreate
  | AppendResult.deleteAndCreate | AppendResult.createBefore => true
  | _ => false
  end.

Definition firstIsBinary (tokens : list Token) : bool :=
  match tokens with
  | BinaryToken _ :: _ => true
  | _ => false
  end.

(** What the editor keeps true of a token inside a formula: a Number has
    at least one character; a Group holds tokens that are well formed, no
    Open marker of its own, and ends in a token that accepts a closing
    parenthesis; there is no Equals marker. *)
Fixpoint wellFormed (t : Token) : bool :=
  match t with
  | NumberToken _ number => Nat.ltb 0 (String.length number)
  | GroupToken tokens =>
      forallb wellFormed tokens
      && negb (existsb isOpenToken tokens)
      && AppendResult.eqb (closeDirective tokens) AppendResult.createAfter
  | EqToken => false
  | _ => true
  end.

(** The invariant of the formula: well-formed tokens, not starting with a
    binary operator, with at most a final Equals marker after them. *)
Definition formulaInvariant (tokens : list Token) : Prop :=
  firstIsBinary tokens = false
  /\ (forallb wellFormed tokens = true
      \/ exists body, tokens = body ++ [EqToken]
                      /\ body <> [] /\ forallb wellFormed body = true).

(** A [Math] object that is exact on squares and cubes, to run examples. *)
Definition Math_small : MathObject := {|
  Math_pow := fun x y =>
    if PrimFloat.eqb y 2 then (x * x)%float
    else if PrimFloat.eqb y 3 then (x * x * x)%float
    else nan;
  Math_sqrt := PrimFloat.sqrt
|}.

Definition no_history : Environment :=
  {| historyIndices := []; history := []; partialAns := 0 |}.

(** ** Induction on tokens, through the contents of groups *)

Section TokenInduction.
Variable P : Token -> Prop.
Hypothesis HNumber : forall negative number, P (NumberToken negative number).
Hypothesis HBinary : forall op, P (BinaryToken op).
Hypothesis HUnary : forall op, P (UnaryToken op).
Hypothesis HGroup : forall tokens, Forall P tokens -> P (GroupToken tokens).
Hypothesis HSymbol : forall op, P (SymbolToken op).
Hypothesis HOpen : P OpenToken.
Hypothesis HEq : P EqToken.

Fixpoint Token_nested_ind (t : Token) : P t :=
  match t with
  | NumberToken negative number => HNumber negative number
  | BinaryToken op => HBinary op
  | UnaryToken op => HUnary op
  | GroupToken tokens =>
      HGroup tokens
        ((fix all (l : list Token) : Forall P l :=
            match l with
            | [] => Forall_nil P
            | x :: r => Forall_cons x (Token_nested_ind x) (all r)
            end) tokens)
  | SymbolToken op => HSymbol op
  | OpenToken => HOpen
  | EqToken => HEq
  end.
End TokenInduction.

(** ** Shapes of digit strings

    The strings the editor builds in a Number token: [0] or a digit
    string without a leading zero, then optionally a point and more
    digits. [numStep] reads one character. *)

Inductive NumState : Type :=
| NS_start   (* nothing read *)
| NS_zero    (* the string "0" *)
| NS_int     (* digits, the first one not 0 *)
| NS_frac    (* an integer part, a point, digits *)
| NS_bad.

Definition numStep (st : NumState) (c : ascii) : NumState :=
  if Ascii.eqb c "."%char then
    match st with
    | NS_zero | NS_int => NS_frac
    | _ => NS_bad
    end
  else if is_digit c then
    match st with
    | NS_start => if Ascii.eqb c "0"%char then NS_zero else NS_int
    | NS_zero => NS_bad
    | NS_int => NS_int
    | NS_frac => NS_frac
    | NS_bad => NS_bad
    end
  else NS_bad.

Fixpoint numRun (st : NumState) (s : string) : NumState :=
  match s with
  | EmptyString => st
  | String c r => numRun (numStep st c) r
  end.

Definition decimalLiteral (s : string) : bool :=
  match numRun NS_start s with
  | NS_zero | NS_int | NS_frac => true
  | _ => false
  end.

Fixpoint countDots (s : string) : nat :=
  match s with
  | EmptyString => 0
  | String c r => (if Ascii.eqb c "."%char then 1 else 0) + countDots r
  end.

(** A predicate on digit strings, on every Number token at any depth. *)
Fixpoint everyNumber (Q : string -> bool) (t : Token) : bool :=
  match t with
  | NumberToken _ number => Q number
  | GroupToken tokens => forallb (everyNumber Q) tokens
  | _ => true
  end.

(** The tokens [toRPN] sends straight to its result. *)
Definition isOperandBy {A : Type} (prec : A -> Precedence.t) (a : A) : bool :=
  match prec a with
  | Precedence.symbol | Precedence.unary => true
  | _ => false
  end.

Definition isValueOrUnary (t : Token) : bool :=
  match precedence t with
  | Precedence.symbol | Precedence.unary => true
  | _ => false
  end.

(** The tags [deserializeToken] has a [case] for. *)
Definition knownTag (tag : string) : bool :=
  String.eqb tag "n" || String.eqb tag "b" || String.eqb tag "u"
  || String.eqb tag "g" || String.eqb tag "s" || String.eqb tag "o"
  || String.eqb tag "e".

(** ** Persisted history (lines 792-843)

    [localStorage] is used under the key ['hI'] (the list of history ids)
    and the keys ['hV<id>'] (one record [[formulaJSON, ans]] per id).
    [Storage] holds, per key, the value that [JSON.parse] reads back from
    the text that [JSON.stringify] stored; an absent key is [None]. Ids
    are integers. *)

Definition MAX_HISTORY_COUNT : nat := 64.

(** [JSON.parse(JSON.stringify(x))] for a number [x]: [x] itself when it
    is finite, with [-0] read back as [0]; [null] (here [None]) for [NaN]
    and the infinities. *)
Definition JSON_number (x : float) : option float :=
  if is_finite x then Some (if is_zero x then 0%float else x) else None.

Record HistoryItem : Type := {
  item_formula : list Json;
  item_ans : option float
}.

Record Storage : Type := {
  hI : option (list Z);
  hV : Z -> option HistoryItem
}.

Definition empty_storage : Storage :=
  {| hI := None; hV := fun _ => None |}.

(** [localStorage.setItem(`hV${index}`, ...)] *)
Definition setItem_hV (index : Z) (item : HistoryItem) (storage : Storage)
    : Storage :=
  {| hI := hI storage;
     hV := fun k => if Z.eqb k index then Some item else hV storage k |}.

(** [localStorage.removeItem(`hV${index}`)] *)
Definition removeItem_hV (index : Z) (storage : Storage) : Storage :=
  {| hI := hI storage;
     hV := fun k => if Z.eqb k index then None else hV storage k |}.

(** [localStorage.setItem('hI', JSON.stringify(indices))] *)
Definition setItem_hI (indices : list Z) (storage : Storage) : Storage :=
  {| hI := Some indices; hV := hV storage |}.

(** [JSON.parse(localStorage.getItem('hI') || '[]')] *)
Definition getItem_hI (storage : Storage) : list Z :=
  match hI storage with
  | Some indices => indices
  | None => []
  end.

(** The loop of the constructor over [historyIndices]: an id without a
    record is skipped; a record is decoded token by token, and a decoding
    failure ends the constructor. A stored answer that is not a number
    is outside the type of [CalcHistory.ans]. *)
Fixpoint Environment_load (storage : Storage) (indices : list Z)
    : result (list Z * list CalcHistory) :=
  match indices with
  | [] => Ok ([], [])
  | index :: rest =>
      match hV storage index with
      | None => Environment_load storage rest
      | Some item =>
          formula <- mapM deserializeToken (item_formula item) ;;
          ans <- match item_ans item with
                 | Some x => Ok x
                 | None => Err TypeMismatch
                 end ;;
          r <- Environment_load storage rest ;;
          Ok (index :: fst r, {| formula := formula; ans := ans |} :: snd r)
      end
  end.

(** [new Environment()] *)
Definition Environment_new (storage : Storage) : result Environment :=
  r <- Environment_load storage (getItem_hI storage) ;;
  Ok {| historyIndices := fst r; history := snd r; partialAns := 0%float |}.

(** [saveAns(formula, ans)]: the environment and the storage after it. *)
Definition saveAns (formula : list Token) (ans : float)
    (state : Environment * Storage) : Environment * Storage :=
  let '(env, storage) := state in
  let nextHistoryID :=
    match historyIndices env with
    | [] => 0%Z
    | i :: l => (last l i + 1)%Z
    end in
  let '(indices1, history1, storage1) :=
    if Nat.leb MAX_HISTORY_COUNT (List.length (historyIndices env)) then
      match historyIndices env with
      | deleteID :: rest =>
          (rest, tl (history env), removeItem_hV deleteID storage)
      | [] => ([], tl (history env), storage)
      end
    else (historyIndices env, history env, storage) in
  let indices2 := indices1 ++ [nextHistoryID] in
  let history2 := history1 ++ [{| formula := formula; ans := ans |}] in
  ({| historyIndices := indices2; history := history2;
      partialAns := partialAns env |},
   setItem_hI indices2
     (setItem_hV nextHistoryID
        {| item_formula := map serializeToken formula;
           item_ans := JSON_number ans |}
        storage1)).

(** [array.splice(start, 1)]: the element removed, if any, and the array
    left. A negative [start] counts from the end. *)
Definition splice1 {A : Type} (l : list A) (start : Z) : option A * list A :=
  let len := Z.of_nat (List.length l) in
  let actualStart :=
    if (start <? 0)%Z then Z.max (len + start) 0 else Z.min start len in
  let k := Z.to_nat actualStart in
  (nth_error l k, firstn k l ++ skipn (S k) l).

(** [deleteHistory(localIndex)] *)
Definition deleteHistory (localIndex : Z) (state : Environment * Storage)
    : Environment * Storage :=
  let '(env, storage) := state in
  let '(index, indices1) := splice1 (historyIndices env) localIndex in
  let '(_, history1) := splice1 (history env) localIndex in
  let storage1 :=
    match index with
    | Some i => removeItem_hV i storage
    | None => storage
    end in
  ({| historyIndices := indices1; history := history1;
      partialAns := partialAns env |},
   setItem_hI indices1 storage1).

(** The history operations of a run of the program. *)
Inductive HistoryOp : Type :=
| SaveAns (formula : list Token) (ans : float)
| DeleteHistory (localIndex : Z).

Definition historyStep (state : Environment * Storage) (op : HistoryOp)
    : Environment * Storage :=
  match op with
  | SaveAns formula ans => saveAns formula ans state
  | DeleteHistory localIndex => deleteHistory localIndex state
  end.

Definition savedAnsIsExact (op : HistoryOp) : Prop :=
  match op with
  | SaveAns _ ans => JSON_number ans = Some ans
  | DeleteHistory _ => True
  end.

(** The environment and the storage agree: ['hI'] lists the ids, each id
    has the record of its entry, and no other record is left. *)
Definition inSync (env : Environment) (storage : Storage) : Prop :=
  getItem_hI storage = historyIndices env
  /\ Forall2
       (fun index entry =>
          hV storage index
          = Some {| item_formula := map serializeToken (formula entry);
                    item_ans := JSON_number (ans entry) |})
       (historyIndices env) (history env)
  /\ (forall k, ~ In k (historyIndices env) -> hV storage k = None).

(** The ids are strictly increasing and there are at most
    [MAX_HISTORY_COUNT] of them, one per entry. *)
Definition historyBounded (env : Environment) : Prop :=
  List.length (historyIndices env) = List.length (history env)
  /\ List.length (historyIndices env) <= MAX_HISTORY_COUNT
  /\ StronglySorted Z.lt (historyIndices env)
  /\ Forall (fun i => (0 <= i)%Z) (historyIndices env).

(** Every stored answer is read back as it was saved. *)
Definition answersExact (env : Environment) : Prop :=
  Forall (fun entry => JSON_number (ans entry) = Some (ans entry)) (history env).

(** A history that is full: 64 answers saved from the empty history. *)
Definition full_history : Environment * Storage :=
  fold_left historyStep (repeat (SaveAns [] 0%float) 64)
    (no_history, empty_storage).

(** ** Width estimate (lines 847-868)

    [for (const char of n)] visits the code points of [n]. In the UTF-8
    bytes of the string a code point starts at every byte that is not a
    continuation byte (binary 10xxxxxx). *)

Definition isContinuationByte (c : ascii) : bool :=
  Nat.leb 128 (code c) && Nat.leb (code c) 191.

#[warnings="-inexact-float"]
Fixpoint estimatedWidth_from (w : float) (n : string) : float :=
  match n with
  | EmptyString => w
  | String c r =>
      estimatedWidth_from
        (if isContinuationByte c then w
         else if Ascii.eqb c ","%char then w
         else if Ascii.eqb c "."%char then (w + 15.57)%float
         else if Ascii.eqb c "-"%char then (w + 18.65)%float
         else if Ascii.eqb c "+"%char then (w + 32.7)%float
         else (w + 31.15)%float)
        r
  end.

Definition estimatedWidth (n : string) : float :=
  estimatedWidth_from 0%float n.

(** The string without its commas. *)
Fixpoint dropCommas (n : string) : string :=
  match n with
  | EmptyString => EmptyString
  | String c r =>
      if Ascii.eqb c ","%char then dropCommas r else String c (dropCommas r)
  end.

(** The number of Open markers at the top level of a formula. *)
Definition countOpen (tokens : list Token) : nat :=
  List.length (filter isOpenToken tokens).

(** * Properties *)


(** ** Arrays *)

Lemma pop_snoc {A : Type} (l : list A) (x : A) : pop (l ++ [x]) = Some (l, x).
Proof.
  induction l as [|y l IH]; simpl.
  - reflexivity.
  - rewrite IH. reflexivity.
Qed.

Lemma pop_nil_inv {A : Type} (l : list A) : pop l = None -> l = [].
Proof.
  destruct l as [|x r]; simpl.
  - reflexivity.
  - destruct (pop r) as [[r' y]|]; discriminate.
Qed.

Lemma pop_snoc_inv {A : Type} (l rest : list A) (x : A) :
  pop l = Some (rest, x) -> l = rest ++ [x].
Proof.
  revert rest x. induction l as [|y l IH]; simpl; intros rest x H.
  - discriminate.
  - destruct (pop l) as [[r' z]|] eqn:E.
    + inversion H; subst. rewrite (IH r' x eq_refl). reflexivity.
    + inversion H; subst. apply pop_nil_inv in E. subst. reflexivity.
Qed.

(** Every array is empty or has a last element. *)
Lemma array_cases {A : Type} (l : list A) :
  l = [] \/ exists rest x, l = rest ++ [x].
Proof.
  destruct (pop l) as [[rest x]|] eqn:E.
  - right. exists rest, x. apply pop_snoc_inv, E.
  - left. apply pop_nil_inv, E.
Qed.

(** ** The codec *)

Lemma BinOp_of_to_string (op : BinOp.t) :
  BinOp.of_string (BinOp.to_string op) = Some op.
Proof. destruct op; reflexivity. Qed.

Lemma UnOp_of_to_string (op : UnOp.t) :
  UnOp.of_string (UnOp.to_string op) = Some op.
Proof. destruct op; reflexivity. Qed.

Lemma SymOp_of_to_string (op : SymOp.t) :
  SymOp.of_string (SymOp.to_string op) = Some op.
Proof. destruct op; reflexivity. Qed.

Lemma mapM_deserialize_serialize (tokens : list Token) :
  Forall (fun t => deserializeToken (serializeToken t) = Ok t) tokens ->
  mapM deserializeToken (map serializeToken tokens) = Ok tokens.
Proof.
  induction 1 as [|t tokens Ht _ IH].
  - reflexivity.
  - change (y <- deserializeToken (serializeToken t) ;;
            ys <- mapM deserializeToken (map serializeToken tokens) ;;
            Ok (y :: ys) = Ok (t :: tokens)).
    rewrite Ht, IH. reflexivity.
Qed.

(** Decoding what was encoded gives the token back. *)
Lemma deserialize_serialize (t : Token) :
  deserializeToken (serializeToken t) = Ok t.
Proof.
  induction t as [negative number|op|op|tokens IH|op| |]
    using Token_nested_ind; try reflexivity.
  - simpl. rewrite BinOp_of_to_string. reflexivity.
  - simpl. rewrite UnOp_of_to_string. reflexivity.
  - pose proof (mapM_deserialize_serialize tokens IH) as H.
    change (tokens' <- mapM deserializeToken (map serializeToken tokens) ;;
            Ok (GroupToken tokens') = Ok (GroupToken tokens)).
    rewrite H. reflexivity.
  - simpl. rewrite SymOp_of_to_string. reflexivity.
Qed.

(** [clone()] copies the token: the copy is the same value. *)
Lemma clone_id (t : Token) : clone t = t.
Proof.
  induction t as [negative number|op|op|tokens IH|op| |]
    using Token_nested_ind; try reflexivity.
  simpl. f_equal. induction IH as [|x l Hx _ IHl]; simpl.
  - reflexivity.
  - rewrite Hx, IHl. reflexivity.
Qed.

(** C1. For every token [t] (every sign flag and digit string, every
    operator, groups of any contents and depth, both markers),
    [deserializeToken (serializeToken t)] returns a token that evaluates
    to the same result, for every [Math] object, environment and argument
    list, and renders the same output after any prefix. The same holds
    for a sequence decoded element by element: it evaluates (as the
    contents of a group) and renders as the original. *)
Theorem C1_codec_round_trip :
  (forall t : Token,
     exists t',
       deserializeToken (serializeToken t) = Ok t'
       /\ (forall Math env args,
             evaluate Math env t' args = evaluate Math env t args)
       /\ (forall out, renderInto t' out = renderInto t out))
  /\ (forall seq : list Token,
        exists seq',
          mapM deserializeToken (map serializeToken seq) = Ok seq'
          /\ (forall Math env args,
                evaluate Math env (GroupToken seq') args
                = evaluate Math env (GroupToken seq) args)
          /\ (forall out,
                Formula.renderInto seq' out = Formula.renderInto seq out)).
Proof.
  split.
  - intro t. exists t. split; [apply deserialize_serialize|].
    split; reflexivity.
  - intro seq. exists seq. split.
    + apply mapM_deserialize_serialize.
      apply Forall_forall. intros t _. apply deserialize_serialize.
    + split; reflexivity.
Qed.

(** ** Precedence in evaluation *)

(** What [GroupToken.evaluate] computes, with [toRPN] applied to the
    tokens themselves as in the source. *)
Lemma toRPN_loop_map {A B : Type} (f : A -> B) (precA : A -> Precedence.t)
    (precB : B -> Precedence.t) (tokens result ops : list A) :
  (forall a, precB (f a) = precA a) ->
  toRPN_loop precB (map f tokens) (map f result) (map f ops)
  = map f (toRPN_loop precA tokens result ops).
Proof.
  intro Hp.
  assert (Hpop : forall p ops result,
             popOps precB p (map f ops) (map f result)
             = (map f (fst (popOps precA p ops result)),
                map f (snd (popOps precA p ops result)))).
  { intros p ops0. induction ops0 as [|op ops0 IH]; intro result0; simpl.
    - reflexivity.
    - rewrite Hp. destruct (Precedence.geb (precA op) p).
      + change [f op] with (map f [op]). rewrite <- map_app. apply IH.
      + reflexivity. }
  revert result ops.
  induction tokens as [|token rest IH]; intros result ops; simpl.
  - rewrite map_app. reflexivity.
  - rewrite Hp.
    destruct (precA token);
      try (rewrite Hpop; destruct (popOps precA _ ops result) as [ops' result'];
           simpl; change (f token :: map f ops') with (map f (token :: ops'));
           apply IH);
      change [f token] with (map f [token]); rewrite <- map_app; apply IH.
Qed.

Lemma evaluate_GroupToken (Math : MathObject) (env : Environment)
    (tokens : list Token) (args : list value) :
  evaluate Math env (GroupToken tokens) args
  = (numbers <- reduce {| items := []; minus1 := Undefined |}
                  (map (fun token => (precedence token, evaluate Math env token))
                     (toRPN precedence tokens)) ;;
     Ok (nth 0 (items numbers) Undefined)).
Proof.
  simpl. unfold toRPN.
  rewrite <- (toRPN_loop_map
                (fun token => (precedence token, evaluate Math env token))
                precedence fst tokens [] []) by reflexivity.
  reflexivity.
Qed.

(** With two binary operators between three numbers, the second operator
    is applied first exactly when it binds tighter; at equal precedence
    the left one is applied first. *)
Lemma evaluate_two_operators (Math : MathObject) (env : Environment)
    (a b c : Token) (o1 o2 : BinOp.t) (x y z : float) :
  (forall args, evaluate Math env a args = Ok (Num x)) ->
  (forall args, evaluate Math env b args = Ok (Num y)) ->
  (forall args, evaluate Math env c args = Ok (Num z)) ->
  precedence a = Precedence.symbol ->
  precedence b = Precedence.symbol ->
  precedence c = Precedence.symbol ->
  evaluate Math env (GroupToken [a; BinaryToken o1; b; BinaryToken o2; c]) []
  = Ok (Num
          (if Precedence.geb (precedence (BinaryToken o1))
                (precedence (BinaryToken o2))
           then BinaryToken_evaluate Math o2
                  [Num (BinaryToken_evaluate Math o1 [Num x; Num y]); Num z]
           else BinaryToken_evaluate Math o1
                  [Num x; Num (BinaryToken_evaluate Math o2 [Num y; Num z])])).
Proof.
  intros Ha Hb Hc Pa Pb Pc.
  rewrite evaluate_GroupToken. unfold toRPN. simpl toRPN_loop.
  rewrite Pa, Pb, Pc.
  destruct o1, o2; simpl; rewrite ?Pa, ?Pb, ?Pc, ?Ha, ?Hb, ?Hc; simpl;
    rewrite ?Pa, ?Pb, ?Pc, ?Ha, ?Hb, ?Hc; reflexivity.
Qed.

(** C2. Postfix conversion followed by left-to-right reduction respects
    precedence and associates to the left at equal precedence:
    [2 + 3 × 4] is reordered to [2 3 4 × +] and evaluates to 14; a group
    holding [2 + 3] followed by [× 4] evaluates to 20; [2 ^ 3 ^ 2] is
    reordered to [2 3 ^ 2 ^] and evaluates to [pow (pow 2 3) 2], which is
    64 for a [Math.pow] that is exact on these two powers. *)
Theorem C2_precedence_and_left_associativity
    (Math : MathObject) (env : Environment)
    (Hcube : Math_pow Math 2 3 = 8%float)
    (Hsquare : Math_pow Math 8 2 = 64%float) :
  let two := NumberToken_new D2 in
  let three := NumberToken_new D3 in
  let four := NumberToken_new D4 in
  let plus := BinaryToken BinOp.add in
  let times := BinaryToken BinOp.mul in
  let power := BinaryToken BinOp.pow in
  toRPN precedence [two; plus; three; times; four]
  = [two; three; four; times; plus]
  /\ evaluate Math env (GroupToken [two; plus; three; times; four]) []
     = Ok (Num 14)
  /\ evaluate Math env
       (GroupToken [GroupToken [two; plus; three]; times; four]) []
     = Ok (Num 20)
  /\ toRPN precedence [two; power; three; power; two]
     = [two; three; power; two; power]
  /\ evaluate Math env (GroupToken [two; power; three; power; two]) []
     = Ok (Num (Math_pow Math (Math_pow Math 2 3) 2))
  /\ evaluate Math env (GroupToken [two; power; three; power; two]) []
     = Ok (Num 64).
Proof.
  intros two three four plus times power.
  assert (Hpow : evaluate Math env
                   (GroupToken [two; power; three; power; two]) []
                 = Ok (Num (Math_pow Math (Math_pow Math 2 3) 2)))
    by reflexivity.
  repeat split; try reflexivity.
  rewrite Hpow, Hcube, Hsquare. reflexivity.
Qed.

Lemma C2_precedence_witness :
  evaluate Math_small no_history
    (GroupToken [NumberToken_new D2; BinaryToken BinOp.pow;
                 NumberToken_new D3; BinaryToken BinOp.pow;
                 NumberToken_new D2]) []
  = Ok (Num 64).
Proof.
  apply (C2_precedence_and_left_associativity Math_small no_history);
    reflexivity.
Defined.

(** ** Dispatch to the last token *)

Lemma appendToLastToken_nil (d : AppendResult.t)
    (action : Token -> AppendResult.t * Token) :
  Formula.appendToLastToken d action [] = (d, []).
Proof. reflexivity. Qed.

Lemma appendToLastToken_snoc (d : AppendResult.t)
    (action : Token -> AppendResult.t * Token) (rest : list Token) (t : Token) :
  Formula.appendToLastToken d action (rest ++ [t])
  = (fst (action t),
     if isEqToken t
        && negb (AppendResult.eqb (fst (action t)) AppendResult.failed)
     then []
     else rest ++ [snd (action t)]).
Proof.
  unfold Formula.appendToLastToken. rewrite pop_snoc.
  destruct (action t) as [r t']. simpl.
  destruct (isEqToken t && negb (AppendResult.eqb r AppendResult.failed));
    reflexivity.
Qed.

Lemma AppendResult_eqb_eq (a b : AppendResult.t) :
  AppendResult.eqb a b = true <-> a = b.
Proof. destruct a, b; simpl; split; intro H; try reflexivity; discriminate. Qed.

Lemma AppendResult_eqb_neq (a b : AppendResult.t) :
  AppendResult.eqb a b = false <-> a <> b.
Proof.
  destruct a, b; simpl; split; intro H;
    try reflexivity; try discriminate; try (exfalso; apply H; reflexivity).
Qed.

(** A closing parenthesis never changes the last token, and the formula
    is not cleared by asking. *)
Lemma appendToLastToken_close (tokens : list Token) :
  Formula.appendToLastToken AppendResult.failed Token_appendClose tokens
  = (closeDirective tokens, tokens).
Proof.
  unfold closeDirective.
  destruct (array_cases tokens) as [->|(rest & t & ->)].
  - reflexivity.
  - rewrite appendToLastToken_snoc. destruct t; reflexivity.
Qed.

Lemma closeDirective_cases (tokens : list Token) :
  closeDirective tokens = AppendResult.failed
  \/ (closeDirective tokens = AppendResult.createAfter
      /\ exists rest t, tokens = rest ++ [t]
                        /\ isOpenToken t = false /\ isEqToken t = false).
Proof.
  unfold closeDirective.
  destruct (array_cases tokens) as [->|(rest & t & ->)].
  - left. reflexivity.
  - rewrite appendToLastToken_snoc.
    destruct t; simpl; auto; right; (split; [reflexivity|]);
      eexists _, _; repeat split.
Qed.

(** ** Closing a parenthesis *)

Lemma findOpen_app (l m : list Token) (n : nat) :
  n <= List.length l -> Formula.findOpen (l ++ m) n = Formula.findOpen l n.
Proof.
  induction n as [|i IH]; intro H; simpl.
  - reflexivity.
  - rewrite nth_error_app1 by lia. rewrite IH by lia. reflexivity.
Qed.

Lemma findOpen_snoc (l : list Token) (x : Token) :
  Formula.findOpen (l ++ [x]) (List.length (l ++ [x]))
  = if isOpenToken x then Some (List.length l)
    else Formula.findOpen l (List.length l).
Proof.
  rewrite length_app. simpl. rewrite Nat.add_1_r. simpl.
  rewrite nth_error_app2 by lia. rewrite Nat.sub_diag. simpl.
  rewrite findOpen_app by lia.
  destruct x; reflexivity.
Qed.

(** The backward search stops at the last Open marker of the array. *)
Lemma findOpen_spec (tokens : list Token) :
  match Formula.findOpen tokens (List.length tokens) with
  | Some i =>
      exists pre post,
        tokens = pre ++ OpenToken :: post
        /\ i = List.length pre
        /\ Forall (fun t => isOpenToken t = false) post
  | None => Forall (fun t => isOpenToken t = false) tokens
  end.
Proof.
  induction tokens as [|x l IH] using rev_ind.
  - simpl. constructor.
  - rewrite findOpen_snoc. destruct (isOpenToken x) eqn:Hx.
    + destruct x; try discriminate. exists l, []. repeat split. constructor.
    + destruct (Formula.findOpen l (List.length l)) as [i|].
      * destruct IH as (pre & post & -> & -> & Hpost).
        exists pre, (post ++ [x]). rewrite <- app_assoc. repeat split.
        apply Forall_app. split; [assumption|]. constructor; [assumption|constructor].
      * apply Forall_app. split; [assumption|]. constructor; [assumption|constructor].
Qed.

Lemma firstn_length_app {A : Type} (pre post : list A) :
  firstn (List.length pre) (pre ++ post) = pre.
Proof.
  rewrite firstn_app, Nat.sub_diag, firstn_all. simpl. apply app_nil_r.
Qed.

Lemma skipn_length_app {A : Type} (pre post : list A) (x : A) :
  skipn (List.length pre + 1) (pre ++ x :: post) = post.
Proof.
  rewrite Nat.add_1_r.
  change (pre ++ x :: post) with (pre ++ [x] ++ post).
  rewrite app_assoc.
  replace (S (List.length pre)) with (List.length (pre ++ [x]))
    by (rewrite length_app; simpl; lia).
  rewrite skipn_app, Nat.sub_diag, skipn_all. reflexivity.
Qed.

(** [appendClose] never throws; it fails without touching the array, or
    groups what follows the last Open marker. *)
Lemma appendClose_spec (tokens : list Token) :
  (Formula.appendClose tokens = Ok (false, tokens)
   /\ (closeDirective tokens = AppendResult.failed
       \/ (closeDirective tokens = AppendResult.createAfter
           /\ Forall (fun t => isOpenToken t = false) tokens)))
  \/ (exists pre post,
        tokens = pre ++ OpenToken :: post
        /\ Forall (fun t => isOpenToken t = false) post
        /\ post <> []
        /\ closeDirective tokens = AppendResult.createAfter
        /\ Formula.appendClose tokens = Ok (true, pre ++ [GroupToken post])).
Proof.
  unfold Formula.appendClose. rewrite appendToLastToken_close.
  destruct (closeDirective_cases tokens) as [Hf|(Hc & rest & t & Ht & Hopen & _)].
  - left. rewrite Hf. auto.
  - rewrite Hc. pose proof (findOpen_spec tokens) as Hs.
    destruct (Formula.findOpen tokens (List.length tokens)) as [i|].
    + right. destruct Hs as (pre & post & Htok & -> & Hpost).
      exists pre, post. repeat split; try assumption.
      * intros ->. rewrite Htok in Ht.
        change (pre ++ [OpenToken] = rest ++ [t]) in Ht.
        apply app_inj_tail in Ht. destruct Ht as [_ <-]. discriminate.
      * rewrite Htok at 1 2.
        rewrite firstn_length_app, skipn_length_app. reflexivity.
    + left. auto.
Qed.


(** C8. After a successful [appendClose] the formula ends in a Group;
    [backspace] replaces that Group by an Open marker followed by the
    Group's tokens, which is the formula before the grouping, and
    [appendClose] right after succeeds and gives the grouped formula
    again. *)
Theorem C8_backspace_undoes_close (tokens tokens' : list Token)
    (Hclose : Formula.appendClose tokens = Ok (true, tokens')) :
  (exists pre contents,
     tokens' = pre ++ [GroupToken contents]
     /\ Formula.backspace tokens' = pre ++ OpenToken :: contents)
  /\ Formula.backspace tokens' = tokens
  /\ Formula.appendClose (Formula.backspace tokens') = Ok (true, tokens').
Proof.
  destruct (appendClose_spec tokens)
    as [[Hfail _]|(pre & post & Htok & Hpost & _ & Hdir & Hok)].
  - rewrite Hfail in Hclose. discriminate.
  - rewrite Hok in Hclose. inversion Hclose; subst tokens'.
    assert (Hb : Formula.backspace (pre ++ [GroupToken post])
                 = pre ++ OpenToken :: post).
    { unfold Formula.backspace. rewrite pop_snoc. reflexivity. }
    split; [exists pre, post; auto|].
    rewrite Hb, <- Htok. auto.
Qed.

Lemma C8_backspace_undoes_close_witness :
  Formula.backspace
    [GroupToken [NumberToken_new D2; BinaryToken BinOp.add; NumberToken_new D3]]
  = [OpenToken; NumberToken_new D2; BinaryToken BinOp.add; NumberToken_new D3]
  /\ Formula.appendClose
       (Formula.backspace
          [GroupToken [NumberToken_new D2; BinaryToken BinOp.add;
                       NumberToken_new D3]])
     = Ok (true,
           [GroupToken [NumberToken_new D2; BinaryToken BinOp.add;
                        NumberToken_new D3]]).
Proof.
  apply (C8_backspace_undoes_close
           [OpenToken; NumberToken_new D2; BinaryToken BinOp.add;
            NumberToken_new D3]
           [GroupToken [NumberToken_new D2; BinaryToken BinOp.add;
                        NumberToken_new D3]]).
  reflexivity.
Defined.

(** ** Completed formulas *)

(** C3. On a formula whose last token is the Equals marker: an append
    whose directive is not [failed] empties the array before the directive
    is applied, so each of [appendDigit], [appendBinary], [appendUnary],
    [appendSymbol] and [appendOpen] gives what it gives on the empty
    formula; [appendClose] and [appendEq] get [failed] and leave the
    formula as it was. *)
Theorem C3_append_after_equals_starts_over (body : list Token) :
  let tokens := body ++ [EqToken] in
  (forall d action,
     fst (action EqToken) <> AppendResult.failed ->
     Formula.appendToLastToken d action tokens = (fst (action EqToken), []))
  /\ (forall d action,
        fst (action EqToken) = AppendResult.failed ->
        Formula.appendToLastToken d action tokens
        = (AppendResult.failed, body ++ [snd (action EqToken)]))
  /\ (forall digit,
        Formula.appendDigit digit tokens
        = Formula.handleAppendResult AppendResult.createAfter
            (NumberToken_new digit) []
        /\ Formula.appendDigit digit tokens = Formula.appendDigit digit [])
  /\ (forall op,
        Formula.appendBinary op tokens
        = Formula.handleAppendResult AppendResult.insertAnsAndCreate
            (BinaryToken op) []
        /\ Formula.appendBinary op tokens = Formula.appendBinary op [])
  /\ (forall op,
        Formula.appendUnary op tokens
        = Formula.handleAppendResult AppendResult.insertAnsAndCreate
            (UnaryToken op) []
        /\ Formula.appendUnary op tokens = Formula.appendUnary op [])
  /\ (forall op,
        Formula.appendSymbol op tokens
        = Formula.handleAppendResult AppendResult.createAfter
            (SymbolToken op) []
        /\ Formula.appendSymbol op tokens = Formula.appendSymbol op [])
  /\ (Formula.appendOpen tokens
      = Formula.handleAppendResult AppendResult.createAfter OpenToken []
      /\ Formula.appendOpen tokens = Formula.appendOpen [])
  /\ (closeDirective tokens = AppendResult.failed
      /\ Formula.appendClose tokens = Ok (false, tokens))
  /\ Formula.appendEq tokens = Ok tokens.
Proof.
  intro tokens. subst tokens.
  split.
  { intros d action H. rewrite appendToLastToken_snoc. simpl.
    apply AppendResult_eqb_neq in H. rewrite H. reflexivity. }
  split.
  { intros d action H. rewrite appendToLastToken_snoc. simpl.
    rewrite H. reflexivity. }
  unfold Formula.appendDigit, Formula.appendBinary, Formula.appendUnary,
    Formula.appendSymbol, Formula.appendOpen, Formula.appendClose,
    Formula.appendEq, closeDirective.
  rewrite !appendToLastToken_snoc, !appendToLastToken_nil.
  repeat split; intros; rewrite ?appendToLastToken_snoc; reflexivity.
Qed.

(** ** Number tokens *)

(** C6, as the claim states it, fails: on a Number, [appendSymbol] does
    not yield [createAfter] (it yields [deleteAndCreate]) and neither does
    [appendOpen] (it yields [createBefore]). *)
Lemma C6_number_symbol_open_counterexample :
  ~ (fst (Token_appendBinary BinOp.add (NumberToken false "1"))
     = AppendResult.createAfter
     /\ fst (Token_appendSymbol (NumberToken false "1"))
        = AppendResult.createAfter
     /\ fst (Token_appendOpen (NumberToken false "1"))
        = AppendResult.createAfter
     /\ fst (Token_appendClose (NumberToken false "1"))
        = AppendResult.createAfter).
Proof. intros (_ & H & _). discriminate H. Qed.

(** C6, amended. For every Number token: a digit is appended in place
    ([replaced]; a lone ["0"] is dropped before a digit other than the
    point) unless it is a second decimal point ([failed], token
    unchanged); unary negate toggles the sign in place ([replaced]); the
    other unary operators, [appendBinary] and [appendClose] yield
    [createAfter]; [appendSymbol] yields [deleteAndCreate]; [appendOpen]
    yields [createBefore]; none of the last five changes the Number. *)
Theorem C6_number_append_contract (negative : bool) (number : string) :
  let t := NumberToken negative number in
  (forall digit,
     Token_appendDigit digit t
     = if Digit_is_dot digit && test_dot number
       then (AppendResult.failed, t)
       else (AppendResult.replaced,
             NumberToken negative
               ((if negb (Digit_is_dot digit) && String.eqb number "0"
                 then EmptyString else number)
                ++ Digit_to_string digit)))
  /\ (forall op, Token_appendBinary op t = (AppendResult.createAfter, t))
  /\ Token_appendUnary UnOp.neg t
     = (AppendResult.replaced, NumberToken (negb negative) number)
  /\ Token_appendUnary UnOp.reciprocal t = (AppendResult.createAfter, t)
  /\ Token_appendUnary UnOp.sqrt t = (AppendResult.createAfter, t)
  /\ Token_appendSymbol t = (AppendResult.deleteAndCreate, t)
  /\ Token_appendOpen t = (AppendResult.createBefore, t)
  /\ Token_appendClose t = (AppendResult.createAfter, t).
Proof.
  intro t. repeat split.
  intro digit. simpl. unfold NumberToken_appendDigit.
  destruct (Digit_is_dot digit); simpl.
  - destruct (test_dot number); reflexivity.
  - reflexivity.
Qed.

Lemma string_length_append (s1 s2 : string) :
  String.length (s1 ++ s2) = String.length s1 + String.length s2.
Proof.
  induction s1 as [|c s1 IH]; simpl.
  - reflexivity.
  - rewrite IH. reflexivity.
Qed.

Lemma string_snoc_cases (s : string) :
  s = EmptyString \/ exists s' c, s = (s' ++ String c EmptyString)%string.
Proof.
  induction s as [|c s IH].
  - left. reflexivity.
  - right. destruct IH as [->|(s' & c' & ->)].
    + exists EmptyString, c. reflexivity.
    + exists (String c s'), c'. reflexivity.
Qed.

Lemma substring_drop_last (s : string) (c : ascii) :
  substring 0 (String.length s) (s ++ String c EmptyString) = s.
Proof.
  induction s as [|a s IH]; simpl.
  - reflexivity.
  - rewrite IH. reflexivity.
Qed.

(** [NumberToken.backspace] on a string of two characters or more drops
    the last character. *)
Lemma NumberToken_backspace_snoc (negative : bool) (s : string) (c : ascii) :
  s <> EmptyString ->
  NumberToken_backspace negative (s ++ String c EmptyString)
  = (false, NumberToken negative s).
Proof.
  intro Hs.
  assert (Hlen : 1 <= String.length s)
    by (destruct s; [contradiction | simpl; lia]).
  unfold NumberToken_backspace. rewrite string_length_append.
  change (String.length (String c EmptyString)) with 1.
  replace (Nat.ltb 1 (String.length s + 1)) with true
    by (symmetry; apply Nat.ltb_lt; lia).
  replace (String.length s + 1 - 1) with (String.length s) by lia.
  rewrite substring_drop_last. reflexivity.
Qed.

(** C9. On a formula ending in a Number token, [backspace] removes the
    token when its string is a single digit, and otherwise (two
    characters or more) keeps the token with its string shortened by
    exactly its last character, sign unchanged; the tokens before it are
    the same in both cases. *)
Theorem C9_backspace_on_number
    (rest : list Token) (negative : bool) (number : string) :
  let tokens := rest ++ [NumberToken negative number] in
  (String.length number = 1 -> Formula.backspace tokens = rest)
  /\ (1 < String.length number ->
      exists shorter c,
        number = (shorter ++ String c EmptyString)%string
        /\ String.length shorter = String.length number - 1
        /\ Formula.backspace tokens = rest ++ [NumberToken negative shorter])
  /\ (exists tail,
        Formula.backspace tokens = rest ++ tail
        /\ (tail = []
            \/ tail = [NumberToken negative
                         (substring 0 (String.length number - 1) number)])).
Proof.
  intro tokens. subst tokens. unfold Formula.backspace.
  rewrite pop_snoc. split; [|split].
  - intro H. unfold NumberToken_backspace. rewrite H. reflexivity.
  - intro H. destruct (string_snoc_cases number) as [->|(s & c & ->)].
    + simpl in H. lia.
    + exists s, c. rewrite string_length_append in *. simpl in *.
      assert (Hs : s <> EmptyString) by (intros ->; simpl in H; lia).
      rewrite NumberToken_backspace_snoc by assumption.
      repeat split. lia.
  - unfold NumberToken_backspace.
    destruct (Nat.ltb 1 (String.length number)).
    + eexists. split; [reflexivity|]. right. reflexivity.
    + exists []. split; [symmetry; apply app_nil_r|]. left. reflexivity.
Qed.

(** C10. Whenever [appendDigit('.')] puts a fresh Number token into the
    formula (the directive is one of the creating ones: on the empty
    formula, and after a binary operator, an Open marker, a Symbol or the
    Equals marker), that token is the last one, its string is ["0."] and
    its sign flag is [false]; a second ['.'] on it is [failed], so
    pressing the point again leaves the formula as it is. *)
Theorem C10_fresh_number_from_point (tokens : list Token)
    (Hcreates :
       creates
         (fst (Formula.appendToLastToken AppendResult.createAfter
                 (Token_appendDigit Dot) tokens)) = true) :
  NumberToken_new Dot = NumberToken false "0."
  /\ (exists rest,
        Formula.appendDigit Dot tokens = rest ++ [NumberToken false "0."])
  /\ Token_appendDigit Dot (NumberToken false "0.")
     = (AppendResult.failed, NumberToken false "0.")
  /\ Formula.appendDigit Dot (Formula.appendDigit Dot tokens)
     = Formula.appendDigit Dot tokens
  /\ (tokens = []
      \/ exists rest t,
           tokens = rest ++ [t]
           /\ match t with
              | BinaryToken _ | OpenToken | SymbolToken _ | EqToken => True
              | _ => False
              end).
Proof.
  assert (Hagain : forall rest,
             Formula.appendDigit Dot (rest ++ [NumberToken false "0."])
             = rest ++ [NumberToken false "0."]).
  { intro rest. unfold Formula.appendDigit.
    rewrite appendToLastToken_snoc. reflexivity. }
  assert (Hmain : exists rest,
             Formula.appendDigit Dot tokens = rest ++ [NumberToken false "0."]
             /\ (tokens = []
                 \/ exists rest t,
                      tokens = rest ++ [t]
                      /\ match t with
                         | BinaryToken _ | OpenToken | SymbolToken _
                         | EqToken => True
                         | _ => False
                         end)).
  { destruct (array_cases tokens) as [->|(rest & t & ->)].
    - exists []. split; [reflexivity|]. left. reflexivity.
    - unfold Formula.appendDigit. rewrite appendToLastToken_snoc in *.
      destruct t as [negative number|op|op|inner|op| |]; simpl in *;
        try discriminate.
      + unfold NumberToken_appendDigit in Hcreates. simpl in Hcreates.
        destruct (test_dot number); discriminate.
      + exists (rest ++ [BinaryToken op]). split; [reflexivity|].
        right. exists rest, (BinaryToken op). auto.
      + exists rest. rewrite pop_snoc. split; [reflexivity|].
        right. exists rest, (SymbolToken op). auto.
      + exists (rest ++ [OpenToken]). split; [reflexivity|].
        right. exists rest, OpenToken. auto.
      + exists []. split; [reflexivity|].
        right. exists rest, EqToken. auto. }
  destruct Hmain as (rest & Happ & Hshape).
  split; [reflexivity|].
  split; [exists rest; assumption|].
  split; [reflexivity|].
  split; [rewrite Happ; apply Hagain | assumption].
Qed.

Lemma C10_fresh_number_from_point_witness :
  Formula.appendDigit Dot
    (Formula.appendDigit Dot [NumberToken_new D2; BinaryToken BinOp.add])
  = Formula.appendDigit Dot [NumberToken_new D2; BinaryToken BinOp.add].
Proof.
  apply (C10_fresh_number_from_point
           [NumberToken_new D2; BinaryToken BinOp.add]).
  reflexivity.
Defined.

(** ** The invariant of editing sessions *)

Lemma firstIsBinary_app (rest l : list Token) :
  firstIsBinary (rest ++ l)
  = match rest with
    | [] => firstIsBinary l
    | _ :: _ => firstIsBinary rest
    end.
Proof. destruct rest as [|x rest]; reflexivity. Qed.

Lemma firstIsBinary_prefix (rest l1 l2 : list Token) :
  rest <> [] -> firstIsBinary (rest ++ l1) = firstIsBinary (rest ++ l2).
Proof. destruct rest; [contradiction | reflexivity]. Qed.

Lemma Digit_to_string_length (d : Digit) :
  String.length (Digit_to_string d) = 1.
Proof. destruct d; reflexivity. Qed.

Lemma wellFormed_appendDigit (digit : Digit) (t : Token) :
  wellFormed t = true -> wellFormed (snd (Token_appendDigit digit t)) = true.
Proof.
  destruct t as [negative number|op|op|inner|op| |]; simpl; try tauto.
  intros _. unfold NumberToken_appendDigit.
  destruct (Digit_is_dot digit); [destruct (test_dot number) eqn:E|]; simpl.
  - destruct number; [discriminate|reflexivity].
  - rewrite string_length_append, Digit_to_string_length.
    apply Nat.ltb_lt. lia.
  - rewrite string_length_append, Digit_to_string_length.
    apply Nat.ltb_lt. lia.
Qed.

Lemma wellFormed_NumberToken_new (digit : Digit) :
  wellFormed (NumberToken_new digit) = true.
Proof. destruct digit; reflexivity. Qed.

Lemma existsb_isOpenToken_false (l : list Token) :
  Forall (fun t => isOpenToken t = false) l -> existsb isOpenToken l = false.
Proof.
  induction 1 as [|x l Hx _ IH]; simpl.
  - reflexivity.
  - rewrite Hx, IH. reflexivity.
Qed.

Lemma closeDirective_app (pre post : list Token) :
  post <> [] -> closeDirective (pre ++ post) = closeDirective post.
Proof.
  intro Hne. destruct (array_cases post) as [->|(p & x & ->)].
  - contradiction.
  - unfold closeDirective. rewrite app_assoc, !appendToLastToken_snoc.
    reflexivity.
Qed.

(** A successful [appendClose] shortens the array; in every case it keeps
    well-formed tokens, a non-binary first token, and a non-empty array
    non-empty. *)
Lemma appendClose_invariant (tokens tokens' : list Token) (closed : bool) :
  Formula.appendClose tokens = Ok (closed, tokens') ->
  (closed = true -> List.length tokens' < List.length tokens)
  /\ (closed = false -> tokens' = tokens)
  /\ (tokens <> [] -> tokens' <> [])
  /\ (firstIsBinary tokens = false -> firstIsBinary tokens' = false)
  /\ (forallb wellFormed tokens = true -> forallb wellFormed tokens' = true).
Proof.
  intro H.
  destruct (appendClose_spec tokens)
    as [[Hfail _]|(pre & post & Htok & Hpost & Hne & Hdir & Hok)].
  - rewrite Hfail in H. inversion H; subst.
    repeat split; auto. intro; discriminate.
  - rewrite Hok in H. inversion H; subst. clear H.
    split; [|split; [|split; [|split]]].
    + intros _. rewrite !length_app. simpl.
      destruct post; [contradiction | simpl; lia].
    + intro; discriminate.
    + intros _ E. destruct pre; discriminate.
    + rewrite !firstIsBinary_app. destruct pre; [reflexivity|auto].
    + rewrite !forallb_app. simpl. intro Hwf.
      apply andb_prop in Hwf. destruct Hwf as [Hpre Hwf]. rewrite Hpre, Hwf.
      rewrite (existsb_isOpenToken_false post Hpost).
      change (pre ++ OpenToken :: post) with (pre ++ [OpenToken] ++ post) in Hdir.
      rewrite app_assoc, closeDirective_app in Hdir by assumption.
      rewrite Hdir. reflexivity.
Qed.

(** The loop of [appendEq] ends within [length tokens + 1] calls. *)
Lemma closeAll_returns (fuel : nat) (tokens : list Token) :
  List.length tokens < fuel ->
  exists tokens',
    Formula.closeAll fuel tokens = Ok tokens'
    /\ Formula.appendClose tokens' = Ok (false, tokens')
    /\ (tokens <> [] -> tokens' <> [])
    /\ (firstIsBinary tokens = false -> firstIsBinary tokens' = false)
    /\ (forallb wellFormed tokens = true -> forallb wellFormed tokens' = true).
Proof.
  revert tokens. induction fuel as [|fuel IH]; intros tokens Hlen.
  - lia.
  - simpl.
    destruct (appendClose_spec tokens)
      as [[Hfail _]|(pre & post & Htok & Hpost & Hne & Hdir & Hok)].
    + rewrite Hfail. simpl. exists tokens. auto.
    + rewrite Hok. simpl.
      destruct (appendClose_invariant _ _ _ Hok)
        as (Hshort & _ & Hnonempty & Hfirst & Hwf).
      destruct (IH (pre ++ [GroupToken post])) as (tokens' & Hrun & Hstop & H1 & H2 & H3).
      { specialize (Hshort eq_refl). lia. }
      exists tokens'. repeat split; auto.
Qed.

Lemma appendEq_spec (tokens : list Token) :
  (closeDirective tokens <> AppendResult.createAfter
   /\ Formula.appendEq tokens = Ok tokens)
  \/ (closeDirective tokens = AppendResult.createAfter
      /\ exists closed,
           Formula.appendEq tokens = Ok (closed ++ [EqToken])
           /\ closed <> []
           /\ (firstIsBinary tokens = false -> firstIsBinary closed = false)
           /\ (forallb wellFormed tokens = true ->
               forallb wellFormed closed = true)).
Proof.
  unfold Formula.appendEq. rewrite appendToLastToken_close.
  destruct (closeDirective_cases tokens) as [Hf|(Hc & rest & t & Ht & _)].
  - left. rewrite Hf. split; [discriminate|reflexivity].
  - right. rewrite Hc. split; [reflexivity|].
    cbn [AppendResult.eqb negb].
    destruct (closeAll_returns (S (List.length tokens)) tokens)
      as (closed & Hrun & _ & Hne & Hfirst & Hwf); [lia|].
    rewrite Hrun. simpl. exists closed. repeat split; auto.
    apply Hne. rewrite Ht. destruct rest; discriminate.
Qed.

Lemma formulaInvariant_clean (tokens : list Token) :
  firstIsBinary tokens = false ->
  forallb wellFormed tokens = true ->
  formulaInvariant tokens.
Proof. intros H1 H2. split; [assumption | left; assumption]. Qed.

Ltac split_wf :=
  repeat match goal with
         | H : (_ && _)%bool = true |- _ =>
             apply andb_prop in H; destruct H
         end.

Ltac solve_clean :=
  rewrite <- ?app_assoc; cbn [app];
  apply formulaInvariant_clean;
  [ rewrite ?firstIsBinary_app in *;
    repeat match goal with
           | |- context [match ?l with [] => _ | _ :: _ => _ end] =>
               destruct l; simpl in *
           | H : context [match ?l with [] => _ | _ :: _ => _ end] |- _ =>
               destruct l; simpl in *
           end;
    try reflexivity; try assumption; try discriminate
  | rewrite ?forallb_app in *; simpl in *; split_wf;
    repeat (apply andb_true_intro; split);
    try reflexivity; try assumption;
    try apply wellFormed_NumberToken_new ].

Lemma NumberToken_appendDigit_shape (negative : bool) (number : string)
    (digit : Digit) :
  exists r number',
    NumberToken_appendDigit negative number digit
    = (r, NumberToken negative number')
    /\ (r = AppendResult.failed \/ r = AppendResult.replaced)
    /\ wellFormed (NumberToken negative number') = true.
Proof.
  pose proof (wellFormed_appendDigit digit (NumberToken negative number)) as Hd.
  unfold NumberToken_appendDigit in *. simpl in Hd.
  unfold NumberToken_appendDigit in Hd.
  destruct (Digit_is_dot digit); [destruct (test_dot number) eqn:E|].
  - eexists _, _. split; [reflexivity|]. split; [auto|].
    simpl. destruct number; [discriminate|reflexivity].
  - eexists _, _. split; [reflexivity|]. split; [auto|].
    simpl. rewrite string_length_append, Digit_to_string_length.
    apply Nat.ltb_lt. lia.
  - eexists _, _. split; [reflexivity|]. split; [auto|].
    simpl. rewrite string_length_append, Digit_to_string_length.
    apply Nat.ltb_lt. lia.
Qed.

Lemma press_clean (a : Action) (tokens tokens' : list Token) :
  firstIsBinary tokens = false ->
  forallb wellFormed tokens = true ->
  press a tokens = Ok tokens' ->
  formulaInvariant tokens'.
Proof.
  intros Hfirst Hwf Hpress.
  destruct (array_cases tokens) as [->|(rest & t & ->)].
  - destruct a; cbn in Hpress; inversion Hpress; subst; solve_clean.
  - rewrite forallb_app in Hwf. simpl in Hwf. split_wf.
    destruct a; simpl in Hpress.
    + (* digit *)
      inversion Hpress; subst; clear Hpress.
      unfold Formula.appendDigit. rewrite appendToLastToken_snoc.
      destruct t as [negative number|op|op|inner|op| |];
        try discriminate.
      * simpl Token_appendDigit.
        destruct (NumberToken_appendDigit_shape negative number digit)
          as (r & number' & -> & [-> | ->] & Hn); simpl; solve_clean.
      * simpl; rewrite ?pop_snoc; solve_clean.
      * simpl; rewrite ?pop_snoc; solve_clean.
      * simpl; rewrite ?pop_snoc; solve_clean.
      * simpl; rewrite ?pop_snoc; solve_clean.
      * simpl; rewrite ?pop_snoc; solve_clean.
    + (* binary *)
      inversion Hpress; subst; clear Hpress.
      unfold Formula.appendBinary. rewrite appendToLastToken_snoc.
      destruct t as [negative number|op0|op0|inner|op0| |];
        try discriminate; simpl; rewrite ?pop_snoc; solve_clean.
    + (* unary *)
      inversion Hpress; subst; clear Hpress.
      unfold Formula.appendUnary. rewrite appendToLastToken_snoc.
      destruct t as [negative number|op0|op0|inner|op0| |];
        try discriminate; simpl; rewrite ?pop_snoc.
      all: try solve [solve_clean].
      * unfold NumberToken_appendUnary. destruct op; simpl; solve_clean.
      * unfold UnaryToken_appendUnary.
        destruct op, op0; simpl; rewrite ?removelast_last; solve_clean.
    + (* symbol *)
      inversion Hpress; subst; clear Hpress.
      unfold Formula.appendSymbol. rewrite appendToLastToken_snoc.
      destruct t as [negative number|op0|op0|inner|op0| |];
        try discriminate; simpl; rewrite ?pop_snoc; solve_clean.
    + (* open *)
      inversion Hpress; subst; clear Hpress.
      unfold Formula.appendOpen. rewrite appendToLastToken_snoc.
      destruct t as [negative number|op0|op0|inner|op0| |];
        try discriminate; simpl; rewrite ?pop_snoc; solve_clean.
    + (* close *)
      destruct (Formula.appendClose (rest ++ [t])) as [[closed tokens1]|e] eqn:E;
        simpl in Hpress; inversion Hpress; subst; clear Hpress.
      destruct (appendClose_invariant _ _ _ E) as (_ & _ & _ & Hf & Hw).
      apply formulaInvariant_clean.
      * apply Hf, Hfirst.
      * apply Hw. rewrite forallb_app. simpl. rewrite H, H0. reflexivity.
    + (* backspace *)
      inversion Hpress; subst; clear Hpress.
      unfold Formula.backspace. rewrite pop_snoc.
      destruct t as [negative number|op0|op0|inner|op0| |];
        try discriminate; try solve [solve_clean].
      destruct (string_snoc_cases number) as [->|(s0 & c & ->)];
        [discriminate|].
      destruct s0 as [|c0 s0].
      * simpl. solve_clean.
      * rewrite NumberToken_backspace_snoc by discriminate. solve_clean.
    + (* eq *)
      destruct (appendEq_spec (rest ++ [t]))
        as [[_ Hsame]|(_ & closed & Hrun & Hne & Hf & Hw)].
      * rewrite Hsame in Hpress. inversion Hpress; subst.
        apply formulaInvariant_clean; [assumption|].
        rewrite forallb_app. simpl. rewrite H, H0. reflexivity.
      * rewrite Hrun in Hpress. inversion Hpress; subst.
        split.
        -- rewrite firstIsBinary_app. destruct closed; [contradiction|].
           apply Hf, Hfirst.
        -- right. exists closed. repeat split; [assumption|].
           apply Hw. rewrite forallb_app. simpl. rewrite H, H0. reflexivity.
Qed.

(** Each button keeps the invariant when the formula is completed. *)
Lemma press_completed (a : Action) (body tokens' : list Token) :
  body <> [] ->
  firstIsBinary body = false ->
  forallb wellFormed body = true ->
  press a (body ++ [EqToken]) = Ok tokens' ->
  formulaInvariant tokens'.
Proof.
  intros Hne Hfirst Hwf Hpress.
  assert (Hsame : formulaInvariant (body ++ [EqToken])).
  { split.
    - rewrite firstIsBinary_app. destruct body; [contradiction|assumption].
    - right. exists body. auto. }
  destruct a; simpl in Hpress.
  - inversion Hpress; subst. unfold Formula.appendDigit.
    rewrite appendToLastToken_snoc. simpl. solve_clean.
  - inversion Hpress; subst. unfold Formula.appendBinary.
    rewrite appendToLastToken_snoc. simpl. solve_clean.
  - inversion Hpress; subst. unfold Formula.appendUnary.
    rewrite appendToLastToken_snoc. simpl. solve_clean.
  - inversion Hpress; subst. unfold Formula.appendSymbol.
    rewrite appendToLastToken_snoc. simpl. solve_clean.
  - inversion Hpress; subst. unfold Formula.appendOpen.
    rewrite appendToLastToken_snoc. simpl. solve_clean.
  - unfold Formula.appendClose in Hpress.
    rewrite appendToLastToken_snoc in Hpress. simpl in Hpress.
    inversion Hpress; subst. assumption.
  - inversion Hpress; subst. unfold Formula.backspace. rewrite pop_snoc.
    solve_clean.
  - unfold Formula.appendEq in Hpress.
    rewrite appendToLastToken_snoc in Hpress. simpl in Hpress.
    inversion Hpress; subst. assumption.
Qed.

Lemma press_invariant (a : Action) (tokens tokens' : list Token) :
  formulaInvariant tokens ->
  press a tokens = Ok tokens' ->
  formulaInvariant tokens'.
Proof.
  intros [Hfirst [Hwf|(body & -> & Hne & Hwf)]] Hpress.
  - eapply press_clean; eassumption.
  - eapply press_completed; try eassumption.
    rewrite firstIsBinary_app in Hfirst.
    destruct body; [contradiction|assumption].
Qed.

(** No button throws, and the loop of [appendEq] ends. *)
Lemma press_returns (a : Action) (tokens : list Token) :
  exists tokens', press a tokens = Ok tokens'.
Proof.
  destruct a; simpl; try (eexists; reflexivity).
  - destruct (appendClose_spec tokens) as [[H _]|(pre & post & _ & _ & _ & _ & H)];
      rewrite H; simpl; eexists; reflexivity.
  - destruct (appendEq_spec tokens) as [[_ H]|(_ & closed & H & _)];
      rewrite H; eexists; reflexivity.
Qed.

Lemma session_returns (actions : list Action) (tokens : list Token) :
  exists tokens', session actions tokens = Ok tokens'.
Proof.
  revert tokens. induction actions as [|a actions IH]; intro tokens; simpl.
  - eexists; reflexivity.
  - destruct (press_returns a tokens) as [tokens1 ->]. simpl. apply IH.
Qed.

Lemma session_invariant (actions : list Action) (tokens tokens' : list Token) :
  formulaInvariant tokens ->
  session actions tokens = Ok tokens' ->
  formulaInvariant tokens'.
Proof.
  revert tokens. induction actions as [|a actions IH]; intros tokens Hinv H;
    simpl in H.
  - inversion H; subst. assumption.
  - destruct (press a tokens) as [tokens1|e] eqn:E; simpl in H;
      [|discriminate].
    eapply IH; [|eassumption]. eapply press_invariant; eassumption.
Qed.

Lemma formulaInvariant_nil : formulaInvariant [].
Proof. split; [reflexivity | left; reflexivity]. Qed.

(** A well-formed token holds no Equals marker. *)
Lemma wellFormed_countEq (t : Token) : wellFormed t = true -> countEq t = 0.
Proof.
  induction t as [negative number|op|op|inner IH|op| |]
    using Token_nested_ind; simpl; intro H; try reflexivity; try discriminate.
  apply andb_prop in H. destruct H as [H _].
  apply andb_prop in H. destruct H as [H _].
  induction IH as [|x l Hx _ IHl]; simpl in *.
  - reflexivity.
  - apply andb_prop in H. destruct H as [H1 H2].
    rewrite (Hx H1), (IHl H2). reflexivity.
Qed.

Lemma wellFormed_countEqs (tokens : list Token) :
  forallb wellFormed tokens = true -> countEqs tokens = 0.
Proof.
  unfold countEqs. induction tokens as [|x l IH]; simpl; intro H.
  - reflexivity.
  - apply andb_prop in H. destruct H as [H1 H2].
    rewrite (wellFormed_countEq x H1), (IH H2). reflexivity.
Qed.

Lemma countEqs_app (l1 l2 : list Token) :
  countEqs (l1 ++ l2) = countEqs l1 + countEqs l2.
Proof. unfold countEqs. rewrite map_app, list_sum_app. reflexivity. Qed.

Lemma isComplete_spec (tokens : list Token) :
  Formula.isComplete tokens = true <-> exists body, tokens = body ++ [EqToken].
Proof.
  unfold Formula.isComplete. split.
  - intro H. apply andb_prop in H. destruct H as [_ H].
    destruct (pop tokens) as [[body t]|] eqn:E; [|discriminate].
    destruct t; try discriminate. exists body. apply pop_snoc_inv, E.
  - intros [body ->]. rewrite pop_snoc, length_app. simpl.
    rewrite Nat.add_1_r. reflexivity.
Qed.

(** C4. In every formula reached from the empty one by the editing
    buttons (digits, operators, symbol, parentheses, backspace, equals),
    there is at most one Equals marker at any depth; when there is one it
    is the last token of the top-level array, with none inside any Group;
    and [isComplete()] is [true] exactly when the array is non-empty with
    an Equals marker last. *)
Theorem C4_equals_marker_only_last
    (actions : list Action) (tokens : list Token)
    (Hreach : session actions [] = Ok tokens) :
  countEqs tokens <= 1
  /\ (countEqs tokens = 1 ->
      exists body, tokens = body ++ [EqToken] /\ countEqs body = 0)
  /\ (forall pre t post,
        tokens = pre ++ t :: post -> countEq t <> 0 ->
        t = EqToken /\ post = [])
  /\ (Formula.isComplete tokens = true
      <-> tokens <> [] /\ last tokens OpenToken = EqToken)
  /\ (Formula.isComplete tokens = true <-> countEqs tokens = 1).
Proof.
  pose proof (session_invariant actions [] tokens formulaInvariant_nil Hreach)
    as [_ Hinv].
  assert (Hlast : Formula.isComplete tokens = true
                  <-> tokens <> [] /\ last tokens OpenToken = EqToken).
  { rewrite isComplete_spec. split.
    - intros [body ->]. split; [destruct body; discriminate|].
      apply last_last.
    - intros [Hne Hl]. destruct (array_cases tokens) as [->|(body & t & ->)].
      + contradiction.
      + rewrite last_last in Hl. subst. exists body. reflexivity. }
  destruct Hinv as [Hwf|(body & -> & Hne & Hwf)].
  - pose proof (wellFormed_countEqs tokens Hwf) as H0.
    split; [lia|]. split; [lia|]. split.
    + intros pre t post -> Hc. exfalso. apply Hc.
      rewrite forallb_app in Hwf. simpl in Hwf.
      apply andb_prop in Hwf. destruct Hwf as [_ Hwf].
      apply andb_prop in Hwf. destruct Hwf as [Hwf _].
      apply wellFormed_countEq, Hwf.
    + split; [assumption|]. rewrite isComplete_spec. split.
      * intros [body ->]. rewrite forallb_app in Hwf. simpl in Hwf.
        apply andb_prop in Hwf. destruct Hwf as [_ Hwf]. discriminate.
      * lia.
  - pose proof (wellFormed_countEqs body Hwf) as H0.
    assert (H1 : countEqs (body ++ [EqToken]) = 1)
      by (rewrite countEqs_app, H0; reflexivity).
    split; [lia|]. split; [intros _; exists body; auto|]. split.
    + intros pre t post Heq Hc.
      destruct (array_cases post) as [->|(post' & x & ->)].
      * change (body ++ [EqToken] = pre ++ [t]) in Heq.
        apply app_inj_tail in Heq. destruct Heq as [_ <-]. auto.
      * exfalso. apply Hc.
        change (body ++ [EqToken] = pre ++ (t :: post') ++ [x]) in Heq.
        rewrite app_assoc in Heq. apply app_inj_tail in Heq.
        destruct Heq as [-> _].
        rewrite forallb_app in Hwf. simpl in Hwf.
        apply andb_prop in Hwf. destruct Hwf as [_ Hwf].
        apply andb_prop in Hwf. destruct Hwf as [Hwf _].
        apply wellFormed_countEq, Hwf.
    + split; [assumption|]. rewrite isComplete_spec. split; [auto|].
      intros _. exists body. reflexivity.
Qed.

Lemma C4_equals_marker_only_last_witness :
  countEqs [NumberToken_new D2; BinaryToken BinOp.add; NumberToken_new D3;
            EqToken] <= 1.
Proof.
  apply (C4_equals_marker_only_last
           [PressDigit D2; PressBinary BinOp.add; PressDigit D3; PressEq]
           [NumberToken_new D2; BinaryToken BinOp.add; NumberToken_new D3;
            EqToken]).
  reflexivity.
Defined.

(** ** The preview window *)

Lemma partial_inner_returns (tokens : list Token) (prec : Precedence.t)
    (start : nat) :
  start <= List.length tokens ->
  exists broke start',
    Formula.partial_inner tokens prec start = Ok (broke, start')
    /\ start' <= start
    /\ (broke = false -> start' = 0).
Proof.
  induction start as [|start IH]; intro Hlen; simpl.
  - exists false, 0. auto.
  - destruct (nth_error tokens start) as [token|] eqn:E.
    + destruct (Precedence.ltb (precedence token) prec).
      * exists true, (S start). repeat split; auto. intro; discriminate.
      * destruct IH as (broke & start' & -> & Hle & Hz); [lia|].
        exists broke, start'. repeat split; auto.
    + apply nth_error_None in E. lia.
Qed.

Lemma partial_loop_unfold (fuel : nat) (tokens : list Token) (start end_ : Z) :
  Formula.partial_loop fuel tokens start end_
  = if (start <? 0)%Z then Ok (start, end_)
    else
      match fuel with
      | O => Err OutOfFuel
      | S fuel' =>
          match nth_error tokens (Z.to_nat start) with
          | None => Err (Thrown "TypeError")
          | Some token =>
              let prec := precedence token in
              match prec with
              | Precedence.symbol => Ok (start, end_)
              | Precedence.eq => Ok (0, end_ - 1)%Z
              | Precedence.unary =>
                  Formula.partial_loop fuel' tokens (start - 1)%Z end_
              | Precedence.open =>
                  Formula.partial_loop fuel' tokens (start - 1)%Z (end_ - 1)%Z
              | _ =>
                  r <- Formula.partial_inner tokens prec (Z.to_nat start) ;;
                  let '(broke, start') := r in
                  if broke : bool then Ok (Z.of_nat start', end_ - 1)%Z
                  else Formula.partial_loop fuel' tokens (Z.of_nat start')
                         (end_ - 1)%Z
              end
          end
      end.
Proof. destruct fuel; reflexivity. Qed.

(** The loop only lowers [end], and leaves with [start >= -1]. *)
Lemma partial_loop_bounds (fuel : nat) (tokens : list Token)
    (start end_ start' end' : Z) :
  (-1 <= start)%Z ->
  Formula.partial_loop fuel tokens start end_ = Ok (start', end') ->
  (end' <= end_)%Z /\ (-1 <= start')%Z.
Proof.
  revert start end_. induction fuel as [|fuel IH]; intros start end_ Hs H;
    rewrite partial_loop_unfold in H;
    destruct (start <? 0)%Z eqn:Hneg;
    try (inversion H; subst; lia); try discriminate.
  destruct (nth_error tokens (Z.to_nat start)) as [token|]; [|discriminate].
  apply Z.ltb_ge in Hneg. cbv zeta in H.
  destruct (precedence token);
    try (inversion H; subst; lia);
    try (apply IH in H; lia);
    (destruct (Formula.partial_inner tokens _ (Z.to_nat start))
       as [[broke s1]|e]; simpl in H; [|discriminate];
     destruct broke; [inversion H; subst; lia | apply IH in H; lia]).
Qed.

(** On an array that does not start with a binary operator the loop ends
    within [start + 1] turns. *)
Lemma partial_loop_returns (fuel : nat) (tokens : list Token) (start end_ : Z) :
  firstIsBinary tokens = false ->
  (-1 <= start < Z.of_nat (List.length tokens))%Z ->
  (start + 1 <= Z.of_nat fuel)%Z ->
  exists r, Formula.partial_loop fuel tokens start end_ = Ok r.
Proof.
  intro Hfirst. revert start end_.
  induction fuel as [|fuel IH]; intros start end_ Hs Hfuel;
    rewrite partial_loop_unfold;
    destruct (start <? 0)%Z eqn:Hneg; try (eexists; reflexivity).
  - apply Z.ltb_ge in Hneg. lia.
  - apply Z.ltb_ge in Hneg.
    destruct (nth_error tokens (Z.to_nat start)) as [token|] eqn:E.
    2:{ apply nth_error_None in E. lia. }
    assert (Hbin : forall op, token = BinaryToken op -> (1 <= start)%Z).
    { intros op ->. destruct (Z.eq_dec start 0) as [->|]; [|lia].
      simpl in E. destruct tokens as [|x l]; [discriminate|].
      inversion E; subst. discriminate. }
    assert (Hinner : forall prec,
               (1 <= start)%Z ->
               exists r,
                 (r0 <- Formula.partial_inner tokens prec (Z.to_nat start) ;;
                  let '(broke, start') := r0 in
                  if broke : bool then Ok (Z.of_nat start', end_ - 1)%Z
                  else Formula.partial_loop fuel tokens (Z.of_nat start')
                         (end_ - 1)%Z) = Ok r).
    { intros prec H1.
      destruct (partial_inner_returns tokens prec (Z.to_nat start))
        as (broke & s1 & -> & Hle & Hz); [lia|]. simpl.
      destruct broke; [eexists; reflexivity|].
      rewrite (Hz eq_refl). apply IH; simpl; lia. }
    destruct token as [negative number|op|op|inner|op| |]; simpl;
      try (eexists; reflexivity);
      try (apply IH; lia).
    destruct op; simpl; apply Hinner; apply (Hbin _ eq_refl).
Qed.

(** A binary operator at index 0 is looked at again and again. *)
Lemma partial_loop_diverges (fuel : nat) (op : BinOp.t) (rest : list Token)
    (end_ : Z) :
  Formula.partial_loop fuel (BinaryToken op :: rest) 0 end_ = Err OutOfFuel.
Proof.
  revert end_. induction fuel as [|fuel IH]; intro end_.
  - reflexivity.
  - rewrite partial_loop_unfold. simpl.
    destruct op; simpl; apply IH.
Qed.

Lemma partial_fuel_nonempty (fuel : nat) (tokens window : list Token) :
  Formula.partial_fuel fuel tokens = Ok window -> window <> [].
Proof.
  unfold Formula.partial_fuel, Formula.partial_window.
  destruct (Formula.partial_loop fuel tokens
              (Z.of_nat (List.length tokens) - 1)
              (Z.of_nat (List.length tokens))) as [[s e]|err] eqn:E;
    simpl; [|discriminate].
  apply partial_loop_bounds in E; [|lia]. destruct E as [He Hs].
  set (start := if (s <? 0)%Z then 0%Z else s).
  assert (Hstart : (0 <= start)%Z).
  { subst start. destruct (s <? 0)%Z eqn:N; [lia|]. apply Z.ltb_ge in N. lia. }
  destruct (start >=? e)%Z eqn:G; intro H; inversion H; subst; clear H.
  - discriminate.
  - intro Hnil. apply (f_equal (@List.length Token)) in Hnil.
    rewrite length_firstn, length_skipn in Hnil. simpl in Hnil.
    rewrite Z.geb_leb in G. apply Z.leb_gt in G. lia.
Qed.

Lemma partial_completed (body : list Token) :
  body <> [] -> Formula.partial (body ++ [EqToken]) = Ok body.
Proof.
  intro Hne.
  unfold Formula.partial, Formula.partial_fuel, Formula.partial_window.
  rewrite partial_loop_unfold, length_app. simpl List.length.
  replace (Z.of_nat (List.length body + 1) - 1)%Z
    with (Z.of_nat (List.length body)) by lia.
  replace (Z.of_nat (List.length body) <? 0)%Z with false
    by (symmetry; apply Z.ltb_ge; lia).
  rewrite Nat2Z.id. rewrite nth_error_app2 by lia.
  rewrite Nat.sub_diag. simpl.
  assert (Hlen : 0 < List.length body) by (destruct body; [contradiction|simpl; lia]).
  replace (0 >=? Z.of_nat (List.length body))%Z with false
    by (symmetry; rewrite Z.geb_leb; apply Z.leb_gt; lia).
  rewrite Nat2Z.id, Nat.sub_0_r.
  rewrite firstn_app, Nat.sub_diag, firstn_all. simpl.
  rewrite app_nil_r. reflexivity.
Qed.

Lemma partial_loop_opens (n k fuel : nat) (end_ : Z) :
  k <= n -> k <= fuel ->
  Formula.partial_loop fuel (repeat OpenToken n) (Z.of_nat k - 1) end_
  = Ok (-1, end_ - Z.of_nat k)%Z.
Proof.
  revert fuel end_. induction k as [|k IH]; intros fuel end_ Hn Hf;
    rewrite partial_loop_unfold.
  - simpl. rewrite Z.sub_0_r. reflexivity.
  - replace (Z.of_nat (S k) - 1 <? 0)%Z with false
      by (symmetry; apply Z.ltb_ge; lia).
    destruct fuel as [|fuel]; [lia|].
    replace (Z.to_nat (Z.of_nat (S k) - 1)) with k by lia.
    rewrite nth_error_repeat by lia. cbv zeta. cbn [precedence].
    replace (Z.of_nat (S k) - 1 - 1)%Z with (Z.of_nat k - 1)%Z by lia.
    rewrite IH by lia. f_equal. f_equal. lia.
Qed.

Lemma partial_opens (n : nat) :
  Formula.partial (repeat OpenToken n) = Ok [NumberToken false "0"].
Proof.
  unfold Formula.partial, Formula.partial_fuel, Formula.partial_window.
  rewrite repeat_length, partial_loop_opens by lia. simpl.
  replace (0 >=? Z.of_nat n - Z.of_nat n)%Z with true
    by (symmetry; rewrite Z.geb_leb; apply Z.leb_le; lia).
  reflexivity.
Qed.

(** The array that holds only the Equals marker has an empty window; no
    editing session produces it. *)
Lemma partial_lone_equals :
  Formula.partial [EqToken] = Ok [NumberToken false "0"].
Proof. reflexivity. Qed.

(** C5. For every formula of an editing session: when its last token is
    the Equals marker, [partial()] returns the whole array without that
    marker; [partial()] returns, and what it returns is never empty;
    whenever the window comes out empty ([start >= end]) it returns the
    single Number token ["0"], which evaluates to 0 - in particular for
    the empty formula and for a formula of Open markers only. For any
    array at all, what [partial()] returns is not empty, and an array with
    something before a final Equals marker gives that something. *)
Theorem C5_partial_preview
    (actions : list Action) (tokens : list Token)
    (Hreach : session actions [] = Ok tokens) :
  (Formula.isComplete tokens = true ->
   removelast tokens <> []
   /\ Formula.partial tokens = Ok (removelast tokens))
  /\ (exists window, Formula.partial tokens = Ok window /\ window <> [])
  /\ (forall start end_,
        Formula.partial_window (S (List.length tokens)) tokens
        = Ok (start, end_) ->
        (start >= end_)%Z ->
        Formula.partial tokens = Ok [NumberToken false "0"])
  /\ (forall Math env args,
        evaluate Math env (NumberToken false "0") args = Ok (Num 0))
  /\ Formula.partial [] = Ok [NumberToken false "0"]
  /\ (forall n,
        Formula.partial (repeat OpenToken n) = Ok [NumberToken false "0"])
  /\ (forall fuel any window,
        Formula.partial_fuel fuel any = Ok window -> window <> [])
  /\ (forall body,
        body <> [] -> Formula.partial (body ++ [EqToken]) = Ok body).
Proof.
  pose proof (session_invariant actions [] tokens formulaInvariant_nil Hreach)
    as [Hfirst Hinv].
  split; [|split; [|split; [|split; [|split; [|split; [|split]]]]]].
  - intro Hc. apply isComplete_spec in Hc. destruct Hc as [body ->].
    rewrite removelast_last.
    destruct Hinv as [Hwf|(body' & Heq & Hne & _)].
    + rewrite forallb_app in Hwf. simpl in Hwf.
      apply andb_prop in Hwf. destruct Hwf as [_ Hwf]. discriminate.
    + apply app_inj_tail in Heq. destruct Heq as [-> _].
      split; [assumption|]. apply partial_completed, Hne.
  - destruct (partial_loop_returns (S (List.length tokens)) tokens
                (Z.of_nat (List.length tokens) - 1)
                (Z.of_nat (List.length tokens)) Hfirst) as [[s e] Hloop];
      [lia|lia|].
    assert (Hret : exists window, Formula.partial tokens = Ok window).
    { unfold Formula.partial, Formula.partial_fuel, Formula.partial_window.
      rewrite Hloop. simpl.
      destruct ((if (s <? 0)%Z then 0%Z else s) >=? e)%Z;
        eexists; reflexivity. }
    destruct Hret as [window Hw]. exists window. split; [assumption|].
    eapply partial_fuel_nonempty. exact Hw.
  - intros start end_ Hwin Hge. unfold Formula.partial, Formula.partial_fuel.
    rewrite Hwin. simpl.
    replace (start >=? end_)%Z with true
      by (symmetry; rewrite Z.geb_leb; apply Z.leb_le; lia).
    reflexivity.
  - reflexivity.
  - reflexivity.
  - apply partial_opens.
  - apply partial_fuel_nonempty.
  - apply partial_completed.
Qed.

Lemma C5_partial_preview_witness :
  exists window,
    Formula.partial [NumberToken_new D2; BinaryToken BinOp.add;
                     NumberToken_new D3; EqToken] = Ok window
    /\ window <> [].
Proof.
  apply (C5_partial_preview
           [PressDigit D2; PressBinary BinOp.add; PressDigit D3; PressEq]
           [NumberToken_new D2; BinaryToken BinOp.add; NumberToken_new D3;
            EqToken]).
  reflexivity.
Defined.

(** ** Companions for session formulas *)

Lemma findOpen_last (pre post : list Token) :
  Forall (fun t => isOpenToken t = false) post ->
  Formula.findOpen (pre ++ OpenToken :: post)
    (List.length (pre ++ OpenToken :: post))
  = Some (List.length pre).
Proof.
  induction post as [|x post IH] using rev_ind; intro H.
  - apply (findOpen_snoc pre OpenToken).
  - apply Forall_app in H. destruct H as [Hpost Hx].
    inversion Hx as [|? ? Hx' _]; subst.
    change (pre ++ OpenToken :: post ++ [x])
      with (pre ++ (OpenToken :: post) ++ [x]).
    rewrite app_assoc, findOpen_snoc, Hx'. apply IH, Hpost.
Qed.

Lemma existsb_isOpenToken_Forall (l : list Token) :
  existsb isOpenToken l = false -> Forall (fun t => isOpenToken t = false) l.
Proof.
  induction l as [|x l IH]; simpl; intro H.
  - constructor.
  - apply Bool.orb_false_iff in H. destruct H as [Hx Hl].
    constructor; auto.
Qed.

(** In a session every Group that ends the formula re-opens under
    [backspace] and closes again to the same formula. *)
Lemma backspace_close_in_session
    (actions : list Action) (pre contents : list Token) :
  session actions [] = Ok (pre ++ [GroupToken contents]) ->
  Formula.backspace (pre ++ [GroupToken contents])
  = pre ++ OpenToken :: contents
  /\ Formula.appendClose (pre ++ OpenToken :: contents)
     = Ok (true, pre ++ [GroupToken contents]).
Proof.
  intro Hreach.
  pose proof (session_invariant _ _ _ formulaInvariant_nil Hreach)
    as [_ [Hwf|(body & Heq & _)]].
  2:{ apply app_inj_tail in Heq. destruct Heq as [_ Heq]. discriminate. }
  rewrite forallb_app in Hwf. simpl in Hwf. split_wf.
  match goal with
  | H : AppendResult.eqb _ _ = true |- _ =>
      apply AppendResult_eqb_eq in H; rename H into Hdir
  end.
  match goal with
  | H : negb _ = true |- _ =>
      apply Bool.negb_true_iff, existsb_isOpenToken_Forall in H;
      rename H into Hopen
  end.
  split.
  - unfold Formula.backspace. rewrite pop_snoc. reflexivity.
  - assert (Hne : contents <> []) by (intros ->; discriminate).
    unfold Formula.appendClose. rewrite appendToLastToken_close.
    change (pre ++ OpenToken :: contents)
      with (pre ++ [OpenToken] ++ contents).
    rewrite app_assoc, closeDirective_app, Hdir by assumption.
    rewrite <- app_assoc. cbn [app].
    rewrite (findOpen_last pre contents Hopen).
    rewrite firstn_length_app, skipn_length_app. reflexivity.
Qed.

(** In a session a Number token that ends the formula has at least one
    character: [backspace] on it is one of the two cases of C9. *)
Lemma number_nonempty_in_session
    (actions : list Action) (rest : list Token)
    (negative : bool) (number : string) :
  session actions [] = Ok (rest ++ [NumberToken negative number]) ->
  String.length number = 1 \/ 1 < String.length number.
Proof.
  intro Hreach.
  pose proof (session_invariant _ _ _ formulaInvariant_nil Hreach)
    as [_ [Hwf|(body & Heq & _)]].
  2:{ apply app_inj_tail in Heq. destruct Heq as [_ Heq]. discriminate. }
  rewrite forallb_app in Hwf. simpl in Hwf. split_wf.
  match goal with
  | H : Nat.ltb 0 _ = true |- _ => apply Nat.ltb_lt in H; lia
  end.
Qed.

(** * Further properties *)

(** ** Appends on the formula *)

Lemma failed_keeps_token (t : Token) :
  (forall digit, fst (Token_appendDigit digit t) = AppendResult.failed ->
                 snd (Token_appendDigit digit t) = t)
  /\ (forall op, fst (Token_appendBinary op t) = AppendResult.failed ->
                 snd (Token_appendBinary op t) = t)
  /\ (forall op, fst (Token_appendUnary op t) = AppendResult.failed ->
                 snd (Token_appendUnary op t) = t)
  /\ snd (Token_appendSymbol t) = t
  /\ snd (Token_appendOpen t) = t
  /\ snd (Token_appendClose t) = t.
Proof.
  repeat split; intros; destruct t; try reflexivity; try discriminate.
  - simpl in *. unfold NumberToken_appendDigit in *.
    destruct (Digit_is_dot digit); [destruct (test_dot number)|];
      simpl in *; try discriminate; reflexivity.
  - simpl in *. unfold NumberToken_appendUnary in *.
    destruct (UnOp.eqb op UnOp.neg); simpl in *; try discriminate; reflexivity.
Qed.

Lemma failed_keeps_formula (d : AppendResult.t)
    (action : Token -> AppendResult.t * Token) (newToken : Token)
    (tokens : list Token) :
  (forall t, fst (action t) = AppendResult.failed -> snd (action t) = t) ->
  fst (Formula.appendToLastToken d action tokens) = AppendResult.failed ->
  (let '(appendResult, tokens1) := Formula.appendToLastToken d action tokens in
   Formula.handleAppendResult appendResult newToken tokens1) = tokens.
Proof.
  intros Hkeep Hfail.
  destruct (array_cases tokens) as [->|(rest & t & ->)].
  - simpl in *. rewrite Hfail. reflexivity.
  - rewrite appendToLastToken_snoc in *. simpl in Hfail |- *.
    rewrite Hfail, (Hkeep t Hfail). simpl.
    rewrite Bool.andb_false_r. reflexivity.
Qed.

(** X1. A rejected keystroke changes nothing: whenever the directive of
    [appendDigit], [appendBinary], [appendUnary], [appendSymbol] or
    [appendOpen] is [failed], the formula after the call is the formula
    before it (the last token is not mutated, nothing is pushed, and a
    completed formula is not cleared). *)
Theorem X1_rejected_append_keeps_formula (tokens : list Token) :
  (forall digit,
     fst (Formula.appendToLastToken AppendResult.createAfter
            (Token_appendDigit digit) tokens) = AppendResult.failed ->
     Formula.appendDigit digit tokens = tokens)
  /\ (forall op,
        fst (Formula.appendToLastToken AppendResult.insertAnsAndCreate
               (Token_appendBinary op) tokens) = AppendResult.failed ->
        Formula.appendBinary op tokens = tokens)
  /\ (forall op,
        fst (Formula.appendToLastToken AppendResult.insertAnsAndCreate
               (Token_appendUnary op) tokens) = AppendResult.failed ->
        Formula.appendUnary op tokens = tokens)
  /\ (forall op,
        fst (Formula.appendToLastToken AppendResult.createAfter
               Token_appendSymbol tokens) = AppendResult.failed ->
        Formula.appendSymbol op tokens = tokens)
  /\ (fst (Formula.appendToLastToken AppendResult.createAfter
             Token_appendOpen tokens) = AppendResult.failed ->
      Formula.appendOpen tokens = tokens).
Proof.
  unfold Formula.appendDigit, Formula.appendBinary, Formula.appendUnary,
    Formula.appendSymbol, Formula.appendOpen.
  repeat split; intros; apply failed_keeps_formula; try assumption;
    intros t Ht;
    pose proof (failed_keeps_token t) as (H1 & H2 & H3 & H4 & H5 & _); auto.
Qed.

(** X2. Last operator wins: on a formula whose last token is a binary
    operator, [appendBinary] overwrites that operator in place, so after
    any run of operator keys the formula ends in the last one typed and
    is no longer than before. *)
Theorem X2_last_operator_wins
    (rest : list Token) (op : BinOp.t) (ops : list BinOp.t) :
  fold_left (fun tokens o => Formula.appendBinary o tokens) ops
    (rest ++ [BinaryToken op])
  = rest ++ [BinaryToken (last ops op)].
Proof.
  assert (Hlast : forall (l : list BinOp.t) a d d',
             last (a :: l) d = last (a :: l) d').
  { induction l as [|b l IHl]; intros a d d'; [reflexivity|].
    change (last (b :: l) d = last (b :: l) d'). apply IHl. }
  revert op. induction ops as [|o ops IH]; intro op; simpl.
  - reflexivity.
  - unfold Formula.appendBinary at 2. rewrite appendToLastToken_snoc. simpl.
    rewrite IH. destruct ops; [reflexivity|].
    rewrite (Hlast ops t o op). reflexivity.
Qed.

(** X3. Unary negate and reciprocal toggle: pressing the same one of them
    twice on a formula whose last token is neither the Equals marker nor
    that same unary operator gives the formula back (on a Number, negate
    flips the sign flag twice). Square root does not cancel: two presses
    after a Group or Symbol leave two square-root tokens. *)
Theorem X3_unary_toggles
    (rest : list Token) (t : Token) (op : UnOp.t)
    (Hop : op <> UnOp.sqrt)
    (Heq : t <> EqToken)
    (Hsame : t <> UnaryToken op) :
  Formula.appendUnary op (Formula.appendUnary op (rest ++ [t])) = rest ++ [t]
  /\ (forall inner,
        Formula.appendUnary UnOp.sqrt
          (Formula.appendUnary UnOp.sqrt (rest ++ [GroupToken inner]))
        = rest ++ [GroupToken inner; UnaryToken UnOp.sqrt;
                   UnaryToken UnOp.sqrt])
  /\ (forall sym,
        Formula.appendUnary UnOp.sqrt
          (Formula.appendUnary UnOp.sqrt (rest ++ [SymbolToken sym]))
        = rest ++ [SymbolToken sym; UnaryToken UnOp.sqrt;
                   UnaryToken UnOp.sqrt]).
Proof.
  assert (Hsnoc : forall l u o,
             Formula.appendUnary o (l ++ [u])
             = Formula.handleAppendResult (fst (Token_appendUnary o u))
                 (UnaryToken o)
                 (if isEqToken u
                     && negb (AppendResult.eqb (fst (Token_appendUnary o u))
                                AppendResult.failed)
                  then [] else l ++ [snd (Token_appendUnary o u)])).
  { intros. unfold Formula.appendUnary. rewrite appendToLastToken_snoc.
    reflexivity. }
  split; [|split].
  - destruct t as [negative number|o|o|inner|o| |];
      try (exfalso; apply Heq; reflexivity);
      destruct op; try (exfalso; apply Hop; reflexivity);
      try (destruct o; try (exfalso; apply Hsame; reflexivity));
      rewrite (Hsnoc rest); simpl;
      try rewrite (Hsnoc (rest ++ [_])); simpl;
      try rewrite (Hsnoc rest); simpl;
      rewrite ?removelast_last, ?Bool.negb_involutive; reflexivity.
  - intro inner. rewrite (Hsnoc rest). simpl.
    rewrite (Hsnoc (rest ++ [_])). simpl. rewrite <- !app_assoc. reflexivity.
  - intro sym. rewrite (Hsnoc rest). simpl.
    rewrite (Hsnoc (rest ++ [_])). simpl. rewrite <- !app_assoc. reflexivity.
Qed.

Lemma X3_unary_toggles_witness :
  Formula.appendUnary UnOp.neg
    (Formula.appendUnary UnOp.neg [NumberToken_new D7; UnaryToken UnOp.sqrt])
  = [NumberToken_new D7; UnaryToken UnOp.sqrt].
Proof.
  apply (X3_unary_toggles [NumberToken_new D7] (UnaryToken UnOp.sqrt)
           UnOp.neg); discriminate.
Defined.

(** X4. A value is replaced, not extended, by the next value, and an
    opening parenthesis typed after a Number or Symbol lands in front of
    it: a digit after a Symbol puts the fresh Number in its place; the
    symbol key after a Number or Symbol puts the Symbol in its place;
    [appendOpen] after a Number or Symbol inserts the Open marker just
    before that token. The tokens before are untouched. *)
Theorem X4_values_replace_and_open_goes_in_front
    (rest : list Token) (negative : bool) (number : string)
    (sym sym' : SymOp.t) (digit : Digit) :
  Formula.appendDigit digit (rest ++ [SymbolToken sym])
  = rest ++ [NumberToken_new digit]
  /\ Formula.appendSymbol sym' (rest ++ [NumberToken negative number])
     = rest ++ [SymbolToken sym']
  /\ Formula.appendSymbol sym' (rest ++ [SymbolToken sym])
     = rest ++ [SymbolToken sym']
  /\ Formula.appendOpen (rest ++ [NumberToken negative number])
     = rest ++ [OpenToken; NumberToken negative number]
  /\ Formula.appendOpen (rest ++ [SymbolToken sym])
     = rest ++ [OpenToken; SymbolToken sym].
Proof.
  unfold Formula.appendDigit, Formula.appendSymbol, Formula.appendOpen.
  rewrite !appendToLastToken_snoc. simpl. rewrite !pop_snoc.
  repeat split.
Qed.

(** X5. Backspace undoes the keystroke that created a token: when an
    append on a formula that is not completed has directive
    [createAfter], [backspace] right after gives the formula back, for a
    binary or unary operator, the symbol, an opening parenthesis, and a
    digit other than the point (the point creates ["0."], of which
    backspace keeps ["0"]). A digit appended in place to a Number of at
    least one character other than ["0"] is undone by backspace too. *)
Theorem X5_backspace_undoes_append (tokens : list Token)
    (Hopen : Formula.isComplete tokens = false) :
  (forall op,
     fst (Formula.appendToLastToken AppendResult.insertAnsAndCreate
            (Token_appendBinary op) tokens) = AppendResult.createAfter ->
     Formula.backspace (Formula.appendBinary op tokens) = tokens)
  /\ (forall op,
        fst (Formula.appendToLastToken AppendResult.insertAnsAndCreate
               (Token_appendUnary op) tokens) = AppendResult.createAfter ->
        Formula.backspace (Formula.appendUnary op tokens) = tokens)
  /\ (forall op,
        fst (Formula.appendToLastToken AppendResult.createAfter
               Token_appendSymbol tokens) = AppendResult.createAfter ->
        Formula.backspace (Formula.appendSymbol op tokens) = tokens)
  /\ (fst (Formula.appendToLastToken AppendResult.createAfter
             Token_appendOpen tokens) = AppendResult.createAfter ->
      Formula.backspace (Formula.appendOpen tokens) = tokens)
  /\ (forall digit,
        Digit_is_dot digit = false ->
        fst (Formula.appendToLastToken AppendResult.createAfter
               (Token_appendDigit digit) tokens) = AppendResult.createAfter ->
        Formula.backspace (Formula.appendDigit digit tokens) = tokens)
  /\ (forall rest negative number digit,
        tokens = rest ++ [NumberToken negative number] ->
        1 <= String.length number ->
        number <> "0" ->
        fst (Token_appendDigit digit (NumberToken negative number))
        = AppendResult.replaced ->
        Formula.backspace (Formula.appendDigit digit tokens) = tokens).
Proof.
  assert (Hcreate : forall d action newToken,
             (forall t, fst (action t) = AppendResult.createAfter ->
                        snd (action t) = t) ->
             fst (Formula.appendToLastToken d action tokens)
             = AppendResult.createAfter ->
             (let '(appendResult, tokens1) :=
                Formula.appendToLastToken d action tokens in
              Formula.handleAppendResult appendResult newToken tokens1)
             = tokens ++ [newToken]).
  { intros d action newToken Hkeep Hdir.
    destruct (array_cases tokens) as [->|(rest & t & ->)].
    - simpl in *. rewrite Hdir. reflexivity.
    - rewrite appendToLastToken_snoc in *. simpl in Hdir |- *.
      rewrite Hdir, (Hkeep t Hdir). simpl.
      destruct t; try reflexivity.
      unfold Formula.isComplete in Hopen. rewrite pop_snoc, length_app in Hopen.
      simpl in Hopen. rewrite Nat.add_1_r in Hopen. discriminate. }
  assert (Hb : forall newToken,
             match newToken with
             | NumberToken _ _ | GroupToken _ => False
             | _ => True
             end ->
             Formula.backspace (tokens ++ [newToken]) = tokens).
  { intros newToken H. unfold Formula.backspace. rewrite pop_snoc.
    destruct newToken; try contradiction; reflexivity. }
  split; [|split; [|split; [|split; [|split]]]].
  - intros op H. unfold Formula.appendBinary. rewrite Hcreate; auto.
    intros t Ht. destruct t; try reflexivity; discriminate.
  - intros op H. unfold Formula.appendUnary. rewrite Hcreate; auto.
    intros t Ht. destruct t; try reflexivity; try discriminate.
    simpl in *. unfold NumberToken_appendUnary in *.
    destruct (UnOp.eqb op UnOp.neg); [discriminate|reflexivity].
  - intros op H. unfold Formula.appendSymbol. rewrite Hcreate; auto.
    intros t Ht. destruct t; reflexivity.
  - intros H. unfold Formula.appendOpen. rewrite Hcreate; auto.
    intros t Ht. destruct t; reflexivity.
  - intros digit Hd H. unfold Formula.appendDigit. rewrite Hcreate; auto.
    + unfold Formula.backspace. rewrite pop_snoc.
      destruct digit; try discriminate; reflexivity.
    + intros t Ht. destruct t; try reflexivity.
      simpl in *. unfold NumberToken_appendDigit in *.
      destruct (Digit_is_dot digit); [destruct (test_dot number)|];
        discriminate.
  - intros rest negative number digit -> Hlen Hzero Hrep.
    unfold Formula.appendDigit. rewrite appendToLastToken_snoc.
    simpl in *. unfold NumberToken_appendDigit in *.
    assert (Hne : number <> EmptyString) by (intros ->; simpl in Hlen; lia).
    destruct (Digit_is_dot digit) eqn:Hd;
      [destruct (test_dot number); [discriminate|]|];
      simpl; unfold Formula.backspace; rewrite pop_snoc.
    + destruct digit; try discriminate. simpl Digit_to_string.
      rewrite NumberToken_backspace_snoc by assumption. reflexivity.
    + apply String.eqb_neq in Hzero. rewrite Hzero.
      destruct digit; try discriminate; simpl Digit_to_string;
        rewrite NumberToken_backspace_snoc by assumption; reflexivity.
Qed.

Lemma X5_backspace_undoes_append_witness :
  Formula.backspace
    (Formula.appendBinary BinOp.mul [NumberToken_new D4]) = [NumberToken_new D4].
Proof.
  apply (X5_backspace_undoes_append [NumberToken_new D4]); reflexivity.
Defined.

(** ** Completing a formula *)

Lemma closeAll_closes_everything (fuel : nat) (tokens : list Token) :
  closeDirective tokens = AppendResult.createAfter ->
  List.length tokens < fuel ->
  exists closed,
    Formula.closeAll fuel tokens = Ok closed
    /\ Forall (fun t => isOpenToken t = false) closed
    /\ closeDirective closed = AppendResult.createAfter
    /\ List.length closed <= List.length tokens.
Proof.
  revert tokens. induction fuel as [|fuel IH]; intros tokens Hdir Hlen.
  - lia.
  - simpl.
    destruct (appendClose_spec tokens)
      as [[Hfail Hwhy]|(pre & post & Htok & Hpost & Hne & _ & Hok)].
    + rewrite Hfail. simpl. exists tokens.
      destruct Hwhy as [Hf|[_ Hall]]; [rewrite Hf in Hdir; discriminate|].
      auto.
    + rewrite Hok. simpl.
      assert (Hshort : List.length (pre ++ [GroupToken post])
                       < List.length tokens).
      { rewrite Htok, !length_app. simpl.
        destruct post; [contradiction|simpl; lia]. }
      destruct (IH (pre ++ [GroupToken post])) as (closed & H1 & H2 & H3 & H4).
      * unfold closeDirective. rewrite appendToLastToken_snoc. reflexivity.
      * lia.
      * exists closed. repeat split; auto. lia.
Qed.

(** X6. [appendEq] either rejects the key and leaves the formula as it
    was (when the last token does not accept a closing parenthesis:
    empty formula, a binary operator, an Open marker or the Equals marker
    last), or ends the loop of [appendClose] and returns a formula made
    of tokens none of which is an Open marker at top level, followed by
    the Equals marker: every parenthesis left open has been closed. The
    result is complete, it is not longer than the formula plus the
    marker, and a second [appendEq] on it changes nothing. *)
Theorem X6_appendEq_closes_all_parentheses (tokens : list Token) :
  (closeDirective tokens <> AppendResult.createAfter
   /\ Formula.appendEq tokens = Ok tokens)
  \/ (closeDirective tokens = AppendResult.createAfter
      /\ exists closed,
           Formula.appendEq tokens = Ok (closed ++ [EqToken])
           /\ Forall (fun t => isOpenToken t = false) closed
           /\ List.length closed <= List.length tokens
           /\ Formula.isComplete (closed ++ [EqToken]) = true
           /\ Formula.appendEq (closed ++ [EqToken])
              = Ok (closed ++ [EqToken])).
Proof.
  destruct (closeDirective_cases tokens) as [Hf|(Hc & _)].
  - left. split; [rewrite Hf; discriminate|].
    unfold Formula.appendEq. rewrite appendToLastToken_close, Hf. reflexivity.
  - right. split; [assumption|].
    destruct (closeAll_closes_everything (S (List.length tokens)) tokens Hc)
      as (closed & Hrun & Hall & _ & Hlen); [lia|].
    exists closed. unfold Formula.appendEq at 1.
    rewrite appendToLastToken_close, Hc. cbn [AppendResult.eqb negb].
    rewrite Hrun. simpl. repeat split; auto.
    + apply isComplete_spec. exists closed. reflexivity.
    + unfold Formula.appendEq. rewrite appendToLastToken_snoc. reflexivity.
Qed.

(** ** Invariants of editing sessions *)

(** X7. In every formula reached from the empty one by the editing keys:
    the first token is never a binary operator; every Number token has
    at least one character; every Group is non-empty, holds no Open
    marker of its own, ends in a token that accepts a closing
    parenthesis, and holds well-formed tokens only (so a Group is always
    the result of closing a parenthesis over a valid sequence). *)
Theorem X7_session_formulas_are_well_formed
    (actions : list Action) (tokens : list Token)
    (Hreach : session actions [] = Ok tokens) :
  firstIsBinary tokens = false
  /\ (forall negative number,
        In (NumberToken negative number) tokens ->
        1 <= String.length number)
  /\ (forall contents,
        In (GroupToken contents) tokens ->
        contents <> []
        /\ Forall (fun t => isOpenToken t = false) contents
        /\ closeDirective contents = AppendResult.createAfter
        /\ forallb wellFormed contents = true).
Proof.
  pose proof (session_invariant actions [] tokens formulaInvariant_nil Hreach)
    as [Hfirst Hinv].
  assert (Hwf : forall t, In t tokens -> t <> EqToken -> wellFormed t = true).
  { intros t Hin Hneq. destruct Hinv as [Hwf|(body & -> & _ & Hwf)].
    - apply (proj1 (forallb_forall _ _) Hwf t Hin).
    - apply in_app_or in Hin. destruct Hin as [Hin|[<-|[]]].
      + apply (proj1 (forallb_forall _ _) Hwf t Hin).
      + exfalso. apply Hneq. reflexivity. }
  split; [assumption|]. split.
  - intros negative number Hin.
    specialize (Hwf _ Hin ltac:(discriminate)). simpl in Hwf.
    apply Nat.ltb_lt in Hwf. lia.
  - intros contents Hin.
    specialize (Hwf _ Hin ltac:(discriminate)). simpl in Hwf.
    apply andb_prop in Hwf. destruct Hwf as [Hwf Hdir].
    apply andb_prop in Hwf. destruct Hwf as [Hwf Hopen].
    apply AppendResult_eqb_eq in Hdir.
    apply Bool.negb_true_iff, existsb_isOpenToken_Forall in Hopen.
    repeat split; auto. intros ->. discriminate.
Qed.

Lemma X7_session_formulas_are_well_formed_witness :
  firstIsBinary
    [GroupToken [NumberToken_new D2; BinaryToken BinOp.add; NumberToken_new D3];
     BinaryToken BinOp.mul] = false.
Proof.
  apply (X7_session_formulas_are_well_formed
           [PressOpen; PressDigit D2; PressBinary BinOp.add; PressDigit D3;
            PressClose; PressBinary BinOp.mul]
           [GroupToken [NumberToken_new D2; BinaryToken BinOp.add;
                        NumberToken_new D3];
            BinaryToken BinOp.mul]).
  reflexivity.
Defined.

(** X8. No sequence of editing keys throws or hangs, from any token
    array: the [default: throw] branch of [appendClose] is never taken
    (a token answers a closing parenthesis with [failed] or
    [createAfter] only), and the loop of [appendEq] always ends. *)
Theorem X8_editing_never_throws (actions : list Action) (tokens : list Token) :
  exists tokens', session actions tokens = Ok tokens'.
Proof. apply session_returns. Qed.

(** ** A property of digit strings kept by every key *)

Section EveryNumber.
Variable Q : string -> bool.
Hypothesis Q_new : forall digit, everyNumber Q (NumberToken_new digit) = true.
Hypothesis Q_append : forall negative number digit,
  Q number = true ->
  everyNumber Q (snd (NumberToken_appendDigit negative number digit)) = true.
Hypothesis Q_backspace : forall negative number,
  Q number = true ->
  fst (NumberToken_backspace negative number) = false ->
  everyNumber Q (snd (NumberToken_backspace negative number)) = true.

Lemma every_token_action (t : Token) :
  everyNumber Q t = true ->
  (forall digit, everyNumber Q (snd (Token_appendDigit digit t)) = true)
  /\ (forall op, everyNumber Q (snd (Token_appendBinary op t)) = true)
  /\ (forall op, everyNumber Q (snd (Token_appendUnary op t)) = true)
  /\ everyNumber Q (snd (Token_appendSymbol t)) = true
  /\ everyNumber Q (snd (Token_appendOpen t)) = true
  /\ everyNumber Q (snd (Token_appendClose t)) = true.
Proof.
  intro H. repeat split; intros; destruct t; simpl in *; auto.
  unfold NumberToken_appendUnary. destruct (UnOp.eqb op UnOp.neg); assumption.
Qed.

Lemma every_appendToLastToken (d : AppendResult.t)
    (action : Token -> AppendResult.t * Token) (tokens : list Token) :
  (forall t, everyNumber Q t = true -> everyNumber Q (snd (action t)) = true) ->
  forallb (everyNumber Q) tokens = true ->
  forallb (everyNumber Q) (snd (Formula.appendToLastToken d action tokens))
  = true.
Proof.
  intros Hact Hall. destruct (array_cases tokens) as [->|(rest & t & ->)].
  - reflexivity.
  - rewrite appendToLastToken_snoc. simpl.
    rewrite forallb_app in Hall. simpl in Hall. split_wf.
    destruct (isEqToken t && _); [reflexivity|].
    rewrite forallb_app. simpl. rewrite Hact by assumption.
    rewrite H. reflexivity.
Qed.

Lemma every_removelast (tokens : list Token) :
  forallb (everyNumber Q) tokens = true ->
  forallb (everyNumber Q) (removelast tokens) = true.
Proof.
  destruct (array_cases tokens) as [->|(rest & t & ->)]; intro H.
  - reflexivity.
  - rewrite removelast_last. rewrite forallb_app in H.
    apply andb_prop in H. tauto.
Qed.

Lemma every_handleAppendResult (r : AppendResult.t) (newToken : Token)
    (tokens : list Token) :
  everyNumber Q newToken = true ->
  forallb (everyNumber Q) tokens = true ->
  forallb (everyNumber Q) (Formula.handleAppendResult r newToken tokens) = true.
Proof.
  intros Hnew Hall.
  destruct r; simpl; auto using every_removelast;
    try (rewrite forallb_app; simpl; rewrite Hall, Hnew; reflexivity).
  - destruct (array_cases tokens) as [->|(rest & t & ->)]; [reflexivity|].
    rewrite pop_snoc. rewrite forallb_app in *. simpl in *. split_wf.
    rewrite Hnew. match goal with H : _ = true |- _ => rewrite H end.
    reflexivity.
  - destruct (array_cases tokens) as [->|(rest & t & ->)].
    + simpl. rewrite Hnew. reflexivity.
    + rewrite pop_snoc. rewrite forallb_app in *. simpl in *. split_wf.
      rewrite Hnew.
      repeat match goal with H : _ = true |- _ => rewrite H; clear H end.
      reflexivity.
Qed.

Lemma every_appendClose (tokens tokens' : list Token) (closed : bool) :
  forallb (everyNumber Q) tokens = true ->
  Formula.appendClose tokens = Ok (closed, tokens') ->
  forallb (everyNumber Q) tokens' = true.
Proof.
  intros Hall H.
  destruct (appendClose_spec tokens)
    as [[Hfail _]|(pre & post & Htok & _ & _ & _ & Hok)].
  - rewrite Hfail in H. inversion H; subst. assumption.
  - rewrite Hok in H. inversion H; subst.
    rewrite forallb_app in *. simpl in *. split_wf.
    repeat match goal with H : _ = true |- _ => rewrite H; clear H end.
    reflexivity.
Qed.

Lemma every_closeAll (fuel : nat) (tokens tokens' : list Token) :
  forallb (everyNumber Q) tokens = true ->
  Formula.closeAll fuel tokens = Ok tokens' ->
  forallb (everyNumber Q) tokens' = true.
Proof.
  revert tokens. induction fuel as [|fuel IH]; intros tokens Hall H;
    simpl in H; [discriminate|].
  destruct (Formula.appendClose tokens) as [[closed tokens1]|e] eqn:E;
    simpl in H; [|discriminate].
  pose proof (every_appendClose _ _ _ Hall E) as H1.
  destruct closed.
  - eapply IH; eassumption.
  - inversion H; subst. assumption.
Qed.

Lemma every_press (a : Action) (tokens tokens' : list Token) :
  forallb (everyNumber Q) tokens = true ->
  press a tokens = Ok tokens' ->
  forallb (everyNumber Q) tokens' = true.
Proof.
  intros Hall H.
  assert (Hact : forall t, everyNumber Q t = true ->
                           _) by (intros t Ht; exact (every_token_action t Ht)).
  destruct a; simpl in H.
  - inversion H; subst. unfold Formula.appendDigit.
    pose proof (every_appendToLastToken AppendResult.createAfter
                  (Token_appendDigit digit) tokens) as Hl.
    destruct (Formula.appendToLastToken _ _ tokens) as [r tokens1].
    apply every_handleAppendResult; [apply Q_new|].
    apply Hl; [|assumption]. intros t Ht. apply (Hact t Ht).
  - inversion H; subst. unfold Formula.appendBinary.
    pose proof (every_appendToLastToken AppendResult.insertAnsAndCreate
                  (Token_appendBinary op) tokens) as Hl.
    destruct (Formula.appendToLastToken _ _ tokens) as [r tokens1].
    apply every_handleAppendResult; [reflexivity|].
    apply Hl; [|assumption]. intros t Ht. apply (Hact t Ht).
  - inversion H; subst. unfold Formula.appendUnary.
    pose proof (every_appendToLastToken AppendResult.insertAnsAndCreate
                  (Token_appendUnary op) tokens) as Hl.
    destruct (Formula.appendToLastToken _ _ tokens) as [r tokens1].
    apply every_handleAppendResult; [reflexivity|].
    apply Hl; [|assumption]. intros t Ht. apply (Hact t Ht).
  - inversion H; subst. unfold Formula.appendSymbol.
    pose proof (every_appendToLastToken AppendResult.createAfter
                  Token_appendSymbol tokens) as Hl.
    destruct (Formula.appendToLastToken _ _ tokens) as [r tokens1].
    apply every_handleAppendResult; [reflexivity|].
    apply Hl; [|assumption]. intros t Ht. apply (Hact t Ht).
  - inversion H; subst. unfold Formula.appendOpen.
    pose proof (every_appendToLastToken AppendResult.createAfter
                  Token_appendOpen tokens) as Hl.
    destruct (Formula.appendToLastToken _ _ tokens) as [r tokens1].
    apply every_handleAppendResult; [reflexivity|].
    apply Hl; [|assumption]. intros t Ht. apply (Hact t Ht).
  - destruct (Formula.appendClose tokens) as [[closed tokens1]|e] eqn:E;
      simpl in H; inversion H; subst.
    eapply every_appendClose; eassumption.
  - inversion H; subst. unfold Formula.backspace.
    destruct (array_cases tokens) as [->|(rest & t & ->)]; [reflexivity|].
    rewrite pop_snoc. rewrite forallb_app in Hall. simpl in Hall. split_wf.
    destruct t; try assumption.
    + pose proof (Q_backspace negative number) as Hb.
      destruct (NumberToken_backspace negative number) as [drop t'].
      destruct drop; [assumption|].
      rewrite forallb_app. simpl in *.
      rewrite Hb by auto.
      match goal with H : forallb _ rest = true |- _ => rewrite H end.
      reflexivity.
    + rewrite forallb_app. simpl in *.
      repeat match goal with H : _ = true |- _ => rewrite H; clear H end.
      reflexivity.
  - unfold Formula.appendEq in H. rewrite appendToLastToken_close in H.
    destruct (negb _); [inversion H; subst; assumption|].
    destruct (Formula.closeAll _ tokens) as [tokens2|e] eqn:E; simpl in H;
      inversion H; subst.
    rewrite forallb_app. simpl.
    rewrite (every_closeAll _ _ _ Hall E). reflexivity.
Qed.

Lemma every_session (actions : list Action) (tokens tokens' : list Token) :
  forallb (everyNumber Q) tokens = true ->
  session actions tokens = Ok tokens' ->
  forallb (everyNumber Q) tokens' = true.
Proof.
  revert tokens. induction actions as [|a actions IH]; intros tokens Hall H;
    simpl in H.
  - inversion H; subst. assumption.
  - destruct (press a tokens) as [tokens1|e] eqn:E; simpl in H;
      [|discriminate].
    eapply IH; [|eassumption]. eapply every_press; eassumption.
Qed.
End EveryNumber.

(** ** Digit strings are decimal literals *)

Lemma numRun_app (st : NumState) (s s' : string) :
  numRun st (s ++ s') = numRun (numRun st s) s'.
Proof.
  revert st. induction s as [|c s IH]; intro st; simpl.
  - reflexivity.
  - apply IH.
Qed.

Lemma numStep_bad (c : ascii) : numStep NS_bad c = NS_bad.
Proof.
  unfold numStep. destruct (Ascii.eqb c "."); [reflexivity|].
  destruct (is_digit c); reflexivity.
Qed.

Lemma numRun_bad (s : string) : numRun NS_bad s = NS_bad.
Proof.
  induction s as [|c s IH]; simpl.
  - reflexivity.
  - rewrite numStep_bad. apply IH.
Qed.

Lemma numStep_not_start (st : NumState) (c : ascii) : numStep st c <> NS_start.
Proof.
  unfold numStep. destruct (Ascii.eqb c "."); [destruct st; discriminate|].
  destruct (is_digit c); [|discriminate].
  destruct st; try discriminate. destruct (Ascii.eqb c "0"); discriminate.
Qed.

Lemma numRun_start_inv (st : NumState) (s : string) :
  numRun st s = NS_start -> s = EmptyString.
Proof.
  revert st. induction s as [|c s IH]; intros st H; simpl in H.
  - reflexivity.
  - pose proof (IH _ H) as ->. simpl in H.
    exfalso. apply (numStep_not_start st c H).
Qed.

Lemma numStep_not_zero (st : NumState) (c : ascii) :
  st <> NS_start -> numStep st c <> NS_zero.
Proof.
  intro Hs. unfold numStep. destruct (Ascii.eqb c "."); [destruct st; discriminate|].
  destruct (is_digit c); [|discriminate].
  destruct st; try discriminate. contradiction.
Qed.

Lemma numRun_zero_inv (st : NumState) (s : string) :
  st <> NS_start -> numRun st s = NS_zero -> st = NS_zero /\ s = EmptyString.
Proof.
  revert st. induction s as [|c s IH]; intros st Hs H; simpl in H.
  - auto.
  - exfalso. destruct (IH (numStep st c) (numStep_not_start st c) H) as [Hz _].
    apply (numStep_not_zero st c Hs Hz).
Qed.

(** The state [NS_zero] is reached by the string ["0"] only. *)
Lemma numRun_zero_string (s : string) :
  numRun NS_start s = NS_zero -> s = "0".
Proof.
  destruct s as [|c r]; simpl; intro H; [discriminate|].
  destruct (numRun_zero_inv _ r (numStep_not_start NS_start c) H) as [Hc ->].
  unfold numStep in Hc. destruct (Ascii.eqb c "."); [discriminate|].
  destruct (is_digit c); [|discriminate].
  destruct (Ascii.eqb c "0") eqn:E; [|discriminate].
  apply Ascii.eqb_eq in E. subst. reflexivity.
Qed.

(** Without a point the fraction state is not reached. *)
Lemma numRun_no_dot (st : NumState) (s : string) :
  st <> NS_frac -> test_dot s = false -> numRun st s <> NS_frac.
Proof.
  revert st. induction s as [|c s IH]; intros st Hs Hd; simpl in *.
  - assumption.
  - destruct (Ascii.eqb c ".") eqn:E; [discriminate|].
    apply IH; [|assumption].
    unfold numStep. rewrite E. destruct (is_digit c); [|discriminate].
    destruct st; try discriminate; try contradiction.
    destruct (Ascii.eqb c "0"); discriminate.
Qed.

Lemma decimalLiteral_new (digit : Digit) :
  everyNumber decimalLiteral (NumberToken_new digit) = true.
Proof. destruct digit; reflexivity. Qed.

Lemma decimalLiteral_append (negative : bool) (number : string) (digit : Digit) :
  decimalLiteral number = true ->
  everyNumber decimalLiteral
    (snd (NumberToken_appendDigit negative number digit)) = true.
Proof.
  intro H. unfold NumberToken_appendDigit.
  destruct (Digit_is_dot digit) eqn:Hd;
    [destruct (test_dot number) eqn:Ht|]; simpl; try assumption.
  - destruct digit; try discriminate. simpl.
    unfold decimalLiteral in *. rewrite numRun_app. simpl.
    pose proof (numRun_no_dot NS_start number ltac:(discriminate) Ht) as Hf.
    destruct (numRun NS_start number); try discriminate; try reflexivity.
    contradiction.
  - destruct (String.eqb number "0") eqn:Hz.
    + destruct digit; try discriminate; reflexivity.
    + apply String.eqb_neq in Hz.
      unfold decimalLiteral in *. rewrite numRun_app.
      pose proof (numRun_zero_string number) as Hzero.
      destruct (numRun NS_start number); try discriminate;
        try (exfalso; apply Hz, Hzero; reflexivity);
        destruct digit; try discriminate; reflexivity.
Qed.

Lemma decimalLiteral_backspace (negative : bool) (number : string) :
  decimalLiteral number = true ->
  fst (NumberToken_backspace negative number) = false ->
  everyNumber decimalLiteral (snd (NumberToken_backspace negative number))
  = true.
Proof.
  intros H Hkeep.
  destruct (string_snoc_cases number) as [->|(s & c & ->)]; [discriminate|].
  destruct s as [|a s]; [discriminate|].
  rewrite NumberToken_backspace_snoc by discriminate. simpl.
  unfold decimalLiteral in *. rewrite numRun_app in H.
  remember (numRun NS_start (String a s)) as st eqn:E.
  cbn [numRun] in H. symmetry in E.
  destruct st; try reflexivity.
  - apply numRun_start_inv in E. discriminate.
  - rewrite numStep_bad in H. discriminate.
Qed.

Lemma decimalLiteral_one_dot (st : NumState) (s : string) :
  numRun st s <> NS_bad ->
  countDots s <= match st with NS_frac | NS_bad => 0 | _ => 1 end.
Proof.
  revert st. induction s as [|c s IH]; intros st H; simpl in *.
  - destruct st; lia.
  - specialize (IH _ H). unfold numStep in *.
    destruct (Ascii.eqb c ".") eqn:E.
    + destruct st; try (rewrite numRun_bad in H; contradiction); simpl in *; lia.
    + destruct (is_digit c); [|rewrite numRun_bad in H; contradiction].
      destruct st; simpl in *; try lia;
        try (rewrite numRun_bad in H; contradiction).
      destruct (Ascii.eqb c "0"); simpl in *; lia.
Qed.

(** A decimal literal begins with a digit, so [parseFloat] reads a
    number from it. *)
Lemma decimalLiteral_starts_with_digit (s : string) :
  decimalLiteral s = true ->
  exists c r, s = String c r /\ is_digit c = true.
Proof.
  unfold decimalLiteral. destruct s as [|c r]; simpl; [discriminate|].
  intro H. exists c, r. split; [reflexivity|].
  unfold numStep in H. destruct (Ascii.eqb c ".");
    [rewrite numRun_bad in H; discriminate|].
  destruct (is_digit c); [reflexivity|rewrite numRun_bad in H; discriminate].
Qed.

Lemma everyNumber_In (Q : string -> bool) (tokens : list Token)
    (negative : bool) (number : string) :
  forallb (everyNumber Q) tokens = true ->
  In (NumberToken negative number) tokens ->
  Q number = true.
Proof.
  intros Hall Hin.
  apply (proj1 (forallb_forall _ _) Hall _ Hin).
Qed.

(** X9. In every formula reached by the editing keys, every Number
    token, also inside Groups, holds a decimal literal: ["0"] or digits
    not starting with 0, optionally followed by a point and digits. So a
    digit string has at most one decimal point, no redundant leading
    zero, and starts with a digit. *)
Theorem X9_digit_strings_are_decimal_literals
    (actions : list Action) (tokens : list Token)
    (Hreach : session actions [] = Ok tokens) :
  forallb (everyNumber decimalLiteral) tokens = true
  /\ (forall negative number,
        In (NumberToken negative number) tokens ->
        decimalLiteral number = true
        /\ countDots number <= 1
        /\ (exists c r, number = String c r /\ is_digit c = true)
        /\ (forall r, number = String "0" r ->
                      r = EmptyString \/ exists r', r = String "." r')).
Proof.
  assert (Hall : forallb (everyNumber decimalLiteral) tokens = true).
  { apply (every_session decimalLiteral decimalLiteral_new
             decimalLiteral_append decimalLiteral_backspace actions []);
      [reflexivity|assumption]. }
  split; [assumption|].
  intros negative number Hin.
  pose proof (everyNumber_In _ _ _ _ Hall Hin) as Hd.
  split; [assumption|]. split; [|split].
  - apply (decimalLiteral_one_dot NS_start). unfold decimalLiteral in Hd.
    intro Hbad. rewrite Hbad in Hd. discriminate.
  - apply decimalLiteral_starts_with_digit, Hd.
  - intros r ->. unfold decimalLiteral in Hd.
    destruct r as [|c r']; [left; reflexivity|right].
    change (numRun NS_start (String "0" (String c r')))
      with (numRun (numStep NS_zero c) r') in Hd.
    assert (Hstep : numStep NS_zero c
                    = if Ascii.eqb c "." then NS_frac else NS_bad).
    { unfold numStep. destruct (Ascii.eqb c "."); [reflexivity|].
      destruct (is_digit c); reflexivity. }
    rewrite Hstep in Hd. destruct (Ascii.eqb c ".") eqn:E.
    + apply Ascii.eqb_eq in E. subst. exists r'. reflexivity.
    + rewrite numRun_bad in Hd. discriminate.
Qed.

Lemma X9_digit_strings_are_decimal_literals_witness :
  forallb (everyNumber decimalLiteral)
    [NumberToken false "7.05"; BinaryToken BinOp.add] = true.
Proof.
  apply (X9_digit_strings_are_decimal_literals
           [PressDigit D0; PressDigit D7; PressDigit Dot; PressDigit D0;
            PressDigit D5; PressDigit Dot; PressBinary BinOp.add]
           [NumberToken false "7.05"; BinaryToken BinOp.add]).
  reflexivity.
Defined.

(** ** More on the preview window *)

Lemma partial_loop_value_unaries (fuel k : nat) (rest us : list Token)
    (v : Token) (end_ : Z) :
  precedence v = Precedence.symbol ->
  Forall (fun u => precedence u = Precedence.unary) us ->
  k <= List.length us -> k < fuel ->
  Formula.partial_loop fuel (rest ++ v :: us)
    (Z.of_nat (List.length rest + k)) end_
  = Ok (Z.of_nat (List.length rest), end_).
Proof.
  intros Hv Hus. revert fuel. induction k as [|k IH]; intros fuel Hk Hf;
    rewrite partial_loop_unfold;
    (replace (Z.of_nat _ <? 0)%Z with false by (symmetry; apply Z.ltb_ge; lia));
    (destruct fuel as [|fuel]; [lia|]);
    rewrite Nat2Z.id, nth_error_app2 by lia.
  - rewrite Nat.add_0_r, Nat.sub_diag. simpl. rewrite Hv. reflexivity.
  - replace (List.length rest + S k - List.length rest) with (S k) by lia.
    simpl nth_error.
    destruct (nth_error us k) as [u|] eqn:E.
    2:{ apply nth_error_None in E. lia. }
    pose proof (proj1 (Forall_forall _ _) Hus u (nth_error_In _ _ E)) as Hu.
    cbv zeta. rewrite Hu.
    replace (Z.of_nat (List.length rest + S k) - 1)%Z
      with (Z.of_nat (List.length rest + k)) by lia.
    apply IH; lia.
Qed.

(** X10. When the formula ends in a value (Number, Group or Symbol)
    followed by any number of unary operators, [partial()] returns
    exactly that value with its unary operators: the preview shows the
    operand being entered, whatever is before it. *)
Theorem X10_partial_of_value_with_unaries
    (rest us : list Token) (v : Token)
    (Hv : precedence v = Precedence.symbol)
    (Hus : Forall (fun u => precedence u = Precedence.unary) us) :
  Formula.partial (rest ++ v :: us) = Ok (v :: us).
Proof.
  unfold Formula.partial, Formula.partial_fuel, Formula.partial_window.
  rewrite length_app. simpl List.length.
  replace (Z.of_nat (List.length rest + S (List.length us)) - 1)%Z
    with (Z.of_nat (List.length rest + List.length us)) by lia.
  rewrite (partial_loop_value_unaries _ _ rest us v _ Hv Hus) by lia.
  simpl.
  replace (Z.of_nat (List.length rest) <? 0)%Z with false
    by (symmetry; apply Z.ltb_ge; lia).
  replace (Z.of_nat (List.length rest)
           >=? Z.of_nat (List.length rest + S (List.length us)))%Z with false
    by (symmetry; rewrite Z.geb_leb; apply Z.leb_gt; lia).
  rewrite !Nat2Z.id.
  replace (List.length rest + S (List.length us) - List.length rest)
    with (List.length (v :: us)) by (simpl; lia).
  rewrite skipn_app, Nat.sub_diag, skipn_all. simpl skipn.
  rewrite firstn_all. reflexivity.
Qed.

Lemma X10_partial_of_value_with_unaries_witness :
  Formula.partial
    ([NumberToken_new D2; BinaryToken BinOp.add]
     ++ NumberToken_new D9 :: [UnaryToken UnOp.sqrt; UnaryToken UnOp.neg])
  = Ok [NumberToken_new D9; UnaryToken UnOp.sqrt; UnaryToken UnOp.neg].
Proof.
  apply (X10_partial_of_value_with_unaries
           [NumberToken_new D2; BinaryToken BinOp.add]
           [UnaryToken UnOp.sqrt; UnaryToken UnOp.neg] (NumberToken_new D9)).
  - reflexivity.
  - repeat constructor.
Defined.

Lemma partial_loop_diverges_after_unaries (fuel k : nat) (op : BinOp.t)
    (us : list Token) (end_ : Z) :
  Forall (fun u => precedence u = Precedence.unary) us ->
  k <= List.length us ->
  Formula.partial_loop fuel (BinaryToken op :: us) (Z.of_nat k) end_
  = Err OutOfFuel.
Proof.
  intro Hus. revert fuel. induction k as [|k IH]; intros fuel Hk.
  - apply partial_loop_diverges.
  - rewrite partial_loop_unfold.
    replace (Z.of_nat (S k) <? 0)%Z with false
      by (symmetry; apply Z.ltb_ge; lia).
    destruct fuel as [|fuel]; [reflexivity|].
    rewrite Nat2Z.id. simpl nth_error.
    destruct (nth_error us k) as [u|] eqn:E.
    2:{ apply nth_error_None in E. lia. }
    pose proof (proj1 (Forall_forall _ _) Hus u (nth_error_In _ _ E)) as Hu.
    cbv zeta. rewrite Hu.
    replace (Z.of_nat (S k) - 1)%Z with (Z.of_nat k) by lia.
    apply IH. lia.
Qed.

(** X11. [partial()] does not return on a token array that is a binary
    operator followed only by unary operators (such as a lone ["+"]):
    the walk reaches the operator at index 0, where the inner loop has
    nothing to do and the outer loop looks at the same token again, for
    ever. No bound on the number of turns gives a result. (Editing
    sessions never build such an array: X7.) *)
Theorem X11_partial_hangs_on_leading_operator
    (op : BinOp.t) (us : list Token)
    (Hus : Forall (fun u => precedence u = Precedence.unary) us)
    (fuel : nat) :
  Formula.partial_fuel fuel (BinaryToken op :: us) = Err OutOfFuel.
Proof.
  unfold Formula.partial_fuel, Formula.partial_window.
  simpl List.length.
  replace (Z.of_nat (S (List.length us)) - 1)%Z
    with (Z.of_nat (List.length us)) by lia.
  rewrite partial_loop_diverges_after_unaries by auto. reflexivity.
Qed.

Lemma X11_partial_hangs_on_leading_operator_witness :
  Formula.partial_fuel 1000 [BinaryToken BinOp.add; UnaryToken UnOp.neg]
  = Err OutOfFuel.
Proof.
  apply (X11_partial_hangs_on_leading_operator BinOp.add
           [UnaryToken UnOp.neg]).
  repeat constructor.
Defined.

(** ** Postfix conversion *)

Section ToRPNFacts.
Context {A : Type} (prec : A -> Precedence.t).

Local Abbreviation isOperand := (isOperandBy prec).

Lemma popOps_spec (p : Precedence.t) (ops result : list A) :
  exists popped,
    ops = popped ++ fst (popOps prec p ops result)
    /\ snd (popOps prec p ops result) = result ++ popped.
Proof.
  revert result. induction ops as [|op ops IH]; intro result; simpl.
  - exists []. split; [reflexivity | symmetry; apply app_nil_r].
  - destruct (Precedence.geb (prec op) p).
    + destruct (IH (result ++ [op])) as (popped & H1 & H2).
      exists (op :: popped). split.
      * simpl. f_equal. exact H1.
      * rewrite H2, <- app_assoc. reflexivity.
    + exists []. split; [reflexivity | symmetry; apply app_nil_r].
Qed.

Lemma toRPN_loop_Permutation (tokens result ops : list A) :
  Permutation (toRPN_loop prec tokens result ops) (result ++ ops ++ tokens).
Proof.
  revert result ops. induction tokens as [|token rest IH]; intros result ops.
  - simpl. rewrite app_nil_r. apply Permutation_refl.
  - assert (Hval : Permutation (toRPN_loop prec rest (result ++ [token]) ops)
                     (result ++ ops ++ token :: rest)).
    { rewrite IH, <- app_assoc. apply Permutation_app_head. simpl.
      apply Permutation_middle. }
    assert (Hop : Permutation
                    (let '(ops', result') := popOps prec (prec token) ops result in
                     toRPN_loop prec rest result' (token :: ops'))
                    (result ++ ops ++ token :: rest)).
    { destruct (popOps_spec (prec token) ops result) as (popped & H1 & H2).
      destruct (popOps prec (prec token) ops result) as [ops' result'].
      simpl in H1, H2. subst result'. rewrite IH, H1, <- !app_assoc.
      apply Permutation_app_head, Permutation_app_head. simpl.
      apply Permutation_middle. }
    simpl. destruct (prec token) eqn:E; try exact Hval; exact Hop.
Qed.

Lemma toRPN_loop_operands (tokens result ops : list A) :
  filter isOperand ops = [] ->
  filter isOperand (toRPN_loop prec tokens result ops)
  = filter isOperand result ++ filter isOperand tokens.
Proof.
  revert result ops. induction tokens as [|token rest IH]; intros result ops Hops.
  - simpl. rewrite filter_app, Hops. reflexivity.
  - assert (Hval : isOperand token = true ->
                   filter isOperand (toRPN_loop prec rest (result ++ [token]) ops)
                   = filter isOperand result ++ filter isOperand (token :: rest)).
    { intro Ht. rewrite IH by assumption. rewrite filter_app. simpl.
      rewrite Ht, <- app_assoc. reflexivity. }
    assert (Hop : isOperand token = false ->
                  filter isOperand
                    (let '(ops', result') := popOps prec (prec token) ops result in
                     toRPN_loop prec rest result' (token :: ops'))
                  = filter isOperand result ++ filter isOperand (token :: rest)).
    { intro Ht.
      destruct (popOps_spec (prec token) ops result) as (popped & H1 & H2).
      destruct (popOps prec (prec token) ops result) as [ops' result'].
      simpl in H1, H2. subst result'.
      rewrite H1, filter_app in Hops. apply app_eq_nil in Hops.
      destruct Hops as [Hp Ho].
      rewrite IH by (simpl; rewrite Ht; assumption).
      rewrite filter_app, Hp, app_nil_r. simpl. rewrite Ht. reflexivity. }
    simpl. unfold isOperandBy in Hval, Hop.
    destruct (prec token) eqn:E; auto.
Qed.
End ToRPNFacts.

(** X12. [toRPN] only reorders: its result is a permutation of the
    tokens it was given (none is lost, added or repeated), and the
    values and unary operators come out in the order they went in; only
    binary operators and markers move. *)
Theorem X12_toRPN_reorders_operators_only (tokens : list Token) :
  Permutation (toRPN precedence tokens) tokens
  /\ List.length (toRPN precedence tokens) = List.length tokens
  /\ filter isValueOrUnary (toRPN precedence tokens)
     = filter isValueOrUnary tokens.
Proof.
  assert (Hp : Permutation (toRPN precedence tokens) tokens)
    by apply (toRPN_loop_Permutation precedence tokens [] []).
  split; [assumption|]. split; [apply Permutation_length, Hp|].
  apply (toRPN_loop_operands precedence tokens [] []). reflexivity.
Qed.

(** ** Evaluation *)

(** X13. For three value tokens with two binary operators between them,
    the left operator is applied first exactly when its precedence is at
    least that of the right one (so equal precedence associates to the
    left, also for [^] and [E]); otherwise the right operator is applied
    first and its result is the right operand of the left one. *)
Theorem X13_two_operators_precedence_law
    (Math : MathObject) (env : Environment)
    (a b c : Token) (o1 o2 : BinOp.t) (x y z : float)
    (Ha : forall args, evaluate Math env a args = Ok (Num x))
    (Hb : forall args, evaluate Math env b args = Ok (Num y))
    (Hc : forall args, evaluate Math env c args = Ok (Num z))
    (Pa : precedence a = Precedence.symbol)
    (Pb : precedence b = Precedence.symbol)
    (Pc : precedence c = Precedence.symbol) :
  evaluate Math env (GroupToken [a; BinaryToken o1; b; BinaryToken o2; c]) []
  = Ok (Num
          (if Precedence.geb (precedence (BinaryToken o1))
                (precedence (BinaryToken o2))
           then BinaryToken_evaluate Math o2
                  [Num (BinaryToken_evaluate Math o1 [Num x; Num y]); Num z]
           else BinaryToken_evaluate Math o1
                  [Num x; Num (BinaryToken_evaluate Math o2 [Num y; Num z])])).
Proof. apply evaluate_two_operators; assumption. Qed.

Lemma X13_two_operators_precedence_law_witness :
  evaluate Math_small no_history
    (GroupToken [NumberToken_new D8; BinaryToken BinOp.sub;
                 NumberToken_new D6; BinaryToken BinOp.div;
                 NumberToken_new D3]) []
  = Ok (Num 6).
Proof.
  apply (X13_two_operators_precedence_law Math_small no_history
           (NumberToken_new D8) (NumberToken_new D6) (NumberToken_new D3)
           BinOp.sub BinOp.div 8 6 3); reflexivity.
Defined.

Lemma reduce_fails_on_marker (numbers : Numbers)
    (rpn : list (Precedence.t * (list value -> result value)))
    (p : Precedence.t) (ev : list value -> result value) :
  In (p, ev) rpn ->
  p = Precedence.open \/ p = Precedence.eq ->
  (forall args, exists e, ev args = Err e) ->
  exists e, reduce numbers rpn = Err e.
Proof.
  intros Hin Hp Hev. revert numbers.
  induction rpn as [|x rpn IH]; intro numbers; [contradiction|].
  change (exists e, numbers' <- reduce_step numbers x ;; reduce numbers' rpn
                    = Err e).
  destruct Hin as [->|Hin].
  - assert (Hstep : exists e, reduce_step numbers (p, ev) = Err e).
    { unfold reduce_step.
      destruct (Numbers_splice2 numbers) as [args numbers'].
      destruct (Hev args) as [e He].
      destruct Hp as [-> | ->]; rewrite He; exists e; reflexivity. }
    destruct Hstep as [e ->]. exists e. reflexivity.
  - destruct (reduce_step numbers x) as [numbers'|e].
    + simpl. apply IH, Hin.
    + exists e. reflexivity.
Qed.

Lemma reduce_errors_are_throws (numbers : Numbers)
    (rpn : list (Precedence.t * (list value -> result value))) (e : error) :
  Forall (fun x => forall args e', snd x args = Err e' ->
                                   exists msg, e' = Thrown msg) rpn ->
  reduce numbers rpn = Err e ->
  exists msg, e = Thrown msg.
Proof.
  intro Hall. revert numbers.
  induction Hall as [|[p ev] rpn Hx _ IH]; intros numbers H.
  - discriminate.
  - change (numbers' <- reduce_step numbers (p, ev) ;; reduce numbers' rpn
            = Err e) in H.
    destruct (reduce_step numbers (p, ev)) as [numbers'|e'] eqn:E; simpl in H.
    + eapply IH, H.
    + inversion H; subst. unfold reduce_step in E. simpl in Hx.
      destruct (Numbers_splice2 numbers) as [args numbers'].
      destruct p;
        match type of E with
        | context [ev ?a] =>
            destruct (ev a) as [v|e0] eqn:Ev; simpl in E;
            [discriminate | inversion E; subst; eapply Hx, Ev]
        end.
Qed.

(** Evaluation fails by a thrown exception only. *)
Lemma evaluate_errors_are_throws (Math : MathObject) (env : Environment)
    (t : Token) :
  forall args e, evaluate Math env t args = Err e -> exists msg, e = Thrown msg.
Proof.
  induction t as [negative number|op|op|tokens IH|op| |]
    using Token_nested_ind; intros args e H;
    try (simpl in H; discriminate);
    try (simpl in H; inversion H; eexists; reflexivity).
  rewrite evaluate_GroupToken in H.
  destruct (reduce _ _) as [numbers|e'] eqn:E; simpl in H; [discriminate|].
  inversion H; subst. eapply reduce_errors_are_throws; [|exact E].
  apply Forall_forall. intros [p ev] Hin.
  apply in_map_iff in Hin. destruct Hin as (t & Heq & Hin).
  inversion Heq; subst. simpl.
  assert (Hin' : In t tokens).
  { eapply Permutation_in; [|exact Hin].
    apply (toRPN_loop_Permutation precedence tokens [] []). }
  intros args0 e0. apply (proj1 (Forall_forall _ _) IH t Hin').
Qed.

(** X14. Evaluating a sequence that still holds an Open or Equals marker
    at its top level fails with a thrown exception, whatever else it
    holds: no number is ever produced from an unmatched parenthesis. And
    evaluation never fails in any other way than by a throw. *)
Theorem X14_markers_make_evaluation_throw
    (Math : MathObject) (env : Environment) (tokens : list Token)
    (args : list value)
    (Hmarker : In OpenToken tokens \/ In EqToken tokens) :
  (exists msg, evaluate Math env (GroupToken tokens) args = Err (Thrown msg))
  /\ (forall t args' e,
        evaluate Math env t args' = Err e -> exists msg, e = Thrown msg).
Proof.
  split; [|intros t args' e; apply evaluate_errors_are_throws].
  assert (Herr : exists e, evaluate Math env (GroupToken tokens) args = Err e).
  { rewrite evaluate_GroupToken.
    assert (Hp : forall t, In t tokens -> In t (toRPN precedence tokens)).
    { intros t Hin. eapply Permutation_in; [|exact Hin].
      apply Permutation_sym.
      apply (toRPN_loop_Permutation precedence tokens [] []). }
    destruct Hmarker as [Hin|Hin]; apply Hp in Hin;
      apply (in_map (fun token => (precedence token, evaluate Math env token)))
        in Hin;
      destruct (reduce_fails_on_marker {| items := []; minus1 := Undefined |}
                  _ _ _ Hin) as [e He];
      try (simpl; auto);
      try (intros; eexists; reflexivity);
      rewrite He; exists e; reflexivity. }
  destruct Herr as [e He].
  destruct (evaluate_errors_are_throws _ _ _ _ _ He) as [msg ->].
  exists msg. exact He.
Qed.

Lemma X14_markers_make_evaluation_throw_witness :
  exists msg,
    evaluate Math_small no_history
      (GroupToken [NumberToken_new D1; BinaryToken BinOp.add; OpenToken;
                   NumberToken_new D2]) []
    = Err (Thrown msg).
Proof.
  apply (X14_markers_make_evaluation_throw Math_small no_history
           [NumberToken_new D1; BinaryToken BinOp.add; OpenToken;
            NumberToken_new D2] []).
  left. simpl. auto.
Defined.

(** X15. The simplest sequences evaluate as expected: a lone value token
    evaluates to its own value (parentheses around a value change
    nothing, and a Group ignores its arguments); a value followed by a
    unary operator applies the operator to the value; two values around
    a binary operator apply it to the left and right value in that
    order. *)
Theorem X15_value_unary_binary
    (Math : MathObject) (env : Environment) (a b : Token) (x y : value)
    (Pa : precedence a = Precedence.symbol)
    (Pb : precedence b = Precedence.symbol)
    (Ha : evaluate Math env a [] = Ok x)
    (Hb : evaluate Math env b [] = Ok y) :
  (forall args, evaluate Math env (GroupToken [a]) args = Ok x)
  /\ (forall args, evaluate Math env (GroupToken [GroupToken [a]]) args = Ok x)
  /\ (forall op args,
        evaluate Math env (GroupToken [a; UnaryToken op]) args
        = Ok (Num (UnaryToken_evaluate Math op [x])))
  /\ (forall op args,
        evaluate Math env (GroupToken [a; BinaryToken op; b]) args
        = Ok (Num (BinaryToken_evaluate Math op [x; y]))).
Proof.
  assert (H1 : forall args, evaluate Math env (GroupToken [a]) args = Ok x).
  { intro args. rewrite evaluate_GroupToken. unfold toRPN. simpl.
    rewrite Pa. simpl. rewrite Pa, Ha. reflexivity. }
  split; [assumption|]. split; [|split].
  - intro args. rewrite evaluate_GroupToken. unfold toRPN.
    cbn [toRPN_loop precedence app map reduce reduce_step].
    rewrite H1. reflexivity.
  - intros op args. rewrite evaluate_GroupToken. unfold toRPN. simpl.
    rewrite Pa. simpl. rewrite Pa, Ha. reflexivity.
  - intros op args. rewrite evaluate_GroupToken. unfold toRPN. simpl.
    rewrite Pa. destruct op; simpl; rewrite Pb; simpl;
      rewrite Pa, Ha; simpl; rewrite Pb, Hb; reflexivity.
Qed.

Lemma X15_value_unary_binary_witness :
  evaluate Math_small no_history
    (GroupToken [NumberToken_new D9; UnaryToken UnOp.sqrt]) []
  = Ok (Num (UnaryToken_evaluate Math_small UnOp.sqrt [Num 9])).
Proof.
  apply (X15_value_unary_binary Math_small no_history
           (NumberToken_new D9) (NumberToken_new D9) (Num 9) (Num 9));
    reflexivity.
Defined.

(** ** More on the codec *)

(** X16. Encoding loses nothing: two tokens with the same serialized
    form are the same token, and two sequences with the same serialized
    form are the same sequence. *)
Theorem X16_serializeToken_is_injective :
  (forall t1 t2 : Token, serializeToken t1 = serializeToken t2 -> t1 = t2)
  /\ (forall s1 s2 : list Token,
        map serializeToken s1 = map serializeToken s2 -> s1 = s2).
Proof.
  split.
  - intros t1 t2 H.
    pose proof (deserialize_serialize t1) as H1.
    rewrite H, deserialize_serialize in H1. inversion H1. reflexivity.
  - intros s1 s2 H.
    assert (H1 : mapM deserializeToken (map serializeToken s1) = Ok s1).
    { apply mapM_deserialize_serialize, Forall_forall.
      intros t _. apply deserialize_serialize. }
    assert (H2 : mapM deserializeToken (map serializeToken s2) = Ok s2).
    { apply mapM_deserialize_serialize, Forall_forall.
      intros t _. apply deserialize_serialize. }
    rewrite H, H2 in H1. inversion H1. reflexivity.
Qed.

(** ** The history and its storage *)

Lemma StronglySorted_snoc (l : list Z) (x : Z) :
  StronglySorted Z.lt l -> Forall (fun i => (i < x)%Z) l ->
  StronglySorted Z.lt (l ++ [x]).
Proof.
  induction 1 as [|a l Hl IH Ha]; intro Hx; simpl.
  - repeat constructor.
  - inversion Hx; subst. constructor; [apply IH; assumption|].
    apply Forall_app. split; [assumption|]. repeat constructor. assumption.
Qed.

Lemma StronglySorted_app_inv (l1 l2 : list Z) :
  StronglySorted Z.lt (l1 ++ l2) ->
  StronglySorted Z.lt l1 /\ StronglySorted Z.lt l2
  /\ (forall a b, In a l1 -> In b l2 -> (a < b)%Z).
Proof.
  induction l1 as [|x l1 IH]; simpl; intro H.
  - repeat split; [constructor|assumption|contradiction].
  - inversion H as [|? ? Hs Hf]; subst.
    destruct (IH Hs) as (H1 & H2 & H3).
    apply Forall_app in Hf. destruct Hf as [Hf1 Hf2].
    repeat split; [constructor; assumption|assumption|].
    intros a b [<-|Ha] Hb.
    + apply (proj1 (Forall_forall _ _) Hf2 b Hb).
    + apply H3; assumption.
Qed.

Lemma StronglySorted_app (l1 l2 : list Z) :
  StronglySorted Z.lt l1 -> StronglySorted Z.lt l2 ->
  (forall a b, In a l1 -> In b l2 -> (a < b)%Z) ->
  StronglySorted Z.lt (l1 ++ l2).
Proof.
  induction 1 as [|x l1 Hs IH Hf]; intros H2 H; simpl.
  - assumption.
  - constructor.
    + apply IH; [assumption|]. intros a b Ha Hb. apply H; simpl; auto.
    + apply Forall_app. split; [assumption|].
      apply Forall_forall. intros b Hb. apply H; simpl; auto.
Qed.

Lemma last_default_irrelevant {A : Type} (l : list A) (a d d' : A) :
  last (a :: l) d = last (a :: l) d'.
Proof.
  revert a. induction l as [|b l IH]; intro a; [reflexivity|].
  change (last (b :: l) d = last (b :: l) d'). apply IH.
Qed.

Lemma last_cons_self {A : Type} (l : list A) (a : A) :
  last (a :: l) a = last l a.
Proof. destruct l; reflexivity. Qed.

Lemma sorted_last_is_greatest (i : Z) (l : list Z) :
  StronglySorted Z.lt (i :: l) ->
  Forall (fun k => (k < last l i + 1)%Z) (i :: l).
Proof.
  revert i. induction l as [|j l IH]; intros i H.
  - simpl. repeat constructor. lia.
  - inversion H as [|? ? Hs Hf]; subst.
    pose proof (IH j Hs) as Hj.
    rewrite (last_default_irrelevant l j i j), last_cons_self.
    constructor; [|assumption].
    inversion Hf; subst. inversion Hj; subst. lia.
Qed.

Lemma sorted_not_in_tail (i : Z) (l : list Z) :
  StronglySorted Z.lt (i :: l) -> ~ In i l.
Proof.
  intros H Hin. inversion H as [|? ? _ Hf]; subst.
  pose proof (proj1 (Forall_forall _ _) Hf i Hin). lia.
Qed.

Lemma splice1_in_range {A : Type} (l : list A) (k : nat) (x : A) :
  nth_error l k = Some x ->
  splice1 l (Z.of_nat k) = (Some x, firstn k l ++ skipn (S k) l)
  /\ l = firstn k l ++ x :: skipn (S k) l.
Proof.
  intro H. assert (Hk : k < List.length l)
    by (apply nth_error_Some; rewrite H; discriminate).
  unfold splice1.
  replace (Z.of_nat k <? 0)%Z with false by (symmetry; apply Z.ltb_ge; lia).
  rewrite Z.min_l by lia. rewrite Nat2Z.id, H. split; [reflexivity|].
  rewrite <- (firstn_skipn k l) at 1. f_equal.
  rewrite <- (firstn_skipn k l) in H.
  rewrite nth_error_app2 in H by (rewrite length_firstn; lia).
  rewrite length_firstn, Nat.min_l, Nat.sub_diag in H by lia.
  destruct (skipn k l) as [|y r] eqn:E; [discriminate|].
  simpl in H. inversion H; subst.
  replace (skipn (S k) l) with r; [reflexivity|].
  change (S k) with (1 + k). rewrite <- skipn_skipn, E. reflexivity.
Qed.

Lemma splice1_out_of_range {A : Type} (l : list A) (start : Z) :
  (Z.of_nat (List.length l) <= start)%Z ->
  splice1 l start = (None, l).
Proof.
  intro H. unfold splice1.
  replace (start <? 0)%Z with false by (symmetry; apply Z.ltb_ge; lia).
  rewrite Z.min_r by lia. rewrite Nat2Z.id.
  rewrite (proj2 (nth_error_None l (List.length l))) by lia.
  rewrite firstn_all, skipn_all2 by lia. rewrite app_nil_r. reflexivity.
Qed.

(** The position [splice(start, 1)] acts on. *)
Lemma splice1_position {A : Type} (l : list A) (start : Z) :
  exists k,
    k <= List.length l
    /\ splice1 l start = (nth_error l k, firstn k l ++ skipn (S k) l)
    /\ forall B (l' : list B),
         List.length l' = List.length l ->
         splice1 l' start = (nth_error l' k, firstn k l' ++ skipn (S k) l').
Proof.
  unfold splice1.
  exists (Z.to_nat (if (start <? 0)%Z
                    then Z.max (Z.of_nat (List.length l) + start) 0
                    else Z.min start (Z.of_nat (List.length l)))).
  split; [|split].
  - destruct (start <? 0)%Z eqn:E; [apply Z.ltb_lt in E|apply Z.ltb_ge in E]; lia.
  - reflexivity.
  - intros B l' ->. reflexivity.
Qed.

Lemma Forall2_impl_In {A B : Type} (R R' : A -> B -> Prop)
    (l : list A) (l' : list B) :
  Forall2 R l l' ->
  (forall a b, In a l -> R a b -> R' a b) ->
  Forall2 R' l l'.
Proof.
  induction 1 as [|a b l l' Hab _ IH]; intro H.
  - constructor.
  - constructor; [apply H; simpl; auto|].
    apply IH. intros a' b' Hin. apply H. simpl. auto.
Qed.

Lemma Forall2_firstn_skipn {A B : Type} (R : A -> B -> Prop) (k : nat)
    (l : list A) (l' : list B) :
  Forall2 R l l' ->
  Forall2 R (firstn k l) (firstn k l') /\ Forall2 R (skipn k l) (skipn k l').
Proof.
  intro H. revert k. induction H as [|a b l l' Hab H IH]; intro k.
  - rewrite !firstn_nil, !skipn_nil. split; constructor.
  - destruct k as [|k]; simpl.
    + split; constructor; assumption.
    + destruct (IH k). split; [constructor|]; assumption.
Qed.

Lemma saveAns_keeps_invariants (formula0 : list Token) (ans0 : float)
    (env : Environment) (storage : Storage) :
  historyBounded env -> inSync env storage ->
  historyBounded (fst (saveAns formula0 ans0 (env, storage)))
  /\ inSync (fst (saveAns formula0 ans0 (env, storage)))
       (snd (saveAns formula0 ans0 (env, storage))).
Proof.
  destruct env as [indices entries pa].
  intros (Hlen & Hmax & Hsorted & Hpos) (Hhi & Hrec & Hnone).
  simpl in Hlen, Hmax, Hsorted, Hpos, Hhi, Hrec, Hnone.
  set (next := match indices with
               | [] => 0%Z
               | i :: l => (last l i + 1)%Z
               end).
  assert (Hnext : Forall (fun k => (k < next)%Z) indices /\ (0 <= next)%Z).
  { subst next. destruct indices as [|i l]; [split; [constructor|lia]|].
    pose proof (sorted_last_is_greatest i l Hsorted) as H. split; [exact H|].
    inversion H; subst. inversion Hpos; subst. lia. }
  destruct Hnext as [Hnext Hnext0].
  destruct (Nat.leb MAX_HISTORY_COUNT (List.length indices)) eqn:Hfull.
  - destruct indices as [|d rest]; [discriminate|].
    destruct entries as [|e erest]; [discriminate|].
    assert (Heq : saveAns formula0 ans0
                    ({| historyIndices := d :: rest; history := e :: erest;
                        partialAns := pa |}, storage)
                  = ({| historyIndices := rest ++ [next];
                        history := erest ++ [{| formula := formula0;
                                                ans := ans0 |}];
                        partialAns := pa |},
                     setItem_hI (rest ++ [next])
                       (setItem_hV next
                          {| item_formula := map serializeToken formula0;
                             item_ans := JSON_number ans0 |}
                          (removeItem_hV d storage)))).
    { unfold saveAns.
      cbv beta iota delta [historyIndices history partialAns].
      rewrite Hfull. reflexivity. }
    rewrite Heq. clear Heq. apply Nat.leb_le in Hfull.
    inversion Hsorted as [|? ? Hs Hd]; subst.
    inversion Hnext as [|? ? Hdn Hrn]; subst.
    inversion Hpos as [|? ? Hd0 Hr0]; subst.
    inversion Hrec as [|? ? ? ? Hde Hrest]; subst.
    unfold historyBounded, inSync, getItem_hI.
    cbn [fst snd tl historyIndices history partialAns setItem_hI hI].
    split; [|split; [|split]].
    + repeat split.
      * rewrite !length_app. simpl in *. lia.
      * rewrite length_app. simpl in *. lia.
      * apply StronglySorted_snoc; assumption.
      * apply Forall_app. split; [assumption|repeat constructor; assumption].
    + reflexivity.
    + apply Forall2_app.
      * eapply Forall2_impl_In; [exact Hrest|].
        intros a b Hin Hab. cbn [setItem_hI setItem_hV removeItem_hV hV].
        pose proof (proj1 (Forall_forall _ _) Hrn a Hin).
        pose proof (proj1 (Forall_forall _ _) Hd a Hin).
        cbv beta in *.
        replace (a =? next)%Z with false by (symmetry; apply Z.eqb_neq; lia).
        replace (a =? d)%Z with false by (symmetry; apply Z.eqb_neq; lia).
        exact Hab.
      * repeat constructor. cbn [setItem_hI setItem_hV removeItem_hV hV formula ans].
        rewrite Z.eqb_refl. reflexivity.
    + intros k Hk. cbn [setItem_hI setItem_hV removeItem_hV hV].
      destruct (k =? next)%Z eqn:E1.
      { apply Z.eqb_eq in E1. subst. exfalso. apply Hk, in_or_app.
        right. simpl. auto. }
      destruct (k =? d)%Z eqn:E2; [reflexivity|].
      apply Hnone. intros [->|Hin].
      * rewrite Z.eqb_refl in E2. discriminate.
      * apply Hk, in_or_app. auto.
  - assert (Heq : saveAns formula0 ans0
                    ({| historyIndices := indices; history := entries;
                        partialAns := pa |}, storage)
                  = ({| historyIndices := indices ++ [next];
                        history := entries ++ [{| formula := formula0;
                                                  ans := ans0 |}];
                        partialAns := pa |},
                     setItem_hI (indices ++ [next])
                       (setItem_hV next
                          {| item_formula := map serializeToken formula0;
                             item_ans := JSON_number ans0 |} storage))).
    { unfold saveAns.
      cbv beta iota delta [historyIndices history partialAns].
      rewrite Hfull. reflexivity. }
    rewrite Heq. clear Heq. apply Nat.leb_gt in Hfull.
    unfold historyBounded, inSync, getItem_hI.
    cbn [fst snd historyIndices history partialAns setItem_hI hI].
    split; [|split; [|split]].
    + repeat split.
      * rewrite !length_app. simpl. lia.
      * rewrite length_app. simpl. lia.
      * apply StronglySorted_snoc; assumption.
      * apply Forall_app. split; [assumption|repeat constructor; assumption].
    + reflexivity.
    + apply Forall2_app.
      * eapply Forall2_impl_In; [exact Hrec|].
        intros a b Hin Hab. cbn [setItem_hI setItem_hV hV].
        pose proof (proj1 (Forall_forall _ _) Hnext a Hin).
        cbv beta in *.
        replace (a =? next)%Z with false by (symmetry; apply Z.eqb_neq; lia).
        exact Hab.
      * repeat constructor. cbn [setItem_hI setItem_hV hV formula ans].
        rewrite Z.eqb_refl. reflexivity.
    + intros k Hk. cbn [setItem_hI setItem_hV hV].
      destruct (k =? next)%Z eqn:E1.
      { apply Z.eqb_eq in E1. subst. exfalso. apply Hk, in_or_app.
        right. simpl. auto. }
      apply Hnone. intro Hin. apply Hk, in_or_app. auto.
Qed.

Lemma In_firstn_list {A : Type} (k : nat) (l : list A) (x : A) :
  In x (firstn k l) -> In x l.
Proof.
  intro H. rewrite <- (firstn_skipn k l). apply in_or_app. auto.
Qed.

Lemma In_skipn_list {A : Type} (k : nat) (l : list A) (x : A) :
  In x (skipn k l) -> In x l.
Proof.
  intro H. rewrite <- (firstn_skipn k l). apply in_or_app. auto.
Qed.

Lemma firstn_skipn_S_In {A : Type} (k : nat) (l : list A) (x : A) :
  In x (firstn k l ++ skipn (S k) l) -> In x l.
Proof.
  intro H. apply in_app_or in H. destruct H as [H|H].
  - eapply In_firstn_list; eassumption.
  - eapply In_skipn_list; eassumption.
Qed.

Lemma deleteHistory_keeps_invariants (localIndex : Z)
    (env : Environment) (storage : Storage) :
  historyBounded env -> inSync env storage ->
  historyBounded (fst (deleteHistory localIndex (env, storage)))
  /\ inSync (fst (deleteHistory localIndex (env, storage)))
       (snd (deleteHistory localIndex (env, storage))).
Proof.
  destruct env as [indices entries pa].
  intros (Hlen & Hmax & Hsorted & Hpos) (Hhi & Hrec & Hnone).
  simpl in Hlen, Hmax, Hsorted, Hpos, Hhi, Hrec, Hnone.
  destruct (splice1_position indices localIndex) as (k & Hk & Hi & Hother).
  specialize (Hother _ entries (eq_sym Hlen)).
  unfold deleteHistory. cbv beta iota delta [historyIndices history partialAns].
  rewrite Hi, Hother. clear Hi Hother.
  unfold historyBounded, inSync, getItem_hI.
  cbn [fst snd historyIndices history partialAns setItem_hI hI hV].
  assert (Hsplit : indices = firstn k indices ++ skipn k indices)
    by (symmetry; apply firstn_skipn).
  assert (Hsorted' : StronglySorted Z.lt (firstn k indices ++ skipn (S k) indices)).
  { rewrite Hsplit in Hsorted.
    apply StronglySorted_app_inv in Hsorted. destruct Hsorted as (H1 & H2 & H3).
    apply StronglySorted_app; [assumption| |].
    - change (S k) with (1 + k). rewrite <- skipn_skipn.
      destruct (skipn k indices); [constructor|].
      simpl. inversion H2; assumption.
    - intros a b Ha Hb. apply H3; [assumption|].
      change (S k) with (1 + k) in Hb. rewrite <- skipn_skipn in Hb.
      eapply In_skipn_list; eassumption. }
  destruct (Forall2_firstn_skipn _ k _ _ Hrec) as [Hrec1 _].
  destruct (Forall2_firstn_skipn _ (S k) _ _ Hrec) as [_ Hrec2].
  split; [|split; [|split]].
  - repeat split.
    + rewrite !length_app, !length_firstn, !length_skipn. lia.
    + rewrite length_app, length_firstn, length_skipn. lia.
    + assumption.
    + apply Forall_forall. intros x Hx.
      apply (proj1 (Forall_forall _ _) Hpos x (firstn_skipn_S_In _ _ _ Hx)).
  - reflexivity.
  - pose proof (Forall2_app Hrec1 Hrec2) as Hall.
    eapply Forall2_impl_In; [exact Hall|].
    intros a b Hin Hab.
    destruct (nth_error indices k) as [i|] eqn:E; [|exact Hab].
    cbn [removeItem_hV hV].
    replace (a =? i)%Z with false; [exact Hab|].
    symmetry. apply Z.eqb_neq. intros ->.
    destruct (splice1_in_range indices k i E) as [_ Hdecomp].
    rewrite Hdecomp in Hsorted.
    apply StronglySorted_app_inv in Hsorted. destruct Hsorted as (_ & H2 & H3).
    apply in_app_or in Hin. destruct Hin as [Hin|Hin].
    + specialize (H3 i i Hin ltac:(simpl; auto)). lia.
    + apply (sorted_not_in_tail i _ H2 Hin).
  - intros x Hx.
    destruct (nth_error indices k) as [i|] eqn:E.
    + cbn [removeItem_hV hV]. destruct (x =? i)%Z eqn:Exi; [reflexivity|].
      apply Hnone. intro Hin. apply Hx.
      destruct (splice1_in_range indices k i E) as [_ Hdecomp].
      rewrite Hdecomp in Hin. apply in_app_or in Hin.
      apply in_or_app. destruct Hin as [Hin|[->|Hin]]; auto.
      rewrite Z.eqb_refl in Exi. discriminate.
    + apply Hnone. intro Hin. apply Hx.
      apply nth_error_None in E.
      rewrite firstn_all2 by lia. apply in_or_app. auto.
Qed.

Lemma historyStep_keeps_invariants (op : HistoryOp)
    (state : Environment * Storage) :
  historyBounded (fst state) -> inSync (fst state) (snd state) ->
  historyBounded (fst (historyStep state op))
  /\ inSync (fst (historyStep state op)) (snd (historyStep state op)).
Proof.
  destruct state as [env storage]. destruct op; simpl.
  - apply saveAns_keeps_invariants.
  - apply deleteHistory_keeps_invariants.
Qed.

Lemma history_run_keeps_invariants (ops : list HistoryOp)
    (state : Environment * Storage) :
  historyBounded (fst state) -> inSync (fst state) (snd state) ->
  historyBounded (fst (fold_left historyStep ops state))
  /\ inSync (fst (fold_left historyStep ops state))
       (snd (fold_left historyStep ops state)).
Proof.
  revert state. induction ops as [|op ops IH]; intros state Hb Hs; simpl.
  - auto.
  - destruct (historyStep_keeps_invariants op state Hb Hs). apply IH; assumption.
Qed.

Lemma initial_history_invariants :
  historyBounded no_history /\ inSync no_history empty_storage.
Proof.
  split.
  - repeat split; simpl; try constructor. unfold MAX_HISTORY_COUNT. lia.
  - repeat split; simpl; constructor.
Qed.

Lemma saveAns_history (formula0 : list Token) (ans0 : float)
    (env : Environment) (storage : Storage) :
  exists kept,
    history (fst (saveAns formula0 ans0 (env, storage)))
    = kept ++ [{| formula := formula0; ans := ans0 |}]
    /\ (kept = history env \/ kept = tl (history env))
    /\ partialAns (fst (saveAns formula0 ans0 (env, storage))) = partialAns env.
Proof.
  destruct env as [indices entries pa]. unfold saveAns.
  cbv beta iota delta [historyIndices history partialAns].
  destruct (Nat.leb MAX_HISTORY_COUNT (List.length indices)).
  - destruct indices; exists (tl entries); simpl; auto.
  - exists entries. simpl. auto.
Qed.

Lemma historyStep_keeps_exact (op : HistoryOp) (state : Environment * Storage) :
  answersExact (fst state) -> savedAnsIsExact op ->
  answersExact (fst (historyStep state op))
  /\ partialAns (fst (historyStep state op)) = partialAns (fst state).
Proof.
  destruct state as [env storage]. intros Hex Hop. unfold answersExact in *.
  destruct op as [formula0 ans0|localIndex]; simpl in Hex, Hop;
    cbn [historyStep].
  - destruct (saveAns_history formula0 ans0 env storage) as (kept & Hh & Hk & Hp).
    rewrite Hh. split; [|assumption]. apply Forall_app. split.
    + destruct Hk as [->| ->]; [assumption|].
      destruct (history env); [constructor|]. inversion Hex; assumption.
    + repeat constructor. exact Hop.
  - destruct env as [indices entries pa]. unfold deleteHistory.
    cbv beta iota delta [historyIndices history partialAns].
    destruct (splice1 indices localIndex) as [index indices1].
    unfold splice1. cbn [fst snd history partialAns].
    split; [|reflexivity]. simpl in Hex.
    apply Forall_forall. intros x Hx.
    apply (proj1 (Forall_forall _ _) Hex x (firstn_skipn_S_In _ _ _ Hx)).
Qed.

Lemma history_run_keeps_exact (ops : list HistoryOp)
    (state : Environment * Storage) :
  answersExact (fst state) -> Forall savedAnsIsExact ops ->
  answersExact (fst (fold_left historyStep ops state))
  /\ partialAns (fst (fold_left historyStep ops state)) = partialAns (fst state).
Proof.
  intros Hex Hops. revert state Hex.
  induction Hops as [|op ops Hop _ IH]; intros state Hex; simpl.
  - auto.
  - destruct (historyStep_keeps_exact op state Hex Hop) as [H1 H2].
    destruct (IH _ H1) as [H3 H4]. split; [assumption|]. congruence.
Qed.

Lemma Environment_load_in_sync (storage : Storage)
    (indices : list Z) (entries : list CalcHistory) :
  Forall2
    (fun index entry =>
       hV storage index
       = Some {| item_formula := map serializeToken (formula entry);
                 item_ans := JSON_number (ans entry) |})
    indices entries ->
  Forall (fun entry => JSON_number (ans entry) = Some (ans entry)) entries ->
  Environment_load storage indices = Ok (indices, entries).
Proof.
  induction 1 as [|index entry indices entries Hrec _ IH]; intro Hex.
  - reflexivity.
  - inversion Hex as [|? ? He Hrest]; subst. simpl. rewrite Hrec. simpl.
    rewrite mapM_deserialize_serialize
      by (apply Forall_forall; intros t _; apply deserialize_serialize).
    simpl. rewrite He. simpl. rewrite (IH Hrest). simpl.
    destruct entry. reflexivity.
Qed.

(** X17. From the empty history, after any sequence of [saveAns] and
    [deleteHistory] calls: there are as many ids as entries, at most 64
    of them; the ids are non-negative and strictly increasing (never
    reused while listed); and the storage agrees with the environment:
    ['hI'] holds the ids, each id has the record of its entry, and no
    record is left for any other id. *)
Theorem X17_history_bounded_and_in_sync (ops : list HistoryOp) :
  historyBounded (fst (fold_left historyStep ops (no_history, empty_storage)))
  /\ inSync (fst (fold_left historyStep ops (no_history, empty_storage)))
       (snd (fold_left historyStep ops (no_history, empty_storage))).
Proof.
  apply history_run_keeps_invariants; apply initial_history_invariants.
Qed.

(** X18. Reloading gives back what was saved: after any sequence of
    [saveAns] and [deleteHistory] calls from the empty history, with
    answers that JSON stores exactly (finite and not [-0]),
    [new Environment()] over the resulting storage returns the
    environment the program holds, with the same ids, formulas and
    answers. *)
Theorem X18_reload_restores_history (ops : list HistoryOp)
    (Hexact : Forall savedAnsIsExact ops) :
  Environment_new (snd (fold_left historyStep ops (no_history, empty_storage)))
  = Ok (fst (fold_left historyStep ops (no_history, empty_storage))).
Proof.
  destruct (history_run_keeps_invariants ops (no_history, empty_storage))
    as [_ (Hhi & Hrec & _)]; try apply initial_history_invariants.
  destruct (history_run_keeps_exact ops (no_history, empty_storage))
    as [Hex Hpa]; [constructor|assumption|].
  destruct (fold_left historyStep ops (no_history, empty_storage))
    as [env storage]. simpl in *.
  unfold Environment_new. rewrite Hhi.
  rewrite (Environment_load_in_sync storage _ _ Hrec Hex). simpl.
  destruct env. simpl in *. rewrite Hpa. reflexivity.
Qed.

Lemma X18_reload_restores_history_witness :
  Environment_new
    (snd (fold_left historyStep
            [SaveAns [NumberToken_new D2; BinaryToken BinOp.add;
                      NumberToken_new D3; EqToken] 5;
             SaveAns [SymbolToken SymOp.ans; UnaryToken UnOp.sqrt; EqToken] 2.5;
             DeleteHistory 0]
            (no_history, empty_storage)))
  = Ok (fst (fold_left historyStep
               [SaveAns [NumberToken_new D2; BinaryToken BinOp.add;
                         NumberToken_new D3; EqToken] 5;
                SaveAns [SymbolToken SymOp.ans; UnaryToken UnOp.sqrt; EqToken]
                  2.5;
                DeleteHistory 0]
               (no_history, empty_storage))).
Proof.
  apply X18_reload_restores_history.
  repeat constructor.
Defined.

Lemma last_entry_of_snoc {A B : Type} (f : A -> B) (d : B)
    (kept : list A) (x : A) :
  match kept ++ [x] with
  | [] => d
  | h :: hs => f (last hs h)
  end = f x.
Proof.
  destruct kept as [|k kept]; simpl.
  - reflexivity.
  - rewrite last_last. reflexivity.
Qed.

(** X19. Right after [saveAns(formula, ans)] the symbol Ans evaluates to
    [ans], whatever the history was and whether or not an old entry was
    evicted; with an empty history Ans evaluates to 0. *)
Theorem X19_ans_is_the_answer_just_saved
    (Math : MathObject) (formula0 : list Token) (ans0 : float)
    (state : Environment * Storage) (args : list value) :
  evaluate Math (fst (saveAns formula0 ans0 state)) (SymbolToken SymOp.ans) args
  = Ok (Num ans0)
  /\ evaluate Math no_history (SymbolToken SymOp.ans) args = Ok (Num 0).
Proof.
  split; [|reflexivity].
  destruct state as [env storage].
  destruct (saveAns_history formula0 ans0 env storage) as (kept & Hh & _).
  change (Ok (Num (SymbolToken_evaluate
                     (fst (saveAns formula0 ans0 (env, storage))) SymOp.ans))
          = Ok (Num ans0)).
  unfold SymbolToken_evaluate. rewrite Hh.
  rewrite (last_entry_of_snoc ans). reflexivity.
Qed.

(** X20. Eviction: when the history holds 64 entries, [saveAns] drops the
    oldest entry (the first, with the lowest id) from both lists, removes
    its record from the storage, and appends the new entry under the id
    following the last one, so 64 entries remain. Below 64 entries it
    only appends: every earlier entry and record stays. In both cases
    the new record is stored under the new id. *)
Theorem X20_saveAns_evicts_the_oldest
    (formula0 : list Token) (ans0 : float)
    (env : Environment) (storage : Storage)
    (Hbounded : historyBounded env) (Hsync : inSync env storage) :
  let env' := fst (saveAns formula0 ans0 (env, storage)) in
  let storage' := snd (saveAns formula0 ans0 (env, storage)) in
  let entry := {| formula := formula0; ans := ans0 |} in
  (List.length (historyIndices env) = MAX_HISTORY_COUNT ->
   exists oldest rest,
     historyIndices env = oldest :: rest
     /\ historyIndices env' = rest ++ [(last rest oldest + 1)%Z]
     /\ history env' = tl (history env) ++ [entry]
     /\ List.length (history env') = MAX_HISTORY_COUNT
     /\ hV storage' oldest = None
     /\ ~ In oldest (historyIndices env'))
  /\ (List.length (historyIndices env) < MAX_HISTORY_COUNT ->
      exists next,
        historyIndices env' = historyIndices env ++ [next]
        /\ history env' = history env ++ [entry]
        /\ (forall i, In i (historyIndices env) ->
                      hV storage' i = hV storage i))
  /\ (exists kept next,
        historyIndices env' = kept ++ [next]
        /\ hV storage' next
           = Some {| item_formula := map serializeToken formula0;
                     item_ans := JSON_number ans0 |}).
Proof.
  destruct env as [indices entries pa].
  destruct Hbounded as (Hlen & Hmax & Hsorted & Hpos).
  simpl in Hlen, Hmax, Hsorted, Hpos.
  cbv zeta. unfold saveAns.
  cbv beta iota delta [historyIndices history partialAns].
  split; [|split].
  - intro Hfull. rewrite Hfull, Nat.leb_refl.
    destruct indices as [|oldest rest]; [discriminate|].
    exists oldest, rest. cbn [fst snd historyIndices history].
    split; [reflexivity|]. split; [reflexivity|]. split; [reflexivity|].
    pose proof (sorted_last_is_greatest oldest rest Hsorted) as Hlast.
    inversion Hlast as [|? ? Ho Hr]; subst.
    split; [|split].
    + rewrite length_app. destruct entries; [discriminate|].
      simpl in *. lia.
    + cbn [setItem_hI setItem_hV removeItem_hV hV].
      replace (oldest =? last rest oldest + 1)%Z with false
        by (symmetry; apply Z.eqb_neq; lia).
      rewrite Z.eqb_refl. reflexivity.
    + intro Hin. apply in_app_or in Hin. destruct Hin as [Hin|[Hin|[]]].
      * apply (sorted_not_in_tail oldest rest Hsorted Hin).
      * lia.
  - intro Hless.
    replace (Nat.leb MAX_HISTORY_COUNT (List.length indices)) with false
      by (symmetry; apply Nat.leb_gt; assumption).
    eexists. cbn [fst snd historyIndices history].
    split; [reflexivity|]. split; [reflexivity|].
    intros i Hin. cbn [setItem_hI setItem_hV hV].
    destruct indices as [|i0 l]; [contradiction|].
    pose proof (sorted_last_is_greatest i0 l Hsorted) as Hlast.
    pose proof (proj1 (Forall_forall _ _) Hlast i Hin) as Hi. cbv beta in Hi.
    replace (i =? last l i0 + 1)%Z with false
      by (symmetry; apply Z.eqb_neq; lia).
    reflexivity.
  - destruct (Nat.leb MAX_HISTORY_COUNT (List.length indices));
      [destruct indices|]; eexists _, _; cbn [fst snd historyIndices];
      (split; [reflexivity|]); cbn [setItem_hI setItem_hV hV];
      rewrite Z.eqb_refl; reflexivity.
Qed.

Lemma X20_saveAns_evicts_the_oldest_witness :
  exists oldest rest,
    historyIndices (fst full_history) = oldest :: rest
    /\ historyIndices
         (fst (saveAns [NumberToken_new D1; EqToken] 1
                 (fst full_history, snd full_history)))
       = rest ++ [(last rest oldest + 1)%Z]
    /\ history
         (fst (saveAns [NumberToken_new D1; EqToken] 1
                 (fst full_history, snd full_history)))
       = tl (history (fst full_history))
         ++ [{| formula := [NumberToken_new D1; EqToken]; ans := 1 |}]
    /\ List.length
         (history
            (fst (saveAns [NumberToken_new D1; EqToken] 1
                    (fst full_history, snd full_history))))
       = MAX_HISTORY_COUNT
    /\ hV (snd (saveAns [NumberToken_new D1; EqToken] 1
                  (fst full_history, snd full_history))) oldest = None
    /\ ~ In oldest
           (historyIndices
              (fst (saveAns [NumberToken_new D1; EqToken] 1
                      (fst full_history, snd full_history)))).
Proof.
  refine (proj1 (X20_saveAns_evicts_the_oldest [NumberToken_new D1; EqToken] 1
                   (fst full_history) (snd full_history) _ _) _).
  - exact (proj1 (history_run_keeps_invariants
                    (repeat (SaveAns [] 0%float) 64)
                    (no_history, empty_storage)
                    (proj1 initial_history_invariants)
                    (proj2 initial_history_invariants))).
  - exact (proj2 (history_run_keeps_invariants
                    (repeat (SaveAns [] 0%float) 64)
                    (no_history, empty_storage)
                    (proj1 initial_history_invariants)
                    (proj2 initial_history_invariants))).
  - reflexivity.
Defined.

Lemma deserializeToken_unknown_tag (tag : string) (rest : list Json) :
  knownTag tag = false ->
  deserializeToken (JArray (JString tag :: rest))
  = Err (Thrown "cannot serialize token").
Proof.
  unfold knownTag. intro H.
  repeat (apply Bool.orb_false_iff in H; destruct H as [H ?]).
  simpl.
  repeat match goal with
         | E : String.eqb tag _ = false |- _ => rewrite E; clear E
         end.
  reflexivity.
Qed.

Lemma mapM_fails {A B : Type} (f : A -> result B) (l : list A) (x : A) :
  In x l -> (exists e, f x = Err e) -> exists e, mapM f l = Err e.
Proof.
  intros Hin [e He]. induction l as [|y l IH]; [contradiction|].
  change (exists e0, (z <- f y ;; zs <- mapM f l ;; Ok (z :: zs)) = Err e0).
  destruct Hin as [->|Hin].
  - rewrite He. exists e. reflexivity.
  - destruct (f y) as [z|e1]; [|exists e1; reflexivity].
    destruct (IH Hin) as [e2 ->]. exists e2. reflexivity.
Qed.

Lemma Environment_load_fails (storage : Storage) (indices : list Z)
    (index : Z) (item : HistoryItem) :
  In index indices ->
  hV storage index = Some item ->
  (exists e, mapM deserializeToken (item_formula item) = Err e) ->
  exists e, Environment_load storage indices = Err e.
Proof.
  intros Hin Hitem [e He].
  induction indices as [|i rest IH]; [contradiction|]. simpl.
  destruct Hin as [->|Hin].
  - rewrite Hitem, He. exists e. reflexivity.
  - destruct (IH Hin) as [e1 He1].
    destruct (hV storage i) as [item'|]; [|exists e1; exact He1].
    destruct (mapM deserializeToken (item_formula item')) as [f|e2];
      [|exists e2; reflexivity].
    simpl. destruct (item_ans item'); [|eexists; reflexivity].
    simpl. rewrite He1. exists e1. reflexivity.
Qed.

(** X21. One undecodable record makes the whole history fail to load:
    if an id listed under ['hI'] has a record whose formula holds, at
    any position, an entry with a tag other than n, b, u, g, s, o, e,
    then [deserializeToken] throws on that entry and [new Environment()]
    does not return an environment; the entries that could be decoded
    are not kept. *)
Theorem X21_undecodable_record_fails_the_load
    (storage : Storage) (index : Z) (item : HistoryItem)
    (tag : string) (payload before after : list Json)
    (Hlisted : In index (getItem_hI storage))
    (Hitem : hV storage index = Some item)
    (Hformula : item_formula item
                = before ++ JArray (JString tag :: payload) :: after)
    (Htag : knownTag tag = false) :
  deserializeToken (JArray (JString tag :: payload))
  = Err (Thrown "cannot serialize token")
  /\ exists e, Environment_new storage = Err e.
Proof.
  split; [apply deserializeToken_unknown_tag, Htag|].
  destruct (Environment_load_fails storage (getItem_hI storage) index item
              Hlisted Hitem) as [e He].
  - apply (mapM_fails deserializeToken _ (JArray (JString tag :: payload))).
    + rewrite Hformula. apply in_or_app. right. simpl. auto.
    + eexists. apply deserializeToken_unknown_tag, Htag.
  - exists e. unfold Environment_new. rewrite He. reflexivity.
Qed.

Lemma X21_undecodable_record_fails_the_load_witness :
  exists e,
    Environment_new
      (setItem_hI [0%Z; 1%Z]
         (setItem_hV 1
            {| item_formula := [serializeToken (NumberToken_new D1);
                                JArray [JString "x"; JNull]];
               item_ans := Some 1%float |}
            (setItem_hV 0
               {| item_formula := [serializeToken (NumberToken_new D2)];
                  item_ans := Some 2%float |}
               empty_storage)))
    = Err e.
Proof.
  apply (X21_undecodable_record_fails_the_load _ 1%Z
           {| item_formula := [serializeToken (NumberToken_new D1);
                               JArray [JString "x"; JNull]];
              item_ans := Some 1%float |}
           "x" [JNull] [serializeToken (NumberToken_new D1)] []).
  - simpl. auto.
  - reflexivity.
  - reflexivity.
  - reflexivity.
Defined.

(** X22. [deleteHistory(k)] on a bounded, synchronized history: for a
    position [k] inside the list it removes exactly the [k]-th id and the
    [k]-th entry, removes that id's record from the storage and leaves
    every other record; for a position past the end it changes neither
    the lists nor any record; a negative position counts from the end,
    so [-1] removes the last entry. *)
Theorem X22_deleteHistory_removes_one_entry
    (env : Environment) (storage : Storage)
    (Hbounded : historyBounded env) (Hsync : inSync env storage) :
  (forall k index,
     nth_error (historyIndices env) k = Some index ->
     let env' := fst (deleteHistory (Z.of_nat k) (env, storage)) in
     let storage' := snd (deleteHistory (Z.of_nat k) (env, storage)) in
     historyIndices env'
     = firstn k (historyIndices env) ++ skipn (S k) (historyIndices env)
     /\ history env' = firstn k (history env) ++ skipn (S k) (history env)
     /\ ~ In index (historyIndices env')
     /\ hV storage' index = None
     /\ (forall j, j <> index -> hV storage' j = hV storage j))
  /\ (forall start,
        (Z.of_nat (List.length (historyIndices env)) <= start)%Z ->
        historyIndices (fst (deleteHistory start (env, storage)))
        = historyIndices env
        /\ history (fst (deleteHistory start (env, storage))) = history env
        /\ (forall j, hV (snd (deleteHistory start (env, storage))) j
                      = hV storage j))
  /\ (forall kept index,
        historyIndices env = kept ++ [index] ->
        historyIndices (fst (deleteHistory (-1) (env, storage))) = kept
        /\ history (fst (deleteHistory (-1) (env, storage)))
           = removelast (history env)).
Proof.
  destruct env as [indices entries pa].
  destruct Hbounded as (Hlen & Hmax & Hsorted & Hpos).
  simpl in Hlen, Hmax, Hsorted, Hpos.
  cbn [historyIndices history].
  split; [|split].
  - intros k index Hk. cbv zeta.
    destruct (splice1_in_range indices k index Hk) as [Hsp Hdecomp].
    assert (Hk' : k < List.length entries)
      by (rewrite <- Hlen; apply nth_error_Some; rewrite Hk; discriminate).
    destruct (nth_error entries k) as [entry|] eqn:Ee.
    2:{ apply nth_error_None in Ee. lia. }
    destruct (splice1_in_range entries k entry Ee) as [Hsp' _].
    unfold deleteHistory.
    cbv beta iota delta [historyIndices history partialAns].
    rewrite Hsp, Hsp'. cbn [fst snd historyIndices history].
    split; [reflexivity|]. split; [reflexivity|].
    cbn [setItem_hI removeItem_hV hV]. split; [|split].
    + intro Hin. rewrite Hdecomp in Hsorted.
      apply StronglySorted_app_inv in Hsorted.
      destruct Hsorted as (_ & H2 & H3).
      apply in_app_or in Hin. destruct Hin as [Hin|Hin].
      * specialize (H3 index index Hin ltac:(simpl; auto)). lia.
      * apply (sorted_not_in_tail index _ H2 Hin).
    + rewrite Z.eqb_refl. reflexivity.
    + intros j Hj.
      replace (j =? index)%Z with false by (symmetry; apply Z.eqb_neq; lia).
      reflexivity.
  - intros start Hstart. unfold deleteHistory.
    cbv beta iota delta [historyIndices history partialAns].
    rewrite (splice1_out_of_range indices start Hstart).
    rewrite (splice1_out_of_range entries start) by lia.
    cbn [fst snd historyIndices history setItem_hI hV]. auto.
  - intros kept index ->. unfold deleteHistory.
    cbv beta iota delta [historyIndices history partialAns].
    assert (Hsp : forall A (l : list A) (x : A),
               snd (splice1 (l ++ [x]) (-1)) = l).
    { intros A l x. unfold splice1. cbn [snd].
      replace (-1 <? 0)%Z with true by reflexivity.
      rewrite length_app. simpl List.length.
      replace (Z.to_nat (Z.max (Z.of_nat (List.length l + 1) + -1) 0))
        with (List.length l) by lia.
      rewrite skipn_all2 by (rewrite length_app; simpl; lia).
      rewrite firstn_app, Nat.sub_diag, firstn_all. simpl.
      rewrite !app_nil_r. reflexivity. }
    destruct (array_cases entries) as [->|(erest & e & ->)].
    + rewrite length_app in Hlen. simpl in Hlen. lia.
    + pose proof (Hsp _ kept index) as H1. pose proof (Hsp _ erest e) as H2.
      destruct (splice1 (kept ++ [index]) (-1)) as [i l1].
      destruct (splice1 (erest ++ [e]) (-1)) as [i' l2].
      simpl in H1, H2. subst. cbn [fst historyIndices history].
      rewrite removelast_last. auto.
Qed.

Lemma X22_deleteHistory_removes_one_entry_witness :
  historyIndices (fst (deleteHistory 70 (fst full_history, snd full_history)))
  = historyIndices (fst full_history)
  /\ history (fst (deleteHistory 70 (fst full_history, snd full_history)))
     = history (fst full_history)
  /\ (forall j, hV (snd (deleteHistory 70 (fst full_history, snd full_history))) j
                = hV (snd full_history) j).
Proof.
  refine (proj1 (proj2 (X22_deleteHistory_removes_one_entry
                          (fst full_history) (snd full_history) _ _)) 70%Z _).
  - exact (proj1 (history_run_keeps_invariants
                    (repeat (SaveAns [] 0%float) 64)
                    (no_history, empty_storage)
                    (proj1 initial_history_invariants)
                    (proj2 initial_history_invariants))).
  - exact (proj2 (history_run_keeps_invariants
                    (repeat (SaveAns [] 0%float) 64)
                    (no_history, empty_storage)
                    (proj1 initial_history_invariants)
                    (proj2 initial_history_invariants))).
  - vm_compute. discriminate.
Defined.

(** ** Rendering *)

Lemma fold_renderInto (tokens : list Token) :
  Forall (fun t => forall out, renderInto t out = out ++ renderInto t [])
    tokens ->
  forall out,
    fold_left (fun acc token => renderInto token acc) tokens out
    = out ++ List.concat (map (fun t => renderInto t []) tokens).
Proof.
  induction 1 as [|t tokens Ht _ IH]; intro out; simpl.
  - symmetry. apply app_nil_r.
  - rewrite IH, Ht, <- app_assoc. reflexivity.
Qed.

Lemma renderInto_appends (t : Token) :
  forall out, renderInto t out = out ++ renderInto t [].
Proof.
  induction t as [negative number|op|op|tokens IH|op| |]
    using Token_nested_ind; intro out; try reflexivity.
  simpl. rewrite !(fold_renderInto tokens IH).
  rewrite <- !app_assoc. reflexivity.
Qed.

(** X23. Rendering only appends: [renderInto] leaves what the array
    already holds as a prefix and pushes fragments that do not depend on
    it. A formula renders as the concatenation of its tokens' fragments
    in order, and a Group as an opening parenthesis span, its tokens'
    fragments, and a closing parenthesis span. *)
Theorem X23_rendering_appends_token_by_token :
  (forall t out, renderInto t out = out ++ renderInto t [])
  /\ (forall tokens out,
        Formula.renderInto tokens out
        = out ++ List.concat (map (fun t => renderInto t []) tokens))
  /\ (forall tokens1 tokens2 out,
        Formula.renderInto (tokens1 ++ tokens2) out
        = Formula.renderInto tokens2 (Formula.renderInto tokens1 out))
  /\ (forall tokens,
        renderInto (GroupToken tokens) []
        = [span1 "parenthesis" "("] ++ Formula.renderInto tokens []
          ++ [span1 "parenthesis" ")"]).
Proof.
  assert (H2 : forall tokens out,
             Formula.renderInto tokens out
             = out ++ List.concat (map (fun t => renderInto t []) tokens)).
  { intros tokens out. unfold Formula.renderInto. apply fold_renderInto.
    apply Forall_forall. intros t _. apply renderInto_appends. }
  split; [intros; apply renderInto_appends|]. split; [exact H2|]. split.
  - intros tokens1 tokens2 out. unfold Formula.renderInto.
    apply fold_left_app.
  - intro tokens. simpl.
    change (fold_left (fun acc token => renderInto token acc) tokens
              [span1 "parenthesis" "("])
      with (Formula.renderInto tokens [span1 "parenthesis" "("]).
    rewrite (H2 tokens [_]), (H2 tokens []). simpl.
    reflexivity.
Qed.

(** ** Width estimate *)

Lemma estimatedWidth_from_dropCommas (n : string) (w : float) :
  estimatedWidth_from w (dropCommas n) = estimatedWidth_from w n.
Proof.
  revert w. induction n as [|c r IH]; intro w; simpl.
  - reflexivity.
  - destruct (Ascii.eqb c ",") eqn:E.
    + apply Ascii.eqb_eq in E. subst. simpl. apply IH.
    + simpl. rewrite E. apply IH.
Qed.

Lemma estimatedWidth_from_app (s1 s2 : string) (w : float) :
  estimatedWidth_from w (s1 ++ s2)
  = estimatedWidth_from (estimatedWidth_from w s1) s2.
Proof.
  revert w. induction s1 as [|c r IH]; intro w; simpl.
  - reflexivity.
  - apply IH.
Qed.

(** X24. Grouping commas do not count in [estimatedWidth]: a string and
    the same string without its commas have the same estimate, so a
    comma inserted anywhere changes nothing; and the estimate of a
    concatenation continues from the estimate of its first part. *)
Theorem X24_estimatedWidth_ignores_commas :
  (forall n, estimatedWidth (dropCommas n) = estimatedWidth n)
  /\ (forall s1 s2,
        estimatedWidth (s1 ++ "," ++ s2) = estimatedWidth (s1 ++ s2))
  /\ (forall s1 s2,
        estimatedWidth (s1 ++ s2)
        = estimatedWidth_from (estimatedWidth s1) s2)
  /\ estimatedWidth EmptyString = 0%float.
Proof.
  unfold estimatedWidth. split; [|split; [|split]].
  - intro n. apply estimatedWidth_from_dropCommas.
  - intros s1 s2. rewrite !estimatedWidth_from_app. reflexivity.
  - intros s1 s2. apply estimatedWidth_from_app.
  - reflexivity.
Qed.

(** ** What closing and completing show *)

Lemma Formula_renderInto_concat (tokens : list Token) (out : list string) :
  Formula.renderInto tokens out
  = out ++ List.concat (map (fun t => renderInto t []) tokens).
Proof.
  unfold Formula.renderInto. apply fold_renderInto.
  apply Forall_forall. intros t _. apply renderInto_appends.
Qed.

Lemma filter_isOpenToken_none (l : list Token) :
  Forall (fun t => isOpenToken t = false) l -> filter isOpenToken l = [].
Proof.
  induction 1 as [|x l Hx _ IH]; simpl.
  - reflexivity.
  - rewrite Hx. exact IH.
Qed.

Lemma appendClose_display (tokens tokens' : list Token) :
  Formula.appendClose tokens = Ok (true, tokens') ->
  Formula.renderInto tokens' []
  = Formula.renderInto tokens [] ++ [span1 "parenthesis" ")"]
  /\ S (countOpen tokens') = countOpen tokens.
Proof.
  intro H.
  destruct (appendClose_spec tokens)
    as [[Hfail _]|(pre & post & Htok & Hpost & _ & _ & Hok)].
  - rewrite Hfail in H. discriminate.
  - rewrite Hok in H. inversion H; subst. split.
    + rewrite !Formula_renderInto_concat. simpl.
      rewrite !map_app, !concat_app. simpl.
      change (fold_left (fun acc token => renderInto token acc) post
                [span1 "parenthesis" "("])
        with (Formula.renderInto post [span1 "parenthesis" "("]).
      rewrite Formula_renderInto_concat. simpl.
      rewrite !app_nil_r, <- !app_assoc. reflexivity.
    + unfold countOpen. rewrite !filter_app. simpl.
      rewrite (filter_isOpenToken_none post Hpost).
      rewrite !length_app. simpl. lia.
Qed.

Lemma closeAll_display (fuel : nat) (tokens closed : list Token) :
  Formula.closeAll fuel tokens = Ok closed ->
  closeDirective tokens = AppendResult.createAfter ->
  Formula.renderInto closed []
  = Formula.renderInto tokens []
    ++ repeat (span1 "parenthesis" ")") (countOpen tokens)
  /\ countOpen closed = 0.
Proof.
  revert tokens. induction fuel as [|fuel IH]; intros tokens H Hdir;
    simpl in H; [discriminate|].
  destruct (appendClose_spec tokens)
    as [[Hfail Hwhy]|(pre & post & Htok & Hpost & Hne & _ & Hok)].
  - rewrite Hfail in H. simpl in H. inversion H; subst.
    destruct Hwhy as [Hf|[_ Hall]]; [rewrite Hf in Hdir; discriminate|].
    unfold countOpen. rewrite (filter_isOpenToken_none closed Hall).
    simpl. rewrite app_nil_r. auto.
  - rewrite Hok in H. simpl in H.
    destruct (appendClose_display _ _ Hok) as [Hshow Hcount].
    destruct (IH _ H) as [Hshow' Hzero].
    { unfold closeDirective. rewrite appendToLastToken_snoc. reflexivity. }
    split; [|assumption].
    rewrite Hshow', Hshow, <- Hcount, <- app_assoc. reflexivity.
Qed.

(** X25. What the keys [)] and [=] add to the display. A successful
    [appendClose] changes the rendering of the formula only by one
    closing-parenthesis span at the end, and lowers the number of Open
    markers by one. A successful [appendEq] on a formula with [k] Open
    markers renders as the formula did, followed by [k] closing
    parentheses and the equals span; no token is lost or reordered on
    the display. *)
Theorem X25_close_and_equals_only_add_to_the_display (tokens : list Token) :
  (forall tokens',
     Formula.appendClose tokens = Ok (true, tokens') ->
     Formula.renderInto tokens' []
     = Formula.renderInto tokens [] ++ [span1 "parenthesis" ")"]
     /\ S (countOpen tokens') = countOpen tokens)
  /\ (closeDirective tokens = AppendResult.createAfter ->
      exists completed,
        Formula.appendEq tokens = Ok completed
        /\ Formula.renderInto completed []
           = Formula.renderInto tokens []
             ++ repeat (span1 "parenthesis" ")") (countOpen tokens)
             ++ [span1 "eq" "="]
        /\ countOpen completed = 0).
Proof.
  split; [apply appendClose_display|].
  intro Hdir.
  destruct (closeAll_closes_everything (S (List.length tokens)) tokens Hdir)
    as (closed & Hrun & _); [lia|].
  destruct (closeAll_display _ _ _ Hrun Hdir) as [Hshow Hzero].
  exists (closed ++ [EqToken]). split; [|split].
  - unfold Formula.appendEq. rewrite appendToLastToken_close, Hdir.
    cbn [AppendResult.eqb negb]. rewrite Hrun. reflexivity.
  - rewrite Formula_renderInto_concat, map_app, concat_app. simpl.
    rewrite Formula_renderInto_concat in Hshow. simpl in Hshow.
    rewrite Hshow, <- app_assoc. reflexivity.
  - unfold countOpen in *. rewrite filter_app, length_app, Hzero.
    reflexivity.
Qed.
